(** * ethtool-exporter: a shallow embedding of the EEPROM acquisition engine

    The development follows [module-eeprom.go] (socket, device handle,
    EEPROM reads, diagnostic decoder, field registry, serial-keyed cache)
    and [ethtool-exporter.go] (interface discovery, the partitions of
    [DiscoverAndCollect], serial collector, metric emitter and
    line-protocol encoder).  The goroutines that [DiscoverAndCollect]
    starts when there are several partitions are not modelled.

    Conventions.
    - Go's [uint32], [int] and [rune] values are integers in [Z]; where the
      source relies on 32-bit wrap-around the reduction [wrap32] is written
      out.
    - EEPROM bytes are [Byte.byte]; Go strings are [string] (sequences of
      bytes), and [for _, r := range s] goes through the UTF-8 decoder
      [runes].
    - A Go slice is a window on a backing array ([slice]); re-slicing is
      bounded by the capacity, indexing and [range] by the length.
    - A function returning [(T, error)] is a computation in [M T]: it
      threads the process state [World] and ends in [Ok], in [Err] (the
      non-nil error) or in [Panic] (a run-time panic).
    - The operating system and the parts of Go's library the code calls
      are the fields of a [Platform]. *)

From Stdlib Require Import ZArith Lia Bool Ascii String Strings.Byte List Uint63.
From Corelib Require Import PrimFloat.
From stdpp Require Import gmap strings list pretty sorting.

Local Open Scope string_scope.
Local Open Scope Z_scope.

(** ** Integers, bytes and strings *)

Definition wrap32 (z : Z) : Z := z mod 2 ^ 32.

Definition is_uint32 (z : Z) : Prop := 0 <= z < 2 ^ 32.

Definition byte_val (b : byte) : Z := Z.of_N (Byte.to_N b).

Definition byte_of_Z (z : Z) : byte :=
  match Byte.of_N (Z.to_N (z mod 256)) with
  | Some b => b
  | None => x00
  end.

Definition string_bytes (s : string) : list byte := list_byte_of_string s.

(** [fmt.Sprintf("%v", n)] and ["%d"] on an integer. *)
Definition fmt_d (n : Z) : string := pretty n.

Definition hex_digit (d : Z) : ascii :=
  ascii_of_nat (Z.to_nat (if d <? 10 then 48 + d else 87 + d)).

(** [fmt.Sprintf("%02x", b)] on a byte. *)
Definition fmt_02x (b : byte) : string :=
  String (hex_digit (byte_val b / 16))
         (String (hex_digit (byte_val b mod 16)) EmptyString).

Definition LF : string := String (ascii_of_nat 10) EmptyString.

(** UTF-8 encoding of one rune, as [string([]rune)] does it.  Surrogates
    and values beyond U+10FFFF become U+FFFD. *)
Definition chr (z : Z) : ascii := ascii_of_byte (byte_of_Z z).

Definition RuneError : Z := 0xFFFD.

Definition encode_rune (r : Z) : list ascii :=
  if (r <? 0) || (0x10FFFF <? r) || ((0xD800 <=? r) && (r <=? 0xDFFF)) then
    [chr 0xEF; chr 0xBF; chr 0xBD]
  else if r <? 0x80 then [chr r]
  else if r <? 0x800 then
    [chr (Z.lor 0xC0 (Z.shiftr r 6)); chr (Z.lor 0x80 (Z.land r 0x3F))]
  else if r <? 0x10000 then
    [chr (Z.lor 0xE0 (Z.shiftr r 12));
     chr (Z.lor 0x80 (Z.land (Z.shiftr r 6) 0x3F));
     chr (Z.lor 0x80 (Z.land r 0x3F))]
  else
    [chr (Z.lor 0xF0 (Z.shiftr r 18));
     chr (Z.lor 0x80 (Z.land (Z.shiftr r 12) 0x3F));
     chr (Z.lor 0x80 (Z.land (Z.shiftr r 6) 0x3F));
     chr (Z.lor 0x80 (Z.land r 0x3F))].

Definition string_of_runes (rs : list Z) : string :=
  string_of_list_ascii (concat (map encode_rune rs)).

Definition code (a : ascii) : Z := Z.of_N (N_of_ascii a).

Definition is_cont (b : Z) : bool := (0x80 <=? b) && (b <=? 0xBF).

(** The runes [range] yields over the bytes of a string: a well-formed
    UTF-8 sequence gives its code point, anything else gives [RuneError]
    and consumes one byte. *)
Fixpoint decode_runes (s : list ascii) : list Z :=
  match s with
  | [] => []
  | a0 :: t0 =>
    let b0 := code a0 in
    if b0 <? 0x80 then b0 :: decode_runes t0
    else
      match t0 with
      | a1 :: t1 =>
        let b1 := code a1 in
        if (0xC2 <=? b0) && (b0 <=? 0xDF) then
          if is_cont b1
          then Z.lor (Z.shiftl (Z.land b0 0x1F) 6) (Z.land b1 0x3F) :: decode_runes t1
          else RuneError :: decode_runes t0
        else
          match t1 with
          | a2 :: t2 =>
            let b2 := code a2 in
            if (0xE0 <=? b0) && (b0 <=? 0xEF) then
              if ((if b0 =? 0xE0 then 0xA0 else 0x80) <=? b1)
                 && (b1 <=? (if b0 =? 0xED then 0x9F else 0xBF))
                 && is_cont b2
              then Z.lor (Z.shiftl (Z.land b0 0x0F) 12)
                     (Z.lor (Z.shiftl (Z.land b1 0x3F) 6) (Z.land b2 0x3F))
                   :: decode_runes t2
              else RuneError :: decode_runes t0
            else
              match t2 with
              | a3 :: t3 =>
                let b3 := code a3 in
                if (0xF0 <=? b0) && (b0 <=? 0xF4)
                   && ((if b0 =? 0xF0 then 0x90 else 0x80) <=? b1)
                   && (b1 <=? (if b0 =? 0xF4 then 0x8F else 0xBF))
                   && is_cont b2 && is_cont b3
                then Z.lor (Z.shiftl (Z.land b0 0x07) 18)
                       (Z.lor (Z.shiftl (Z.land b1 0x3F) 12)
                          (Z.lor (Z.shiftl (Z.land b2 0x3F) 6) (Z.land b3 0x3F)))
                     :: decode_runes t3
                else RuneError :: decode_runes t0
              | [] => RuneError :: decode_runes t0
              end
          | [] => RuneError :: decode_runes t0
          end
      | [] => [RuneError]
      end
  end.

Definition runes (s : string) : list Z := decode_runes (list_ascii_of_string s).

(** ** Slices *)

(** [sl_arr] is the backing array from the slice's first element to its
    capacity; the slice proper is its first [sl_len] elements. *)
Record slice := Slice { sl_arr : list byte; sl_len : Z }.

Definition nil_slice : slice := Slice [] 0.

Definition cap (s : slice) : Z := Z.of_nat (length (sl_arr s)).

Definition elems (s : slice) : list byte := take (Z.to_nat (sl_len s)) (sl_arr s).

(** [s[lo:hi]]: [None] stands for the run-time panic "slice bounds out of
    range", raised unless [0 <= lo <= hi <= cap(s)]. *)
Definition reslice (s : slice) (lo hi : Z) : option slice :=
  if (0 <=? lo) && (lo <=? hi) && (hi <=? cap s)
  then Some (Slice (drop (Z.to_nat lo) (sl_arr s)) (hi - lo))
  else None.

(** [s[i]]: [None] stands for "index out of range". *)
Definition index (s : slice) (i : Z) : option byte :=
  if (0 <=? i) && (i <? sl_len s) then sl_arr s !! Z.to_nat i else None.

(** ** Errors, outcomes and the process state *)

Inductive error :=
| Errno (n : Z)              (* a [syscall.Errno] *)
| errorString (s : string).  (* [errors.New], [fmt.Errorf] *)

Inductive res (A : Type) :=
| Ok (a : A)
| Err (e : error)
| Panic (msg : string).
Arguments Ok {A} a.
Arguments Err {A} e.
Arguments Panic {A} msg.

Definition res_bind {A B} (r : res A) (k : A -> res B) : res B :=
  match r with
  | Ok a => k a
  | Err e => Err e
  | Panic m => Panic m
  end.

Definition or_panic {A} (o : option A) (msg : string) : res A :=
  match o with
  | Some a => Ok a
  | None => Panic msg
  end.

Definition IFNAMSIZ : Z := 16.

(** The [SIOCETHTOOL] requests the program issues. *)
Inductive ioctl_req :=
| GMODULEINFO (ifname : list byte)
| GMODULEEEPROM (ifname : list byte) (offset len : Z).

(** What lies outside the repository: the kernel behind the socket and
    ioctl system calls, with a state of its own, and the library functions
    [math.Log10], [syscall.Errno.Error] and the ["%.Nf"] verb of [fmt]. *)
Record Platform := {
  kstate : Type;
  unix_Socket : kstate -> (Z + Z) * kstate;
  ioctl_GMODULEINFO : kstate -> Z -> list byte -> (Z + Z * Z) * kstate;
  ioctl_GMODULEEEPROM : kstate -> Z -> list byte -> Z -> Z -> (Z + list byte) * kstate;
  math_Log10 : float -> float;
  errno_text : Z -> string;
  fmt_f : nat -> float -> string
}.

Record TranscieverDiagnostics := {
  temperature_C : float;
  voltage_V : float;
  bias_mA : float;
  transmit_mW : float;
  receive_mW : float;
  transmit_dBm : float;
  receive_dBm : float
}.

Record EthToolModule := {
  ifname : list byte;
  tpe : Z;
  eeprom_len : Z
}.

(** The package-level variables [ethtool_socket] and [moduleCache], the
    kernel, and the log of the ioctls issued so far. *)
Record World (P : Platform) := {
  kern : kstate P;
  ethtool_socket : Z;
  ioctls : list ioctl_req;
  moduleCache : gmap string (gmap string string)
}.
Arguments kern {P} w.
Arguments ethtool_socket {P} w.
Arguments ioctls {P} w.
Arguments moduleCache {P} w.

Definition M (P : Platform) (A : Type) : Type := World P -> res A * World P.

Definition ret {P A} (a : A) : M P A := fun w => (Ok a, w).

Definition throw {P A} (e : error) : M P A := fun w => (Err e, w).

Definition lift {P A} (r : res A) : M P A := fun w => (r, w).

Definition bind {P A B} (m : M P A) (k : A -> M P B) : M P B :=
  fun w =>
    match m w with
    | (Ok a, w') => k a w'
    | (Err e, w') => (Err e, w')
    | (Panic msg, w') => (Panic msg, w')
    end.

Notation "'let*' x := m 'in' k" := (bind m (fun x => k))
  (at level 10, x name, m at level 100, k at level 200).

Notation "'let?' x := r 'in' k" := (res_bind r (fun x => k))
  (at level 10, x name, r at level 100, k at level 200).

(** ** module-eeprom.go: the device handle *)

Section Engine.
Context {P : Platform}.

Definition set_kern (k : kstate P) (w : World P) : World P :=
  {| kern := k; ethtool_socket := ethtool_socket w;
     ioctls := ioctls w; moduleCache := moduleCache w |}.

Definition set_socket (fd : Z) (w : World P) : World P :=
  {| kern := kern w; ethtool_socket := fd;
     ioctls := ioctls w; moduleCache := moduleCache w |}.

Definition log_ioctl (r : ioctl_req) (w : World P) : World P :=
  {| kern := kern w; ethtool_socket := ethtool_socket w;
     ioctls := ioctls w ++ [r]; moduleCache := moduleCache w |}.

Definition set_cache (c : gmap string (gmap string string)) (w : World P) : World P :=
  {| kern := kern w; ethtool_socket := ethtool_socket w;
     ioctls := ioctls w; moduleCache := c |}.

(** [ethtool(ifname, data)]: opens the socket on first use, then issues
    the ioctl [req]; [sys] is the kernel's handling of that request, [inl]
    carrying the errno of a failed call. *)
Definition ethtool {A} (req : ioctl_req)
    (sys : kstate P -> Z -> (Z + A) * kstate P) : M P A :=
  fun w =>
    let opened :=
      if ethtool_socket w <? 0 then
        match unix_Socket P (kern w) with
        | (inl errno, k) => inl (Errno errno, set_kern k w)
        | (inr fd, k) => inr (set_socket fd (set_kern k w))
        end
      else inr w in
    match opened with
    | inl (err, w1) => (Err err, w1)
    | inr w1 =>
      match sys (kern w1) (ethtool_socket w1) with
      | (inl errno, k) => (Err (Errno errno), log_ioctl req (set_kern k w1))
      | (inr reply, k) => (Ok reply, log_ioctl req (set_kern k w1))
      end
    end.

Definition NewEthToolModule (name : string) : M P EthToolModule :=
  let name16 := take (Z.to_nat IFNAMSIZ)
                  (string_bytes name ++ replicate (Z.to_nat IFNAMSIZ) x00) in
  let* modInfo := ethtool (GMODULEINFO name16)
                    (fun k fd => ioctl_GMODULEINFO P k fd name16) in
  ret {| ifname := name16;
         tpe := wrap32 (fst modInfo);
         eeprom_len := wrap32 (snd modInfo) |}.

Definition ETH_MODULE_SFF_8472 : Z := 0x2.
Definition ETH_MODULE_SFF_8472_LEN : Z := 512.

(** The [data] array of [ethtoolEeprom] after the call: zero-initialised,
    then overwritten from its start by what the kernel returned. *)
Definition eeprom_data (written : list byte) : list byte :=
  take (Z.to_nat ETH_MODULE_SFF_8472_LEN)
       (written ++ replicate (Z.to_nat ETH_MODULE_SFF_8472_LEN) x00).

(** [eeprom.data[:len]] *)
Definition array_prefix (data : list byte) (len : Z) : res slice :=
  if (0 <=? len) && (len <=? Z.of_nat (length data))
  then Ok (Slice data len)
  else Panic "slice bounds out of range".

Definition Read (e : EthToolModule) (offset len : Z) : M P slice :=
  if eeprom_len e <? 1 then
    throw (errorString "ethtool: No EEPROM to read.")
  else if eeprom_len e <? offset then
    throw (errorString "ethtool: Offset out of bounds.")
  else if offset =? eeprom_len e then
    ret nil_slice
  else
    let len := if wrap32 (eeprom_len e - offset) <? len
               then wrap32 (eeprom_len e - offset) else len in
    let* written := ethtool (GMODULEEEPROM (ifname e) offset len)
                      (fun k fd => ioctl_GMODULEEEPROM P k fd (ifname e) offset len) in
    lift (array_prefix (eeprom_data written) len).

(** ** The diagnostic decoder *)

Definition txr_MULT_C : float := (1 / 256)%float.
Definition txr_MULT_V : float := (1 / 10000)%float.
Definition txr_MULT_mA : float := (1 / 500)%float.
Definition txr_MULT_mW : float := (1 / 10000)%float.

(** [binary.BigEndian.Uint16(b)] *)
Definition Uint16 (b : slice) : res Z :=
  let? b1 := or_panic (index b 1) "index out of range" in
  let? b0 := or_panic (index b 0) "index out of range" in
  Ok (Z.lor (byte_val b1) (Z.shiftl (byte_val b0) 8)).

(** [float64(v)] for a 16-bit [v]. *)
Definition float64 (v : Z) : float := PrimFloat.of_uint63 (Uint63.of_Z v).

(** The body of the loop [for i := 0; i < 5; i++]. *)
Definition diag_word (data : slice) (i : Z) : res float :=
  let? b := or_panic (reslice data (i * 2) (i * 2 + 2)) "slice bounds out of range" in
  let? v := Uint16 b in
  Ok (float64 v).

Definition TxrDiag (e : EthToolModule) : M P TranscieverDiagnostics :=
  if negb (tpe e =? ETH_MODULE_SFF_8472) then
    throw (errorString ("Unsupported module type: " ++ fmt_d (tpe e)))
  else
    let* data := Read e 0x160 10 in
    let* w0 := lift (diag_word data 0) in
    let* w1 := lift (diag_word data 1) in
    let* w2 := lift (diag_word data 2) in
    let* w3 := lift (diag_word data 3) in
    let* w4 := lift (diag_word data 4) in
    let tx := (w3 * txr_MULT_mW)%float in
    let rx := (w4 * txr_MULT_mW)%float in
    ret {| temperature_C := (w0 * txr_MULT_C)%float;
           voltage_V := (w1 * txr_MULT_V)%float;
           bias_mA := (w2 * txr_MULT_mA)%float;
           transmit_mW := tx;
           receive_mW := rx;
           transmit_dBm := (math_Log10 P tx * 10)%float;
           receive_dBm := (math_Log10 P rx * 10)%float |}.

(** ** The field registry *)

Definition TXR_MI_ALLOW_CACHE : Z := 0x7FFF.
Definition TXR_MI_ALL : Z := 0x3FFF.
Definition TXR_MI_VENDOR : Z := Z.shiftl 1 0.
Definition TXR_MI_OUI : Z := Z.shiftl 1 1.
Definition TXR_MI_PRODUCT : Z := Z.shiftl 1 2.
Definition TXR_MI_REVISION : Z := Z.shiftl 1 3.
Definition TXR_MI_WAVELEN : Z := Z.shiftl 1 4.
Definition TXR_MI_SERIAL : Z := Z.shiftl 1 5.
Definition TXR_MI_DATE : Z := Z.shiftl 1 6.

Definition txr_DECODE_STRING : Z := 0.
Definition txr_DECODE_INT : Z := 1.
Definition txr_DECODE_OUI : Z := 2.

Record eepromEntryDef := {
  e_name : string;
  e_offset : Z;
  e_length : Z;
  e_flag : Z;
  e_decoder : Z
}.

Fixpoint fromLatin1_lastchar (bs : list byte) (i lastchar : nat) : nat :=
  match bs with
  | [] => lastchar
  | b :: rest =>
    fromLatin1_lastchar rest (S i)
      (if negb (byte_val b =? 0) && negb (byte_val b =? 0x20) then S i else lastchar)
  end.

Definition fromLatin1 (bytes : slice) : string :=
  let output := map byte_val (elems bytes) in
  let lastchar := fromLatin1_lastchar (elems bytes) 0 0 in
  string_of_runes (take lastchar output).

(** One iteration of the loop of [validSerial] on the counters
    [(other_chars, alnum)]; the characters are written by their codes:
    space 32, tilde 126, digits 48-57, [A]-[Z] 65-90, [a] 97, [z] 122. *)
Definition validSerial_step (c : Z * Z) (r : Z) : Z * Z :=
  if (r <? 32) || (126 <? r) then (fst c + 1, snd c)
  else if ((48 <=? r) && (r <=? 57)) || ((65 <=? r) && (r <=? 90))
          || ((r <=? 97) && (122 <=? r))
  then (fst c, snd c + 1)
  else c.

Definition validSerial (sn : string) : bool :=
  let c := fold_left validSerial_step (runes sn) (0, 0) in
  (3 <? snd c) && (fst c =? 0).

Definition GAP_MERGE : Z := 4.
Definition infty : Z := 0xffff.

Definition txrEepromStatic : list eepromEntryDef := [
  {| e_name := "vendor";   e_offset := 0x14;  e_length := 16; e_flag := TXR_MI_VENDOR;   e_decoder := txr_DECODE_STRING |};
  {| e_name := "oui";      e_offset := 0x25;  e_length := 3;  e_flag := TXR_MI_OUI;      e_decoder := txr_DECODE_OUI |};
  {| e_name := "product";  e_offset := 0x28;  e_length := 16; e_flag := TXR_MI_PRODUCT;  e_decoder := txr_DECODE_STRING |};
  {| e_name := "revision"; e_offset := 0x38;  e_length := 4;  e_flag := TXR_MI_REVISION; e_decoder := txr_DECODE_STRING |};
  {| e_name := "wavelen";  e_offset := 0x3c;  e_length := 2;  e_flag := TXR_MI_WAVELEN;  e_decoder := txr_DECODE_INT |};
  {| e_name := "serial";   e_offset := 0x44;  e_length := 16; e_flag := TXR_MI_SERIAL;   e_decoder := txr_DECODE_STRING |};
  {| e_name := "mfgdate";  e_offset := 0x54;  e_length := 8;  e_flag := TXR_MI_WAVELEN;  e_decoder := txr_DECODE_STRING |};
  {| e_name := "--last--"; e_offset := infty; e_length := 0;  e_flag := 0;               e_decoder := 0 |}
].

(** The [default] case of the switch in [GetTxrInfoFlags]: the scan of the
    table for the name [info], on the pair [(found, ret)]. *)
Definition GetTxrInfoFlags_scan (info : string) (c : bool * Z) (def : eepromEntryDef) : bool * Z :=
  if String.eqb info (e_name def) then (true, Z.lor (snd c) (e_flag def)) else c.

Fixpoint GetTxrInfoFlags_loop (str : list string) (ret : Z) : res Z :=
  match str with
  | [] => Ok ret
  | info :: rest =>
    if String.eqb info "ALL" then GetTxrInfoFlags_loop rest (Z.lor ret TXR_MI_ALL)
    else if String.eqb info "CACHE" then GetTxrInfoFlags_loop rest (Z.lor ret TXR_MI_ALLOW_CACHE)
    else
      let c := fold_left (GetTxrInfoFlags_scan info) txrEepromStatic (false, ret) in
      if fst c then GetTxrInfoFlags_loop rest (snd c)
      else Err (errorString ("Unknown entry '" ++ info ++ "'"))
  end.

Definition GetTxrInfoFlags (str : list string) : res Z := GetTxrInfoFlags_loop str 0.

Record bufferInfo := { def : Z; buf_pos : Z }.

(** The test [qdef.flag & flags != 0]. *)
Definition selects (flags : Z) (qdef : eepromEntryDef) : bool :=
  negb (Z.land (e_flag qdef) flags =? 0).

(** [l[i]] for an [int] index. *)
Definition at_index {A} (l : list A) (i : Z) : option A :=
  if 0 <=? i then l !! Z.to_nat i else None.

(** Go's 64-bit [int], for the accumulator of [txr_DECODE_INT]. *)
Definition wrap_int (z : Z) : Z := (z + 2 ^ 63) mod 2 ^ 64 - 2 ^ 63.

Definition decodeStatic (buf : slice) (decoder : Z) : res string :=
  if decoder =? txr_DECODE_STRING then Ok (fromLatin1 buf)
  else if decoder =? txr_DECODE_OUI then
    let? b0 := or_panic (index buf 0) "index out of range" in
    let? b1 := or_panic (index buf 1) "index out of range" in
    let? b2 := or_panic (index buf 2) "index out of range" in
    Ok (fmt_02x b0 ++ ":" ++ fmt_02x b1 ++ ":" ++ fmt_02x b2)
  else if decoder =? txr_DECODE_INT then
    Ok (fmt_d (fold_left (fun acc d => wrap_int (256 * acc + byte_val d)) (elems buf) 0))
  else Panic "Invalid eeprom definition".

(** The local variables of [moduleInfo]. *)
Record queryState := {
  q_ret : gmap string string;
  query : list bufferInfo;
  query_start : Z;
  query_end : Z;
  query_len : Z
}.

(** The body of the loop [for j := 0; j < query_len; j++]. *)
Definition decode_entry (buf : slice) (query : list bufferInfo)
    (ret : gmap string string) (j : Z) : res (gmap string string) :=
  let? q := or_panic (at_index query j) "index out of range" in
  let? ddef := or_panic (at_index txrEepromStatic (def q)) "index out of range" in
  let buf_end := wrap32 (buf_pos q + e_length ddef) in
  let? field := or_panic (reslice buf (buf_pos q) buf_end) "slice bounds out of range" in
  let? text := decodeStatic field (e_decoder ddef) in
  Ok (<[e_name ddef := text]> ret).

Fixpoint decode_loop (buf : slice) (query : list bufferInfo)
    (js : list Z) (ret : gmap string string) : res (gmap string string) :=
  match js with
  | [] => Ok ret
  | j :: rest =>
    let? ret' := decode_entry buf query ret j in
    decode_loop buf query rest ret'
  end.

(** The pending span is read and its fields are decoded. *)
Definition flush (e : EthToolModule) (st : queryState) : M P queryState :=
  let* buf := Read e (query_start st) (wrap32 (query_end st - query_start st)) in
  let* ret' := lift (decode_loop buf (query st) (seqZ 0 (query_len st)) (q_ret st)) in
  ret {| q_ret := ret'; query := query st; query_start := query_start st;
         query_end := query_end st; query_len := 0 |}.

(** The second half of the loop body: the entry is added to the pending
    span when its flag is requested. *)
Definition enqueue (flags i : Z) (qdef : eepromEntryDef) (st : queryState) : res queryState :=
  if selects flags qdef then
    let start := if query_len st =? 0 then e_offset qdef else query_start st in
    if (0 <=? query_len st) && (query_len st <? Z.of_nat (length (query st))) then
      Ok {| q_ret := q_ret st;
            query := <[Z.to_nat (query_len st) :=
                        {| def := i; buf_pos := wrap32 (e_offset qdef - start) |}]> (query st);
            query_start := start;
            query_end := wrap32 (e_offset qdef + e_length qdef);
            query_len := query_len st + 1 |}
    else Panic "index out of range"
  else Ok st.

Definition moduleInfo_body (e : EthToolModule) (flags i : Z) (qdef : eepromEntryDef)
    (st : queryState) : M P queryState :=
  let* st1 := (if (0 <? query_len st)
                  && (query_end st <? wrap32 (e_offset qdef - GAP_MERGE))
               then flush e st else ret st) in
  lift (enqueue flags i qdef st1).

(** [for i, qdef := range txrEepromStatic], from index [i] on. *)
Fixpoint moduleInfo_loop (e : EthToolModule) (flags i : Z) (table : list eepromEntryDef)
    (st : queryState) : M P queryState :=
  match table with
  | [] => ret st
  | qdef :: rest =>
    let* st' := moduleInfo_body e flags i qdef st in
    moduleInfo_loop e flags (i + 1) rest st'
  end.

Definition moduleInfo (e : EthToolModule) (flags : Z) : M P (gmap string string) :=
  if negb (tpe e =? ETH_MODULE_SFF_8472) then
    throw (errorString ("Unsupported module type: " ++ fmt_d (tpe e)))
  else
    let st0 := {| q_ret := ∅;
                  query := replicate (length txrEepromStatic) {| def := 0; buf_pos := 0 |};
                  query_start := 0; query_end := 0; query_len := 0 |} in
    let* st := moduleInfo_loop e flags 0 txrEepromStatic st0 in
    ret (q_ret st).

(** ** The serial-keyed cache *)

(** The first block of [ModuleInfo]: [inl] is the early return of the
    cached Tag Set, [inr (sn, have_sn)] falls through to the full read.
    A map is modelled by its contents: on a hit the caller receives the
    cached map itself, on a miss a map of which the cache keeps a copy. *)
Definition ModuleInfo_probe (e : EthToolModule) (flags : Z)
    : M P (gmap string string + string * bool) :=
  if flags =? TXR_MI_ALLOW_CACHE then
    let* serial := moduleInfo e TXR_MI_SERIAL in
    let sn := default "" (serial !! "serial") in
    let have_sn := bool_decide (is_Some (serial !! "serial")) in
    fun w =>
      if have_sn && validSerial sn then
        match moduleCache w !! sn with
        | Some cached => (Ok (inl cached), w)
        | None => (Ok (inr (sn, have_sn)), w)
        end
      else (Ok (inr (sn, have_sn)), w)
  else ret (inr ("", false)).

Definition ModuleInfo (e : EthToolModule) (flags : Z) : M P (gmap string string) :=
  let* probe := ModuleInfo_probe e flags in
  match probe with
  | inl cached => ret cached
  | inr (sn, have_sn) =>
    let flags := if have_sn then Z.land flags (Z.lnot TXR_MI_SERIAL) else flags in
    let* tags := moduleInfo e flags in
    if have_sn then
      let tags := <["serial" := sn]> tags in
      fun w => (Ok tags, set_cache (<[sn := tags]> (moduleCache w)) w)
    else ret tags
  end.

End Engine.

(** ** ethtool-exporter.go: the collector and the line-protocol encoder *)

Definition namespace : string := "ethtool".

Definition transcieverFullLabels : list string :=
  ["iface"; "error"; "vendor"; "revision"; "product"; "serial"; "wavelen"; "mfgdate"].

(** The fields of [Exporter] the collector reads. *)
Record Exporter := {
  pathGlob : list string;
  debug : bool;
  txrInfoFlags : Z
}.

(** [flagList] is ["CACHE"] followed by [transcieverFullLabels[2:]]. *)
Definition NewExporter (pathGlob : list string) (debug : bool) : res Exporter :=
  let flagList := <[0%nat := "CACHE"]>
                    ("" :: drop 2 transcieverFullLabels) in
  let? flags := GetTxrInfoFlags flagList in
  Ok {| pathGlob := pathGlob; txrInfoFlags := flags; debug := debug |}.

(** What [Emit] receives: [rec_err = None] is the nil error, an empty
    [rec_tags] a nil or empty map, [rec_metrics = None] the nil pointer. *)
Record CollectionRecord := {
  rec_iface : string;
  rec_err : option error;
  rec_tags : gmap string string;
  rec_metrics : option TranscieverDiagnostics
}.

(** The interface [Emiter]; [Ch] holds what has been sent on the channel. *)
Class Emiter (Ch : Type) := Emit : Ch -> CollectionRecord -> res Ch.

(** An emitter that keeps the records it is handed. *)
Definition Recorder : Type := list CollectionRecord.

#[export] Instance Recorder_Emit : Emiter Recorder := fun ch r => Ok (ch ++ [r])%list.

Fixpoint replace_chars (p : ascii -> bool) (f : ascii -> string) (s : string) : string :=
  match s with
  | EmptyString => EmptyString
  | String a rest =>
    (if p a then f a else String a EmptyString) ++ replace_chars p f rest
  end.

Definition backslash : string := String (ascii_of_nat 92) EmptyString.

(** [dangerousChars.ReplaceAllString(value, "~")]: the class of the
    expression holds the double quote, the single quote and the
    backquote; the backslash written in it escapes the double quote and
    is not a member. *)
Definition dangerousChars (value : string) : string :=
  replace_chars
    (fun a => (code a =? 34) || (code a =? 39) || (code a =? 96))
    (fun _ => "~") value.

(** [whiteChars.ReplaceAllString(value, "\\ ")]: the classes [[:cntrl:]]
    and [[:space:]], that is the codes up to 32 and 127. *)
Definition whiteChars (value : string) : string :=
  replace_chars (fun a => (code a <=? 32) || (code a =? 127))
    (fun _ => backslash ++ " ") value.

(** [escapeChars.ReplaceAllString(value, "\\$1")]: comma and equals sign. *)
Definition escapeChars (value : string) : string :=
  replace_chars (fun a => (code a =? 44) || (code a =? 61))
    (fun a => backslash ++ String a EmptyString) value.

Definition EOF : string := String (ascii_of_nat 0) "EOF".

Section Collector.
Context {P : Platform}.

(** [err.Error()] *)
Definition Error (e : error) : string :=
  match e with
  | Errno n => errno_text P n
  | errorString s => s
  end.

(** Runs [m] and hands its error, if any, to the caller as a value. *)
Definition try {A} (m : M P A) : M P (error + A) :=
  fun w =>
    match m w with
    | (Ok a, w') => (Ok (inr a), w')
    | (Err e, w') => (Ok (inl e), w')
    | (Panic msg, w') => (Panic msg, w')
    end.

(** The body of the loop of [CollectIfacesSerially], up to the call of
    [Emit], statement by statement on the variables [m], [err], [tags]
    and [metrics]; [m] is [None] for the nil pointer. *)
Definition collect (e : Exporter) (iface : string) : M P CollectionRecord :=
  (* m, err := NewEthToolModule(iface) *)
  let* opened := try (NewEthToolModule iface) in
  let m := match opened with inr m => Some m | inl _ => None end in
  let err := match opened with inr _ => None | inl err => Some err end in
  (* if err == nil { tags, err = m.ModuleInfo(...) } else { tags = make(...) } *)
  let* fetched :=
    match err, m with
    | None, Some m =>
      let* got := try (ModuleInfo m (txrInfoFlags e)) in
      ret (match got with
           | inr tags => (tags, None)
           | inl err => (∅, Some err)
           end)
    | None, None => lift (Panic "nil pointer dereference")
    | Some _, _ => ret (∅, err)
    end in
  let tags : gmap string string := fst fetched in
  let err : option error := snd fetched in
  (* if err == nil { metrics, err = m.TxrDiag() } *)
  let* measured :=
    match err, m with
    | None, Some m =>
      let* got := try (TxrDiag m) in
      ret (match got with
           | inr metrics => (Some metrics, None)
           | inl err => (None, Some err)
           end)
    | None, None => lift (Panic "nil pointer dereference")
    | Some _, _ => ret (None, err)
    end in
  ret {| rec_iface := iface; rec_err := snd measured; rec_tags := tags;
         rec_metrics := fst measured |}.

Fixpoint CollectIfacesSerially {Ch} `{Emiter Ch} (e : Exporter) (ifaces : list string)
    (ch : Ch) : M P Ch :=
  match ifaces with
  | [] => ret ch
  | iface :: rest =>
    let* r := collect e iface in
    let* ch' := lift (Emit ch r) in
    CollectIfacesSerially e rest ch'
  end.

(** The loop over [transcieverFullLabels] in [InfluxChan.Emit]. *)
Definition tag_value (r : CollectionRecord) (label : string) : string :=
  if String.eqb label "iface" then rec_iface r
  else if String.eqb label "error" then
    match rec_err r with Some err => Error err | None => "" end
  else default "" (rec_tags r !! label).

Definition tagList_step (r : CollectionRecord) (tagList : list string) (label : string)
    : list string :=
  let value := tag_value r label in
  if 0 <? Z.of_nat (String.length value) then
    let tag := label ++ "=" ++ escapeChars (whiteChars (dangerousChars value)) in
    (tagList ++ [tag])%list
  else tagList.

Definition InfluxChan : Type := list string.

Definition milli (x : float) : float := (x * (1 / 1000))%float.

Definition InfluxChan_Emit (ch : InfluxChan) (r : CollectionRecord) : res InfluxChan :=
  let tagList := fold_left (tagList_step r) transcieverFullLabels [] in
  let tagStr := String.concat "," tagList in
  match rec_err r with
  | None =>
    let? metrics := or_panic (rec_metrics r) "nil pointer dereference" in
    let line :=
      namespace ++ "_transciever," ++ tagStr
      ++ " present=1i,temperature_C=" ++ fmt_f P 2 (temperature_C metrics)
      ++ ",voltage_V=" ++ fmt_f P 3 (voltage_V metrics)
      ++ ",bias_A=" ++ fmt_f P 6 (milli (bias_mA metrics))
      ++ ",receive_power_dBm=" ++ fmt_f P 2 (receive_dBm metrics)
      ++ ",transmit_power_dBm=" ++ fmt_f P 2 (transmit_dBm metrics)
      ++ ",receive_power_W=" ++ fmt_f P 7 (milli (receive_mW metrics))
      ++ ",transmit_power_W=" ++ fmt_f P 7 (milli (transmit_mW metrics)) in
    Ok (ch ++ [line])%list
  | Some _ =>
    let line := namespace ++ "_transciever," ++ tagStr ++ " present=0i" ++ LF in
    Ok (ch ++ [line])%list
  end.


(** The receiving loop of [Influxdb] on the lines sent to it, the
    sentinel included: each line is written as ["%s %v\n"] with the
    timestamp [nowi]. *)
Fixpoint Influxdb_loop (nowi : Z) (lines : list string) : string :=
  match lines with
  | [] => ""
  | line :: rest =>
    if String.eqb line EOF then ""
    else (line ++ " " ++ fmt_d nowi ++ LF) ++ Influxdb_loop nowi rest
  end.


End Collector.

(** ** module-eeprom.go: closing the socket *)

(** [CloseEthToolSocket]: [unix_Close] stands for [unix.Close], whose
    result the function drops. *)
Definition CloseEthToolSocket {P : Platform} (unix_Close : kstate P -> Z -> kstate P)
    (w : World P) : World P :=
  if 0 <=? ethtool_socket w
  then set_socket (-1) (set_kern (unix_Close (kern w) (ethtool_socket w)) w)
  else w.

(** ** ethtool-exporter.go: interface discovery *)

(** [strings.LastIndex(s, "/")]: the index of the last slash, or -1. *)
Fixpoint LastIndex_slash_from (s : string) (i last : Z) : Z :=
  match s with
  | EmptyString => last
  | String a rest => LastIndex_slash_from rest (i + 1) (if code a =? 47 then i else last)
  end.

Definition LastIndex_slash (s : string) : Z := LastIndex_slash_from s 0 (-1).

(** [s[n:]] for [0 <= n <= len(s)]. *)
Fixpoint string_from (s : string) (n : nat) {struct n} : string :=
  match n, s with
  | O, _ => s
  | S n', String _ rest => string_from rest n'
  | S _, EmptyString => EmptyString
  end.

(** [match[slash+1:]] *)
Definition last_component (path : string) : string :=
  string_from path (Z.to_nat (LastIndex_slash path + 1)).

(** The order [<] of Go strings, byte by byte. *)
Definition string_lt (s t : string) : Prop := String.ltb s t = true.
Definition string_le (s t : string) : Prop := String.leb s t = true.

#[export] Instance string_le_dec (s t : string) : Decision (string_le s t) :=
  bool_dec (String.leb s t) true.

(** [sort.Strings]: the list in ascending order. *)
Definition sort_Strings (l : list string) : list string := merge_sort string_le l.

(** [unique.Strings] on a slice: an element is kept when it is greater
    than the last one kept, the first element always. *)
Fixpoint unique_from (kept : string) (l : list string) : list string :=
  match l with
  | [] => []
  | x :: rest => if String.ltb kept x then x :: unique_from x rest else unique_from kept rest
  end.

Definition unique_Strings (l : list string) : list string :=
  match l with
  | [] => []
  | x :: rest => x :: unique_from x rest
  end.

(** [fmt]'s ["%v"] on a slice of strings. *)
Definition fmt_v_strings (l : list string) : string := "[" ++ String.concat " " l ++ "]".

Section Discovery.

(** [filepath.Glob] on the file system of the run: the matches and the
    error. *)
Variable filepath_Glob : string -> list string * option error.

(** The loop of [GetIfaces] over [e.pathGlob], on the variable [ret] and
    on what has been printed so far. *)
Fixpoint GetIfaces_loop (debug : bool) (globs : list string) (ret : list string)
    (out : string) : string * res (list string) :=
  match globs with
  | [] => (out, Ok ret)
  | glob :: rest =>
    let matches := fst (filepath_Glob glob) in
    let out := if debug
               then out ++ "GetIfaces() " ++ glob ++ " -> " ++ fmt_v_strings matches ++ LF
               else out in
    match snd (filepath_Glob glob) with
    | Some err => (out, Err err)
    | None => GetIfaces_loop debug rest (ret ++ map last_component matches) out
    end
  end.

(** [GetIfaces]: what it prints and what it returns. *)
Definition GetIfaces (e : Exporter) : string * res (list string) :=
  let run := GetIfaces_loop (debug e) (pathGlob e) [] "" in
  (fst run, let? ret := snd run in Ok (unique_Strings (sort_Strings ret))).

End Discovery.

(** ** ethtool-exporter.go: the partitions of [DiscoverAndCollect] *)

Definition nil_key : string := String (ascii_of_nat 1) "!nil!".

Definition group_sep : string := String (ascii_of_nat 2) EmptyString.

Section Partition.

(** [e.parallel.FindStringSubmatch]: [None] is the nil slice of an
    interface name the expression does not match. *)
Variable FindStringSubmatch : string -> option (list string).

(** The key under which an interface is filed. *)
Definition partition_key (iface : string) : res string :=
  match FindStringSubmatch iface with
  | None => Ok nil_key
  | Some [] => Panic "slice bounds out of range"
  | Some (_ :: groups) => Ok (String.concat group_sep groups)
  end.

(** [iface] is filed under [key]. *)
Definition has_key (key iface : string) : bool :=
  match partition_key iface with
  | Ok k => String.eqb k key
  | _ => false
  end.

(** The body of the loop that fills the map [parallel]. *)
Definition partition_step (parallel : gmap string (list string)) (iface : string)
    : res (gmap string (list string)) :=
  let? key := partition_key iface in
  let values := match parallel !! key with
                | Some values => (values ++ [iface])%list
                | None => [iface]
                end in
  Ok (<[key := values]> parallel).

Fixpoint partition_loop (ifaces : list string) (parallel : gmap string (list string))
    : res (gmap string (list string)) :=
  match ifaces with
  | [] => Ok parallel
  | iface :: rest =>
    let? parallel' := partition_step parallel iface in
    partition_loop rest parallel'
  end.

(** The map [parallel] of [DiscoverAndCollect] after its first loop. *)
Definition partitions (ifaces : list string) : res (gmap string (list string)) :=
  partition_loop ifaces ∅.

(** The test [len(parallel) < 2] that selects the serial collection of
    all interfaces. *)
Definition collects_serially (parallel : gmap string (list string)) : bool :=
  Z.of_nat (size parallel) <? 2.

End Partition.

(** ** ethtool-exporter.go: the metric emitter *)

(** A descriptor: its fully qualified name and the names of its labels. *)
Record Desc := { fqName : string; variableLabels : list string }.

Definition transcieverLabels : list string := ["iface"].

Definition transciever_present : Desc :=
  {| fqName := "ethtool_transciever_present"; variableLabels := transcieverFullLabels |}.
Definition transciever_temp : Desc :=
  {| fqName := "ethtool_transciever_temp"; variableLabels := transcieverLabels |}.
Definition transciever_volt : Desc :=
  {| fqName := "ethtool_transciever_volt"; variableLabels := transcieverLabels |}.
Definition transciever_bias : Desc :=
  {| fqName := "ethtool_transciever_bias"; variableLabels := transcieverLabels |}.
Definition transciever_txw : Desc :=
  {| fqName := "ethtool_transciever_txw"; variableLabels := transcieverLabels |}.
Definition transciever_rxw : Desc :=
  {| fqName := "ethtool_transciever_rxw"; variableLabels := transcieverLabels |}.

(** A constant gauge sample. *)
Record Metric := { m_desc : Desc; m_value : float; m_labels : list string }.

Definition MetricChan : Type := list Metric.

Section Metrics.
Context {P : Platform}.

(** The check the metrics library applies to one label value. *)
Variable label_value_ok : string -> bool.

(** [prometheus.MustNewConstMetric(desc, prometheus.GaugeValue, value,
    labels...)]: it panics unless there is one value per label of the
    descriptor and every value passes the library's check. *)
Definition MustNewConstMetric (desc : Desc) (value : float) (labels : list string)
    : res Metric :=
  if (length labels =? length (variableLabels desc))%nat && forallb label_value_ok labels
  then Ok {| m_desc := desc; m_value := value; m_labels := labels |}
  else Panic "inconsistent label cardinality or invalid label value".

Definition MetricChan_Emit (ch : MetricChan) (r : CollectionRecord) : res MetricChan :=
  let labels := map (tag_value (P := P) r) transcieverFullLabels in
  let iface := rec_iface r in
  match rec_err r with
  | None =>
    let? present := MustNewConstMetric transciever_present 1 labels in
    let? metrics := or_panic (rec_metrics r) "nil pointer dereference" in
    let? temp := MustNewConstMetric transciever_temp (temperature_C metrics) [iface] in
    let? volt := MustNewConstMetric transciever_volt (voltage_V metrics) [iface] in
    let? bias := MustNewConstMetric transciever_bias (milli (bias_mA metrics)) [iface] in
    let? txw := MustNewConstMetric transciever_txw (milli (transmit_mW metrics)) [iface] in
    let? rxw := MustNewConstMetric transciever_rxw (milli (receive_mW metrics)) [iface] in
    Ok (ch ++ [present; temp; volt; bias; txw; rxw])%list
  | Some _ =>
    let? present := MustNewConstMetric transciever_present 0 labels in
    Ok (ch ++ [present])%list
  end.

End Metrics.

(** ** The read plan *)

(** The EEPROM reads logged in a world, as [(offset, length)] pairs. *)
Definition eeprom_reads {P} (w : World P) : list (Z * Z) :=
  omap (fun r => match r with
                 | GMODULEEEPROM _ offset len => Some (offset, len)
                 | GMODULEINFO _ => None
                 end) (ioctls w).

(** The loop of [moduleInfo] with the reads left out: the spans it asks
    for, in order, from the counters [query_len], [query_start] and
    [query_end]. *)
Fixpoint plan_loop (flags : Z) (table : list eepromEntryDef) (qlen qstart qend : Z)
    : list (Z * Z) :=
  match table with
  | [] => []
  | qdef :: rest =>
    let flushed := (0 <? qlen) && (qend <? wrap32 (e_offset qdef - GAP_MERGE)) in
    let out := if flushed then [(qstart, wrap32 (qend - qstart))] else [] in
    let qlen1 := if flushed then 0 else qlen in
    (out ++
     if selects flags qdef then
       plan_loop flags rest (qlen1 + 1)
         (if qlen1 =? 0 then e_offset qdef else qstart)
         (wrap32 (e_offset qdef + e_length qdef))
     else plan_loop flags rest qlen1 qstart qend)%list
  end.

Definition plan (flags : Z) : list (Z * Z) := plan_loop flags txrEepromStatic 0 0 0.

(** The fields a flag set selects, in table order. *)
Definition selected (flags : Z) : list eepromEntryDef :=
  List.filter (selects flags) txrEepromStatic.

(** Coalescing as the specification words it: a field joins the pending
    span [start, stop) when its offset is at most [stop + gap], otherwise
    the span is read and the field starts a new one; the last span is
    read at the end. *)
Fixpoint coalesce (gap start stop : Z) (fields : list eepromEntryDef) : list (Z * Z) :=
  match fields with
  | [] => [(start, stop - start)]
  | d :: rest =>
    if e_offset d <=? stop + gap
    then coalesce gap start (e_offset d + e_length d) rest
    else (start, stop - start) :: coalesce gap (e_offset d) (e_offset d + e_length d) rest
  end.

Definition coalesced_reads (gap : Z) (fields : list eepromEntryDef) : list (Z * Z) :=
  match fields with
  | [] => []
  | d :: rest => coalesce gap (e_offset d) (e_offset d + e_length d) rest
  end.

(** ** A kernel for examples *)

(** The [len] bytes of [rom] from [offset] on. *)
Definition bytes_at (rom : list byte) (offset len : Z) : list byte :=
  take (Z.to_nat len) (drop (Z.to_nat offset) rom).

(** Every interface carries one module of class [t] whose EEPROM has the
    reported length [l] and the contents [rom]; every call succeeds. *)
Definition romPlatform (log10 : float -> float) (t l : Z) (rom : list byte) : Platform := {|
  kstate := unit;
  unix_Socket := fun k => (inr 3, k);
  ioctl_GMODULEINFO := fun k _ _ => (inr (t, l), k);
  ioctl_GMODULEEEPROM := fun k _ _ offset len => (inr (bytes_at rom offset len), k);
  math_Log10 := log10;
  errno_text := fun n => "errno " ++ fmt_d n;
  fmt_f := fun _ _ => "0"
|}.

Definition boot (P : Platform) (k : kstate P) : World P :=
  {| kern := k; ethtool_socket := -1; ioctls := []; moduleCache := ∅ |}.

Definition padded (n : nat) (s : string) : list byte :=
  take n (string_bytes s ++ replicate n x20).

(** The diagnostic page of the comment in [TxrDiag]. *)
Definition sample_diag : list byte :=
  [x27; x09; x80; x79; x0b; x5d; x14; xce; x16; x02].

Definition sample_rom : list byte :=
  (replicate 0x14 x00
   ++ padded 16 "ACME Optics" ++ [x00; x00; x90; x65]
   ++ padded 16 "SFP-10G-SR" ++ padded 4 "A1" ++ [x03; x52]
   ++ replicate 6 x00 ++ padded 16 "ABC123" ++ padded 8 "210131"
   ++ replicate 0x104 x00 ++ sample_diag ++ replicate 150 x00)%list.

Definition sample_module (l : Z) : EthToolModule :=
  {| ifname := []; tpe := ETH_MODULE_SFF_8472; eeprom_len := l |}.

(** Stands for [math.Log10] in examples where its values play no part. *)
Definition stub_Log10 (x : float) : float := x.

(** A world in which the socket is already open, as [ethtool] leaves it. *)
Definition running (P : Platform) (k : kstate P)
    (cache : gmap string (gmap string string)) : World P :=
  {| kern := k; ethtool_socket := 3; ioctls := []; moduleCache := cache |}.

Definition sample_platform : Platform :=
  romPlatform stub_Log10 ETH_MODULE_SFF_8472 512 sample_rom.


(** [x] lies within [tol] of [target]. *)
Definition near (x target tol : float) : bool := (abs (x - target) <? tol)%float.

(** Digits and upper-case letters, and the printable ASCII range. *)
Definition digit_or_upper (r : Z) : bool :=
  ((48 <=? r) && (r <=? 57)) || ((65 <=? r) && (r <=? 90)).

Definition printable (r : Z) : bool := (32 <=? r) && (r <=? 126).

(** A world whose cache already knows the serial of [sample_rom]. *)
Definition primed_cache : gmap string (gmap string string) :=
  {["ABC123" := {["serial" := "ABC123"; "vendor" := "ACME Optics"]} ]}.

(** A module that reports a 256-byte EEPROM: the identity fields can be
    read, the diagnostic page cannot. *)
Definition short_platform : Platform :=
  romPlatform stub_Log10 ETH_MODULE_SFF_8472 0x100 sample_rom.

Definition sample_exporter : Exporter :=
  {| pathGlob := []; debug := false; txrInfoFlags := TXR_MI_ALLOW_CACHE |}.

Definition sample_tags : gmap string string :=
  {["vendor" := "ACME Optics"; "oui" := "00:90:65"; "product" := "SFP-10G-SR";
    "revision" := "A1"; "wavelen" := "850"; "serial" := "ABC123";
    "mfgdate" := "210131"]}.

(** ** Predicates and invariants of the statements *)

Definition not_panic {A} (r : res A) : Prop :=
  match r with
  | Panic _ => False
  | _ => True
  end.

(** [plan_loop] on a table whose entries carry their selection bit. *)
Fixpoint plan_marked (table : list (bool * eepromEntryDef)) (qlen qstart qend : Z)
    : list (Z * Z) :=
  match table with
  | [] => []
  | (sel, qdef) :: rest =>
    let flushed := (0 <? qlen) && (qend <? wrap32 (e_offset qdef - GAP_MERGE)) in
    let out := if flushed then [(qstart, wrap32 (qend - qstart))] else [] in
    let qlen1 := if flushed then 0 else qlen in
    (out ++
     if sel then
       plan_marked rest (qlen1 + 1)
         (if qlen1 =? 0 then e_offset qdef else qstart)
         (wrap32 (e_offset qdef + e_length qdef))
     else plan_marked rest qlen1 qstart qend)%list
  end.

Definition mark (flags : Z) (table : list eepromEntryDef) : list (bool * eepromEntryDef) :=
  map (fun d => (selects flags d, d)) table.

Definition field_offsets : list Z := [0x14; 0x25; 0x28; 0x38; 0x3c; 0x44; 0x54].

Definition field_ok (d : eepromEntryDef) : Prop :=
  0 <= e_length d <= 16 /\
  (e_decoder d = txr_DECODE_STRING \/ e_decoder d = txr_DECODE_INT \/
   (e_decoder d = txr_DECODE_OUI /\ 3 <= e_length d)).

(** A filled slot of [query] names a table entry and lies in the first
    bytes of the buffer. *)
Definition slot_ok (q : bufferInfo) : Prop :=
  (exists d, at_index txrEepromStatic (def q) = Some d) /\ 0 <= buf_pos q <= 64.

(** The pending span before an iteration with [remaining] entries to go. *)
Definition pending_ok (remaining : nat) (st : queryState) : Prop :=
  0 <= query_len st /\
  (Z.to_nat (query_len st) + remaining <= length (query st))%nat /\
  (forall j q, 0 <= j < query_len st -> at_index (query st) j = Some q -> slot_ok q) /\
  (0 < query_len st ->
   In (query_start st) field_offsets /\ query_start st <= query_end st <= 0x5c).

Definition offset_le (a b : eepromEntryDef) : Prop := e_offset a <= e_offset b.

(** The state after a flush that decoded the pending slots into [ret']. *)
Definition flushed (st : queryState) (ret' : gmap string string) : queryState :=
  {| q_ret := ret'; query := query st; query_start := query_start st;
     query_end := query_end st; query_len := 0 |}.

(** Every EEPROM ioctl on the interface [name] succeeds. *)
Definition reads_succeed (P : Platform) (name : list byte) : Prop :=
  forall k fd offset len,
    exists written k', ioctl_GMODULEEEPROM P k fd name offset len = (inr written, k').

(** The EEPROM ioctls on [name] deliver the bytes of [rom], whatever the
    state of the kernel. *)
Definition fixed_eeprom (P : Platform) (name : list byte) (rom : list byte) : Prop :=
  forall k fd offset len,
    exists k', ioctl_GMODULEEEPROM P k fd name offset len = (inr (bytes_at rom offset len), k').

(** The clamped length of a read. *)
Definition clamped (e : EthToolModule) (offset len : Z) : Z :=
  if wrap32 (eeprom_len e - offset) <? len then wrap32 (eeprom_len e - offset) else len.

(** No interface reports an EEPROM that ends exactly where a field or the
    diagnostic page starts. *)
Definition lengths_clear (P : Platform) : Prop :=
  forall k fd name t l k',
    ioctl_GMODULEINFO P k fd name = (inr (t, l), k') ->
    ~ In (wrap32 l) (0x160 :: field_offsets).

(** Consecutive table entries do not overlap. *)
Definition ends_before (a b : eepromEntryDef) : Prop :=
  e_offset a + e_length a <= e_offset b.

(** The text of a field decoded from exactly its own bytes of [rom]. *)
Definition field_text (rom : list byte) (d : eepromEntryDef) : string :=
  match decodeStatic (Slice (bytes_at rom (e_offset d) (e_length d)) (e_length d))
          (e_decoder d) with
  | Ok text => text
  | _ => ""
  end.

(** The Tag Set obtained by decoding each of [fields] on its own. *)
Definition direct_tags (rom : list byte) (fields : list eepromEntryDef)
    (ret : gmap string string) : gmap string string :=
  fold_left (fun m d => <[e_name d := field_text rom d]> m) fields ret.

(** The pending span holds the fields [pend], in order, and [done] have
    been decoded, with [remaining] table entries to go. *)
Definition holds (flags : Z) (rom : list byte) (remaining : nat)
    (st : queryState) (done pend : list eepromEntryDef) : Prop :=
  query_len st = Z.of_nat (length pend)
  /\ (length pend + remaining <= length (query st))%nat
  /\ (forall j d, pend !! j = Some d ->
        exists idx : nat,
          query st !! j = Some {| def := Z.of_nat idx; buf_pos := e_offset d - query_start st |}
          /\ txrEepromStatic !! idx = Some d
          /\ query_start st <= e_offset d
          /\ e_offset d + e_length d <= query_end st)
  /\ (pend <> [] ->
      In (query_start st) field_offsets /\ query_start st <= query_end st <= 0x5c)
  /\ q_ret st = direct_tags rom done ∅.

(** The last table entry is never selected and lies far beyond the fields. *)
Definition closing (flags : Z) (d : eepromEntryDef) : Prop :=
  selects flags d = false /\ 0x5c < wrap32 (e_offset d - GAP_MERGE).

(** ** Predicates and examples of the further properties *)

(** A byte [fromLatin1] does not count as the end of the text. *)
Definition blank (b : byte) : bool := (byte_val b =? 0) || (byte_val b =? 0x20).

(** [l] without its trailing run of NULs and spaces. *)
Fixpoint trim_right (l : list byte) : list byte :=
  match l with
  | [] => []
  | b :: rest =>
    match trim_right rest with
    | [] => if blank b then [] else [b]
    | kept => b :: kept
    end
  end.

(** The flag bits one name of the list given to [GetTxrInfoFlags] adds:
    [None] for a name that is refused. *)
Definition info_flag (info : string) : option Z :=
  if String.eqb info "ALL" then Some TXR_MI_ALL
  else if String.eqb info "CACHE" then Some TXR_MI_ALLOW_CACHE
  else
    match List.filter (fun d => String.eqb info (e_name d)) txrEepromStatic with
    | [] => None
    | found => Some (fold_left (fun acc d => Z.lor acc (e_flag d)) found 0)
    end.

(** What the three replacements of [InfluxChan.Emit] make of one
    character, in one pass. *)
Definition escape_char (a : ascii) : string :=
  if (code a =? 34) || (code a =? 39) || (code a =? 96) then "~"
  else if (code a <=? 32) || (code a =? 127) then backslash ++ " "
  else if (code a =? 44) || (code a =? 61) then backslash ++ String a EmptyString
  else String a EmptyString.

Fixpoint escape_value (value : string) : string :=
  match value with
  | EmptyString => EmptyString
  | String a rest => escape_char a ++ escape_value rest
  end.

(** The names [GetTxrInfoFlags] accepts, each with the bits it adds. *)
Definition info_names : list (string * Z) :=
  [("ALL", 0x3FFF); ("CACHE", 0x7FFF); ("vendor", 0x01); ("oui", 0x02);
   ("product", 0x04); ("revision", 0x08); ("wavelen", 0x10); ("serial", 0x20);
   ("mfgdate", 0x10); ("--last--", 0)].

(** The union of the bits of the names of a list. *)
Definition union_flags (str : list string) : Z :=
  fold_right (fun info acc => Z.lor (default 0 (info_flag info)) acc) 0 str.

(** A character that cannot end or split a line-protocol entry: no
    control character, no quote. *)
Definition tag_safe (a : ascii) : bool :=
  (32 <=? code a) && negb (code a =? 127)
  && negb ((code a =? 34) || (code a =? 39) || (code a =? 96)).

(** The contents of [sample_rom] with another serial number. *)
Definition rom_with_serial (sn : string) : list byte :=
  (take 0x44 sample_rom ++ padded 16 sn ++ drop 0x54 sample_rom)%list.

(** A module whose serial is written in lower case. *)
Definition lower_case_platform : Platform :=
  romPlatform stub_Log10 ETH_MODULE_SFF_8472 512 (rom_with_serial "abcdef").

(** The scaled value of a 16-bit word lies within the span of its unit. *)
Definition diag_in_range (v : Z) : bool :=
  ((0 <=? float64 v * txr_MULT_C) && (float64 v * txr_MULT_C <? 256)
   && (0 <=? float64 v * txr_MULT_V) && (float64 v * txr_MULT_V <? 65536 / 10000)
   && (0 <=? float64 v * txr_MULT_mA) && (float64 v * txr_MULT_mA <? 65536 / 500))%float.

(** The part of a path after its last slash, or the whole path when it
    has none. *)
Fixpoint after_last_slash (s : string) : option string :=
  match s with
  | EmptyString => None
  | String a rest =>
    match after_last_slash rest with
    | Some t => Some t
    | None => if code a =? 47 then Some rest else None
    end
  end.

Definition no_slash (s : string) : Prop :=
  Forall (fun a => code a <> 47) (list_ascii_of_string s).

(** A file system with two device directories of one driver. *)
Definition sample_Glob (glob : string) : list string * option error :=
  if String.eqb glob "/sys/bus/pci/drivers/ixgbe/*:*/net/*"
  then (["/sys/bus/pci/drivers/ixgbe/0000:81:00.1/net/enp129s0f1";
         "/sys/bus/pci/drivers/ixgbe/0000:81:00.0/net/enp129s0f0"], None)
  else if String.eqb glob "/sys/class/net/enp129s0f*"
  then (["/sys/class/net/enp129s0f0"; "/sys/class/net/enp129s0f1"], None)
  else if String.eqb glob "["
  then ([], Some (errorString "syntax error in pattern"))
  else ([], None).

(** The default expression of the flag [parallel], one group that spans
    the whole name, on names without line breaks. *)
Definition whole_name (iface : string) : option (list string) := Some [iface; iface].

(** The expression of the flag's help text whose group ends in a
    character that is not a digit: the name up to its last such
    character. *)
Fixpoint strip_digits (s : string) : option string :=
  match s with
  | EmptyString => None
  | String a rest =>
    match strip_digits rest with
    | Some kept => Some (String a kept)
    | None => if (48 <=? code a) && (code a <=? 57) then None
              else Some (String a EmptyString)
    end
  end.

Definition port_group (iface : string) : option (list string) :=
  match strip_digits iface with
  | Some kept => Some [kept; kept]
  | None => None
  end.

(** The number of line feeds in a text. *)
Definition count_LF (s : string) : nat :=
  length (List.filter (fun a => code a =? 10) (list_ascii_of_string s)).

(** What [Influxdb] writes for one line received from the collector. *)
Definition influx_entry (nowi : Z) (line : string) : string :=
  line ++ " " ++ fmt_d nowi ++ LF.

(** The names of the fields of the Tag Set that the emitters read. *)
Definition emitted_tags : list string := drop 2 transcieverFullLabels.

(** ** Tactics *)

(** Evaluation of the closed parts of one loop iteration. *)
Ltac eval_enqueue :=
  match goal with
  | |- context [enqueue ?f ?i ?d ?st] =>
    let r := eval vm_compute in (enqueue f i d st) in
    change (enqueue f i d st) with r
  end.

Ltac eval_flush_test :=
  match goal with
  | |- context [(0 <? query_len ?st) && (query_end ?st <? wrap32 (e_offset ?d - GAP_MERGE))] =>
    let r := eval vm_compute in
      ((0 <? query_len st) && (query_end st <? wrap32 (e_offset d - GAP_MERGE))) in
    change ((0 <? query_len st) && (query_end st <? wrap32 (e_offset d - GAP_MERGE))) with r
  end.

(** * Properties *)

(** ** The EEPROM read *)

Lemma wrap32_small z : is_uint32 z -> wrap32 z = z.
Proof. unfold is_uint32, wrap32. intros H. apply Z.mod_small. lia. Qed.

Lemma wrap32_range z : is_uint32 (wrap32 z).
Proof. unfold is_uint32, wrap32. apply Z.mod_pos_bound. lia. Qed.

Lemma length_eeprom_data written : length (eeprom_data written) = 512%nat.
Proof.
  unfold eeprom_data. rewrite length_take, length_app, length_replicate.
  change (Z.to_nat ETH_MODULE_SFF_8472_LEN) with 512%nat. lia.
Qed.


Section ReadFacts.
Context {P : Platform}.
Implicit Types (e : EthToolModule) (w : World P).

Lemma ethtool_open {A} req (sys : kstate P -> Z -> (Z + A) * kstate P) w :
  0 <= ethtool_socket w ->
  ethtool req sys w =
    match sys (kern w) (ethtool_socket w) with
    | (inl errno, k) => (Err (Errno errno), log_ioctl req (set_kern k w))
    | (inr reply, k) => (Ok reply, log_ioctl req (set_kern k w))
    end.
Proof.
  intros Hs. unfold ethtool.
  destruct (ethtool_socket w <? 0) eqn:E; [apply Z.ltb_lt in E; lia | reflexivity].
Qed.

(** Below the EEPROM length and with the socket open, [Read] is one
    ioctl for the clamped length. *)
Lemma Read_issue e offset len w :
  is_uint32 (eeprom_len e) -> 0 <= offset < eeprom_len e -> 0 <= ethtool_socket w ->
  Read e offset len w =
    let n := Z.min len (eeprom_len e - offset) in
    let req := GMODULEEEPROM (ifname e) offset n in
    match ioctl_GMODULEEEPROM P (kern w) (ethtool_socket w) (ifname e) offset n with
    | (inl errno, k) => (Err (Errno errno), log_ioctl req (set_kern k w))
    | (inr written, k) => (array_prefix (eeprom_data written) n, log_ioctl req (set_kern k w))
    end.
Proof.
  intros HL Ho Hs. unfold Read.
  destruct (eeprom_len e <? 1) eqn:E1; [apply Z.ltb_lt in E1; lia |].
  destruct (eeprom_len e <? offset) eqn:E2; [apply Z.ltb_lt in E2; lia |].
  destruct (offset =? eeprom_len e) eqn:E3; [apply Z.eqb_eq in E3; lia |].
  rewrite (wrap32_small (eeprom_len e - offset)) by (unfold is_uint32 in *; lia).
  assert (Hn : (if eeprom_len e - offset <? len then eeprom_len e - offset else len)
               = Z.min len (eeprom_len e - offset)).
  { destruct (eeprom_len e - offset <? len) eqn:E4;
      [apply Z.ltb_lt in E4 | apply Z.ltb_ge in E4]; lia. }
  rewrite Hn. cbv zeta. unfold bind. rewrite ethtool_open by assumption.
  destruct (ioctl_GMODULEEEPROM P (kern w) (ethtool_socket w) (ifname e) offset
              (Z.min len (eeprom_len e - offset))) as [[errno | written] k]; reflexivity.
Qed.

Lemma array_prefix_ok written n :
  0 <= n <= 512 -> array_prefix (eeprom_data written) n = Ok (Slice (eeprom_data written) n).
Proof.
  intros Hn. unfold array_prefix. rewrite length_eeprom_data.
  destruct (0 <=? n) eqn:E1; [| apply Z.leb_gt in E1; lia].
  destruct (n <=? Z.of_nat 512) eqn:E2; [reflexivity | apply Z.leb_gt in E2; lia].
Qed.

End ReadFacts.




(** ** Absence of panics in the reads and in the diagnostic decoder *)

Section Safety.
Context {P : Platform}.
Implicit Types (e : EthToolModule) (w : World P).

Lemma ethtool_result {A} req (sys : kstate P -> Z -> (Z + A) * kstate P) w r w' :
  ethtool req sys w = (r, w') ->
  not_panic r /\ moduleCache w' = moduleCache w.
Proof.
  unfold ethtool. intros H.
  destruct (ethtool_socket w <? 0).
  - destruct (unix_Socket P (kern w)) as [[errno | fd] k].
    + inversion H; subst. split; [exact I | reflexivity].
    + destruct (sys _ _) as [[errno | reply] k'] in H; inversion H; subst;
        (split; [exact I | reflexivity]).
  - destruct (sys _ _) as [[errno | reply] k'] in H; inversion H; subst;
      (split; [exact I | reflexivity]).
Qed.

(** A read of at most 512 bytes that does not start at the very end of
    the EEPROM fails or returns a slice of the 512-byte request buffer. *)
Lemma Read_result e offset len w r w' :
  Read e offset len w = (r, w') ->
  0 <= len <= 512 -> offset <> eeprom_len e ->
  match r with
  | Ok s => cap s = 512 /\ 0 <= sl_len s <= 512
  | Err _ => True
  | Panic _ => False
  end /\ moduleCache w' = moduleCache w.
Proof.
  unfold Read. intros H Hlen Hne.
  destruct (eeprom_len e <? 1); [inversion H; subst; split; [exact I | reflexivity] |].
  destruct (eeprom_len e <? offset); [inversion H; subst; split; [exact I | reflexivity] |].
  destruct (offset =? eeprom_len e) eqn:E; [apply Z.eqb_eq in E; contradiction |].
  set (n := if wrap32 (eeprom_len e - offset) <? len
            then wrap32 (eeprom_len e - offset) else len) in H.
  assert (Hn : 0 <= n <= 512).
  { subst n. pose proof (wrap32_range (eeprom_len e - offset)) as Hr.
    unfold is_uint32 in Hr.
    destruct (wrap32 (eeprom_len e - offset) <? len) eqn:E1;
      [apply Z.ltb_lt in E1 |]; lia. }
  unfold bind in H.
  destruct (ethtool _ _ w) as [[written | err | msg] w1] eqn:Eth;
    apply ethtool_result in Eth as [Hnp Hc].
  - unfold lift in H. rewrite array_prefix_ok in H by assumption.
    inversion H; subst. split; [| assumption].
    unfold cap. simpl. rewrite length_eeprom_data. lia.
  - inversion H; subst. split; [exact I | assumption].
  - destruct Hnp.
Qed.

Lemma diag_word_ok (data : slice) (i : Z) :
  cap data = 512 -> 0 <= i <= 4 -> exists f, diag_word data i = Ok f.
Proof.
  intros Hcap Hi. unfold diag_word, reslice. rewrite Hcap.
  destruct (0 <=? i * 2) eqn:E1; [| apply Z.leb_gt in E1; lia].
  destruct (i * 2 <=? i * 2 + 2) eqn:E2; [| apply Z.leb_gt in E2; lia].
  destruct (i * 2 + 2 <=? 512) eqn:E3; [| apply Z.leb_gt in E3; lia].
  simpl. replace (i * 2 + 2 - i * 2) with 2 by lia.
  unfold Uint16, index. simpl.
  assert (Hlen : (2 <= length (drop (Z.to_nat (i * 2)) (sl_arr data)))%nat).
  { rewrite length_drop. unfold cap in Hcap. lia. }
  destruct (lookup_lt_is_Some_2 (drop (Z.to_nat (i * 2)) (sl_arr data)) 1) as [b1 Hb1];
    [lia |].
  destruct (lookup_lt_is_Some_2 (drop (Z.to_nat (i * 2)) (sl_arr data)) 0) as [b0 Hb0];
    [lia |].
  change (Z.to_nat 1) with 1%nat. change (Z.to_nat 0) with 0%nat.
  rewrite Hb1, Hb0. simpl. eauto.
Qed.

(** [TxrDiag] does not panic unless the EEPROM ends exactly where the
    diagnostic page starts, and it leaves the cache alone. *)
Lemma TxrDiag_result e w r w' :
  TxrDiag e w = (r, w') -> eeprom_len e <> 0x160 ->
  not_panic r /\ moduleCache w' = moduleCache w.
Proof.
  unfold TxrDiag. intros H Hne.
  destruct (negb (tpe e =? ETH_MODULE_SFF_8472));
    [inversion H; subst; split; [exact I | reflexivity] |].
  unfold bind at 1 in H.
  assert (Hne' : 352 <> eeprom_len e) by congruence.
  destruct (Read e 352 10 w) as [[data | err | msg] w1] eqn:ER;
    apply Read_result in ER as [Hr Hc]; [| lia | exact Hne' | | lia | exact Hne' | | lia | exact Hne'].
  - destruct Hr as [Hcap _].
    destruct (diag_word_ok data 0 Hcap) as [f0 H0]; [lia |].
    destruct (diag_word_ok data 1 Hcap) as [f1 H1]; [lia |].
    destruct (diag_word_ok data 2 Hcap) as [f2 H2]; [lia |].
    destruct (diag_word_ok data 3 Hcap) as [f3 H3]; [lia |].
    destruct (diag_word_ok data 4 Hcap) as [f4 H4]; [lia |].
    unfold bind, lift, ret in H. rewrite H0, H1, H2, H3, H4 in H.
    inversion H; subst. split; [exact I | assumption].
  - inversion H; subst. split; [exact I | assumption].
  - destruct Hr.
Qed.

End Safety.

(** C10, at the failing input: on a class-0x2 module whose reported EEPROM
    length is 0x160 the read at offset 0x160 returns the nil slice, and
    slicing it panics; neither an error nor a record comes back. *)
Theorem TxrDiag_empty_page_panics (P : Platform) (name : list byte) (w : World P) :
  TxrDiag {| ifname := name; tpe := ETH_MODULE_SFF_8472; eeprom_len := 0x160 |} w
  = (Panic "slice bounds out of range", w).
Proof. reflexivity. Qed.

(** ** The diagnostic decoder on the page of the source comment *)

Lemma sample_diag_words :
  let data := Slice (eeprom_data sample_diag) 10 in
  diag_word data 0 = Ok (float64 0x2709) /\
  diag_word data 1 = Ok (float64 0x8079) /\
  diag_word data 2 = Ok (float64 0x0b5d) /\
  diag_word data 3 = Ok (float64 0x14ce) /\
  diag_word data 4 = Ok (float64 0x1602).
Proof. vm_compute. repeat split; reflexivity. Qed.

(** C5 (as amended): when the 10-byte read at 0x160 delivers
    27 09 80 79 0b 5d 14 ce 16 02, the record holds temperature
    0x2709/256 = 39.03515625 degrees C, voltage 3.2889 V and bias
    5.818 mA up to rounding, transmit and receive power 0x14ce and 0x1602
    times 1/10000 mW (0.5326 and 0.5634 mW up to rounding), and both dBm
    fields are [math.Log10] of the power in mW times 10. *)
Theorem TxrDiag_sample (P : Platform) (e : EthToolModule) (w : World P) (k' : kstate P) :
  tpe e = ETH_MODULE_SFF_8472 ->
  0x16A <= eeprom_len e < 2 ^ 32 ->
  0 <= ethtool_socket w ->
  ioctl_GMODULEEEPROM P (kern w) (ethtool_socket w) (ifname e) 0x160 10
    = (inr sample_diag, k') ->
  exists d,
    TxrDiag e w = (Ok d, log_ioctl (GMODULEEEPROM (ifname e) 0x160 10) (set_kern k' w))
    /\ temperature_C d = 39.03515625%float
    /\ near (voltage_V d) (32889 / 10000) (1 / 1000000000) = true
    /\ near (bias_mA d) (5818 / 1000) (1 / 1000000000) = true
    /\ transmit_mW d = (float64 0x14ce * txr_MULT_mW)%float
    /\ receive_mW d = (float64 0x1602 * txr_MULT_mW)%float
    /\ near (transmit_mW d) (5326 / 10000) (1 / 1000000000) = true
    /\ near (receive_mW d) (5634 / 10000) (1 / 1000000000) = true
    /\ transmit_dBm d = (math_Log10 P (transmit_mW d) * 10)%float
    /\ receive_dBm d = (math_Log10 P (receive_mW d) * 10)%float.
Proof.
  intros Ht HL Hs Hk. unfold TxrDiag. rewrite Ht.
  change (negb (ETH_MODULE_SFF_8472 =? ETH_MODULE_SFF_8472)) with false. cbv iota.
  unfold bind at 1. rewrite Read_issue by (unfold is_uint32; lia). cbv zeta.
  rewrite Z.min_l by lia. rewrite Hk. rewrite array_prefix_ok by lia.
  destruct sample_diag_words as (H0 & H1 & H2 & H3 & H4).
  unfold bind, lift, ret. rewrite H0, H1, H2, H3, H4.
  eexists. split; [reflexivity |]. simpl.
  repeat split; vm_compute; reflexivity.
Qed.

Lemma TxrDiag_sample_witness :
  (tpe (sample_module 512) = ETH_MODULE_SFF_8472 /\ 0x16A <= 512 < 2 ^ 32 /\ 0 <= 3) /\
  exists d w',
    TxrDiag (P := sample_platform) (sample_module 512) (running sample_platform tt ∅)
      = (Ok d, w')
    /\ temperature_C d = 39.03515625%float.
Proof.
  split; [repeat split; lia |].
  destruct (TxrDiag_sample sample_platform (sample_module 512)
              (running sample_platform tt ∅) tt) as (d & Hd & Ht & _).
  - reflexivity.
  - simpl. lia.
  - simpl. lia.
  - reflexivity.
  - exists d. eexists. split; [exact Hd | exact Ht].
Defined.

(** C5, counterexample: on that page the decoded temperature is more than
    0.3 degrees C away from 38.66 and the bias more than 0.03 mA away
    from 5.85. *)
Lemma TxrDiag_sample_not_38_66 :
  exists d w',
    TxrDiag (P := sample_platform) (sample_module 512) (running sample_platform tt ∅)
      = (Ok d, w')
    /\ near (temperature_C d) (3866 / 100) (3 / 10) = false
    /\ near (bias_mA d) (585 / 100) (3 / 100) = false.
Proof. eexists. eexists. split; [vm_compute; reflexivity |]. split; vm_compute; reflexivity. Qed.

(** ** The serial validator *)

Lemma validSerial_fold (rs : list Z) (c : Z * Z) :
  fold_left validSerial_step rs c =
    (fst c + Z.of_nat (length (List.filter (fun r => negb (printable r)) rs)),
     snd c + Z.of_nat (length (List.filter digit_or_upper rs))).
Proof.
  revert c. induction rs as [| r rs IH]; intros [o a]; simpl.
  - f_equal; lia.
  - rewrite IH. unfold validSerial_step, printable, digit_or_upper. simpl.
    destruct (r <? 32) eqn:E1; destruct (126 <? r) eqn:E2;
      destruct (48 <=? r) eqn:E3; destruct (r <=? 57) eqn:E4;
      destruct (65 <=? r) eqn:E5; destruct (r <=? 90) eqn:E6;
      destruct (r <=? 97) eqn:E7; destruct (122 <=? r) eqn:E8;
      destruct (32 <=? r) eqn:E9; destruct (r <=? 126) eqn:E10;
      simpl; try (f_equal; lia); lia.
Qed.

(** What the validator computes: a serial passes exactly when more than
    three of its characters are digits or upper-case letters and none
    lies outside 0x20-0x7E.  Lower-case letters are never counted. *)
Lemma validSerial_spec (sn : string) :
  validSerial sn = true <->
  (3 < length (List.filter digit_or_upper (runes sn)))%nat
  /\ forallb printable (runes sn) = true.
Proof.
  unfold validSerial. rewrite validSerial_fold. simpl.
  assert (Hall : forall rs, forallb printable rs = true <->
                   length (List.filter (fun r => negb (printable r)) rs) = 0%nat).
  { induction rs as [| r rs IH]; simpl; [tauto |].
    destruct (printable r); simpl; [exact IH | split; discriminate]. }
  rewrite Hall, andb_true_iff, Z.ltb_lt, Z.eqb_eq. lia.
Qed.

(** C1, at the failing input: a serial of six lower-case letters has no
    control or high-bit byte and more than three alphanumeric characters,
    and the validator rejects it. *)
Theorem validSerial_rejects_lower_case : validSerial "abcdef" = false.
Proof. reflexivity. Qed.

Example validSerial_ABC123 : validSerial "ABC123" = true.
Proof. reflexivity. Qed.

Example validSerial_three : validSerial "AB1" = false.
Proof. reflexivity. Qed.

(** ** The read plan is the coalescing of the selected fields *)

Lemma plan_loop_marked flags table qlen qstart qend :
  plan_loop flags table qlen qstart qend = plan_marked (mark flags table) qlen qstart qend.
Proof.
  revert qlen qstart qend. induction table as [| d rest IH]; intros; simpl; [reflexivity |].
  rewrite !IH. reflexivity.
Qed.

Lemma filter_marked flags table :
  List.filter (selects flags) table = map snd (List.filter fst (mark flags table)).
Proof.
  induction table as [| d rest IH]; simpl; [reflexivity |].
  destruct (selects flags d); simpl; rewrite IH; reflexivity.
Qed.

Lemma plan_coalesced (flags : Z) :
  plan flags = coalesced_reads GAP_MERGE (selected flags).
Proof.
  unfold plan, selected. rewrite plan_loop_marked, filter_marked.
  unfold mark, txrEepromStatic. cbn [map].
  match goal with
  | |- context [(selects flags ?d, ?d) :: nil] => change (selects flags d) with false
  end.
  repeat match goal with
         | |- context [selects flags ?d] => generalize (selects flags d)
         end.
  intros b6 b5 b4 b3 b2 b1 b0.
  destruct b0, b1, b2, b3, b4, b5, b6; vm_compute; reflexivity.
Qed.

(** ** Invariants of the loop of [moduleInfo] *)

Lemma table_fields_ok : Forall field_ok txrEepromStatic.
Proof.
  unfold txrEepromStatic, field_ok.
  repeat (apply Forall_cons; split;
          [split; [simpl; lia |];
           first [left; reflexivity | right; left; reflexivity
                 | right; right; split; [reflexivity | simpl; lia]] |]).
  apply Forall_nil. exact I.
Qed.

Lemma table_sorted : StronglySorted offset_le txrEepromStatic.
Proof.
  unfold txrEepromStatic.
  repeat (constructor;
          [| solve [repeat (constructor; [unfold offset_le, infty; simpl; lia |]); constructor]]).
  constructor.
Qed.

Lemma table_selected flags :
  Forall (fun d => selects flags d = true ->
                   In (e_offset d) field_offsets /\ 0 <= e_length d
                   /\ e_offset d + e_length d <= 0x5c) txrEepromStatic.
Proof.
  unfold txrEepromStatic, field_offsets.
  repeat (apply Forall_cons; split;
          [first [intros _; simpl; split; [tauto | lia]
                 | unfold selects; simpl; discriminate] |]).
  apply Forall_nil. exact I.
Qed.

Lemma at_index_nat {A} (l : list A) (n : nat) : at_index l (Z.of_nat n) = l !! n.
Proof.
  unfold at_index. destruct (0 <=? Z.of_nat n) eqn:E; [| apply Z.leb_gt in E; lia].
  rewrite Nat2Z.id. reflexivity.
Qed.

Lemma at_index_Some {A} (l : list A) (i : Z) (x : A) :
  at_index l i = Some x -> 0 <= i /\ l !! Z.to_nat i = Some x.
Proof.
  unfold at_index. destruct (0 <=? i) eqn:E; [| discriminate].
  apply Z.leb_le in E. auto.
Qed.

Lemma at_index_field_ok i d : at_index txrEepromStatic i = Some d -> field_ok d.
Proof.
  intros H. apply at_index_Some in H as [_ H].
  exact (proj1 (Forall_lookup _ _) table_fields_ok _ _ H).
Qed.

Lemma decodeStatic_ok (arr : list byte) (d : eepromEntryDef) :
  field_ok d -> (16 <= length arr)%nat ->
  exists text, decodeStatic (Slice arr (e_length d)) (e_decoder d) = Ok text.
Proof.
  intros [Hlen Hdec] Harr. unfold decodeStatic.
  destruct Hdec as [-> | [-> | [-> Hl]]]; simpl; eauto.
  unfold index. simpl.
  destruct (0 <? e_length d) eqn:E0; [| apply Z.ltb_ge in E0; lia].
  destruct (1 <? e_length d) eqn:E1; [| apply Z.ltb_ge in E1; lia].
  destruct (2 <? e_length d) eqn:E2; [| apply Z.ltb_ge in E2; lia].
  destruct arr as [| b0 [| b1 [| b2 arr]]]; simpl in Harr; try lia.
  simpl. eauto.
Qed.

Lemma decode_entry_ok (buf : slice) (query : list bufferInfo)
    (ret : gmap string string) (j : Z) (q : bufferInfo) :
  cap buf = 512 -> at_index query j = Some q -> slot_ok q ->
  exists ret', decode_entry buf query ret j = Ok ret'.
Proof.
  intros Hcap Hq [[d Hd] Hpos]. unfold decode_entry. rewrite Hq. simpl. rewrite Hd. simpl.
  pose proof (at_index_field_ok _ _ Hd) as Hok.
  destruct Hok as [Hlen Hdec].
  rewrite wrap32_small by (unfold is_uint32; lia).
  unfold reslice. rewrite Hcap.
  destruct (0 <=? buf_pos q) eqn:E1; [| apply Z.leb_gt in E1; lia].
  destruct (buf_pos q <=? buf_pos q + e_length d) eqn:E2; [| apply Z.leb_gt in E2; lia].
  destruct (buf_pos q + e_length d <=? 512) eqn:E3; [| apply Z.leb_gt in E3; lia].
  simpl. replace (buf_pos q + e_length d - buf_pos q) with (e_length d) by lia.
  destruct (decodeStatic_ok (drop (Z.to_nat (buf_pos q)) (sl_arr buf)) d) as [text Ht].
  - split; assumption.
  - rewrite length_drop. unfold cap in Hcap. lia.
  - rewrite Ht. simpl. eauto.
Qed.

Lemma decode_loop_ok (buf : slice) (query : list bufferInfo) (js : list Z) :
  cap buf = 512 ->
  (forall j, In j js -> exists q, at_index query j = Some q /\ slot_ok q) ->
  forall ret, exists ret', decode_loop buf query js ret = Ok ret'.
Proof.
  intros Hcap. induction js as [| j js IH]; intros Hjs ret; simpl; [eauto |].
  destruct (Hjs j) as (q & Hq & Hok); [left; reflexivity |].
  destruct (decode_entry_ok buf query ret j q Hcap Hq Hok) as [ret1 H1].
  rewrite H1. simpl. apply IH. intros j' Hj'. apply Hjs. right. assumption.
Qed.

(** The pending slots can all be decoded from a buffer of capacity 512. *)
Lemma pending_decodable n st (buf : slice) :
  pending_ok n st -> cap buf = 512 ->
  exists ret', decode_loop buf (query st) (seqZ 0 (query_len st)) (q_ret st) = Ok ret'.
Proof.
  intros (Hlen & Hfit & Hslots & _) Hcap. apply decode_loop_ok; [assumption |].
  intros j Hj. apply list_elem_of_In, elem_of_seqZ in Hj.
  destruct (lookup_lt_is_Some_2 (query st) (Z.to_nat j)) as [q Hq]; [lia |].
  assert (Hat : at_index (query st) j = Some q).
  { unfold at_index. destruct (0 <=? j) eqn:E; [assumption | apply Z.leb_gt in E; lia]. }
  exists q. split; [assumption |]. apply (Hslots j); [lia | assumption].
Qed.

Lemma field_offsets_range x : In x field_offsets -> 0x14 <= x <= 0x54.
Proof. unfold field_offsets. simpl. lia. Qed.

Lemma pending_ok_flushed n st ret' :
  pending_ok n st ->
  pending_ok n {| q_ret := ret'; query := query st; query_start := query_start st;
                  query_end := query_end st; query_len := 0 |}.
Proof.
  intros (H0 & Hfit & _ & _). unfold pending_ok. simpl.
  split; [lia |]. split; [lia |]. split; [intros j q Hj; lia | lia].
Qed.

(** The second half of the loop body keeps the invariant and moves the
    counters as [plan_loop] does. *)
Lemma enqueue_ok (flags : Z) (i : nat) (d : eepromEntryDef) (rest : list eepromEntryDef)
    (st : queryState) :
  txrEepromStatic !! i = Some d ->
  Forall (offset_le d) rest ->
  pending_ok (S (length rest)) st ->
  (0 < query_len st -> Forall (fun d' => query_start st <= e_offset d') (d :: rest)) ->
  exists st1,
    enqueue flags (Z.of_nat i) d st = Ok st1
    /\ pending_ok (length rest) st1
    /\ (0 < query_len st1 -> Forall (fun d' => query_start st1 <= e_offset d') rest)
    /\ q_ret st1 = q_ret st
    /\ query_len st1 = (if selects flags d then query_len st + 1 else query_len st)
    /\ query_start st1 = (if selects flags d
                          then (if query_len st =? 0 then e_offset d else query_start st)
                          else query_start st)
    /\ query_end st1 = (if selects flags d then wrap32 (e_offset d + e_length d)
                        else query_end st).
Proof.
  intros Hd Hsorted (H0 & Hfit & Hslots & Hspan) Hstart. unfold enqueue.
  assert (Htail : 0 < query_len st ->
                  Forall (fun d' => query_start st <= e_offset d') rest).
  { intros Hpos. specialize (Hstart Hpos). apply Forall_cons in Hstart. apply Hstart. }
  destruct (selects flags d) eqn:Hsel.
  - pose proof (proj1 (Forall_lookup _ _) (table_selected flags) _ _ Hd Hsel)
      as (Hoff & Hlen & Hend).
    pose proof (field_offsets_range _ Hoff) as Hrange.
    destruct (0 <=? query_len st) eqn:E1; [| apply Z.leb_gt in E1; lia].
    destruct (query_len st <? Z.of_nat (length (query st))) eqn:E2;
      [apply Z.ltb_lt in E2 | apply Z.ltb_ge in E2; lia].
    simpl.
    set (start := if query_len st =? 0 then e_offset d else query_start st).
    assert (Hs' : In start field_offsets /\ start <= e_offset d).
    { subst start. destruct (query_len st =? 0) eqn:E3; [split; [assumption | lia] |].
      apply Z.eqb_neq in E3. assert (Hpos : 0 < query_len st) by lia.
      split; [apply Hspan; assumption |].
      specialize (Hstart Hpos). apply Forall_cons in Hstart. apply Hstart. }
    destruct Hs' as [Hin Hle]. pose proof (field_offsets_range _ Hin) as Hrange'.
    eexists. split; [reflexivity |]. unfold pending_ok. simpl.
    rewrite (wrap32_small (e_offset d + e_length d)) by (unfold is_uint32; lia).
    split; [| split; [| repeat split; reflexivity]].
    + split; [lia |]. split; [rewrite length_insert; lia |]. split; [| intros _; split; [assumption | lia]].
      intros j q Hj Hq. apply at_index_Some in Hq as [_ Hq].
      destruct (decide (Z.to_nat (query_len st) = Z.to_nat j)) as [Heq | Hne].
      * rewrite <- Heq, list_lookup_insert_eq in Hq by lia. inversion Hq; subst q.
        split; simpl.
        -- exists d. rewrite at_index_nat. assumption.
        -- rewrite wrap32_small by (unfold is_uint32; lia). lia.
      * rewrite list_lookup_insert_ne in Hq by assumption.
        apply (Hslots j); [lia |]. unfold at_index.
        destruct (0 <=? j) eqn:E; [assumption | apply Z.leb_gt in E; lia].
    + intros _. subst start. destruct (query_len st =? 0) eqn:E3.
      * exact Hsorted.
      * apply Z.eqb_neq in E3. apply Htail. lia.
  - eexists. split; [reflexivity |].
    split; [| split; [assumption | repeat split; reflexivity]].
    unfold pending_ok. split; [lia |]. split; [lia |]. split; assumption.
Qed.

Section Registry.
Context {P : Platform}.
Implicit Types (e : EthToolModule) (w : World P) (st : queryState).

Lemma moduleInfo_body_eq e flags i d st w :
  moduleInfo_body e flags i d st w =
  if (0 <? query_len st) && (query_end st <? wrap32 (e_offset d - GAP_MERGE)) then
    match Read e (query_start st) (wrap32 (query_end st - query_start st)) w with
    | (Ok buf, w1) =>
      match decode_loop buf (query st) (seqZ 0 (query_len st)) (q_ret st) with
      | Ok ret' => (enqueue flags i d (flushed st ret'), w1)
      | Err err => (Err err, w1)
      | Panic msg => (Panic msg, w1)
      end
    | (Err err, w1) => (Err err, w1)
    | (Panic msg, w1) => (Panic msg, w1)
    end
  else (enqueue flags i d st, w).
Proof.
  unfold moduleInfo_body, flush, bind, lift, ret.
  destruct ((0 <? query_len st) && (query_end st <? wrap32 (e_offset d - GAP_MERGE)));
    [| destruct (enqueue flags i d st); reflexivity].
  destruct (Read e (query_start st) (wrap32 (query_end st - query_start st)) w)
    as [[buf | err | msg] w1]; try reflexivity.
  destruct (decode_loop buf (query st) (seqZ 0 (query_len st)) (q_ret st));
    reflexivity.
Qed.

Lemma moduleInfo_loop_cons e flags i d rest st w :
  moduleInfo_loop e flags i (d :: rest) st w =
  match moduleInfo_body e flags i d st w with
  | (Ok st1, w1) => moduleInfo_loop e flags (i + 1) rest st1 w1
  | (Err err, w1) => (Err err, w1)
  | (Panic msg, w1) => (Panic msg, w1)
  end.
Proof. reflexivity. Qed.

(** One iteration neither panics nor touches the cache, whatever the
    kernel answers, when the EEPROM does not end where a field starts. *)
Lemma moduleInfo_body_safe e flags (i : nat) d rest st w r w1 :
  ~ In (eeprom_len e) field_offsets ->
  txrEepromStatic !! i = Some d ->
  Forall (offset_le d) rest ->
  pending_ok (S (length rest)) st ->
  (0 < query_len st -> Forall (fun d' => query_start st <= e_offset d') (d :: rest)) ->
  moduleInfo_body e flags (Z.of_nat i) d st w = (r, w1) ->
  moduleCache w1 = moduleCache w /\
  match r with
  | Ok st1 =>
    pending_ok (length rest) st1
    /\ (0 < query_len st1 -> Forall (fun d' => query_start st1 <= e_offset d') rest)
  | Err _ => True
  | Panic _ => False
  end.
Proof.
  intros HL Hd Hsorted Hpend Hstart. rewrite moduleInfo_body_eq.
  destruct ((0 <? query_len st) && (query_end st <? wrap32 (e_offset d - GAP_MERGE)))
    eqn:Hflush.
  - apply andb_true_iff in Hflush as [Hpos _]. apply Z.ltb_lt in Hpos.
    pose proof Hpend as (H0 & Hfit & Hslots & Hspan).
    destruct (Hspan Hpos) as [Hin Hle].
    pose proof (field_offsets_range _ Hin) as Hrange.
    destruct (Read e (query_start st) (wrap32 (query_end st - query_start st)) w)
      as [[buf | err | msg] w2] eqn:ER;
      (apply Read_result in ER as [Hr Hc];
       [| rewrite wrap32_small by (unfold is_uint32; lia); lia
        | intros Heq; apply HL; rewrite <- Heq; assumption]).
    + destruct Hr as [Hcap _].
      destruct (pending_decodable (S (length rest)) st buf Hpend Hcap) as [ret' Hdec].
      rewrite Hdec.
      destruct (enqueue_ok flags i d rest (flushed st ret') Hd Hsorted) as (st1 & He & Hp & Hf & _).
      * apply pending_ok_flushed. assumption.
      * simpl. lia.
      * rewrite He. intros H; inversion H; subst. auto.
    + intros H; inversion H; subst. auto.
    + destruct Hr.
  - destruct (enqueue_ok flags i d rest st Hd Hsorted Hpend Hstart) as (st1 & He & Hp & Hf & _).
    rewrite He. intros H; inversion H; subst. auto.
Qed.

Lemma moduleInfo_loop_safe e flags :
  ~ In (eeprom_len e) field_offsets ->
  forall T (i : nat) st w r w',
    (forall k d, T !! k = Some d -> txrEepromStatic !! (i + k)%nat = Some d) ->
    StronglySorted offset_le T ->
    pending_ok (length T) st ->
    (0 < query_len st -> Forall (fun d' => query_start st <= e_offset d') T) ->
    moduleInfo_loop e flags (Z.of_nat i) T st w = (r, w') ->
    not_panic r /\ moduleCache w' = moduleCache w.
Proof.
  intros HL. induction T as [| d rest IH]; intros i st w r w' Hidx Hsorted Hpend Hstart Hrun.
  - inversion Hrun; subst. split; [exact I | reflexivity].
  - rewrite moduleInfo_loop_cons in Hrun.
    apply StronglySorted_inv in Hsorted as [Hsrest Hhead].
    assert (Hd : txrEepromStatic !! i = Some d).
    { rewrite <- (Nat.add_0_r i). apply Hidx. reflexivity. }
    destruct (moduleInfo_body e flags (Z.of_nat i) d st w) as [[st1 | err | msg] w1] eqn:Hbody;
      apply (moduleInfo_body_safe e flags i d rest st w _ _ HL Hd Hhead Hpend Hstart) in Hbody
        as [Hc Hr].
    + destruct Hr as [Hp Hf].
      replace (Z.of_nat i + 1) with (Z.of_nat (S i)) in Hrun by lia.
      apply IH in Hrun as [Hnp Hc']; try assumption.
      * split; [assumption | congruence].
      * intros k d' Hk. replace (S i + k)%nat with (i + S k)%nat by lia. apply Hidx. assumption.
    + inversion Hrun; subst. split; [exact I | assumption].
    + destruct Hr.
Qed.

Lemma initial_pending_ok :
  pending_ok (length txrEepromStatic)
    {| q_ret := ∅;
       query := replicate (length txrEepromStatic) {| def := 0; buf_pos := 0 |};
       query_start := 0; query_end := 0; query_len := 0 |}.
Proof.
  unfold pending_ok. simpl. split; [lia |]. split; [lia |].
  split; [intros j q Hj; lia | lia].
Qed.

(** [moduleInfo] does not panic on a module whose EEPROM does not end
    where a field starts, and it never touches the cache. *)
Lemma moduleInfo_safe e flags w r w' :
  ~ In (eeprom_len e) field_offsets ->
  moduleInfo e flags w = (r, w') ->
  not_panic r /\ moduleCache w' = moduleCache w.
Proof.
  intros HL. unfold moduleInfo.
  destruct (negb (tpe e =? ETH_MODULE_SFF_8472)).
  { intros H; inversion H; subst. split; [exact I | reflexivity]. }
  unfold bind.
  destruct (moduleInfo_loop e flags 0 txrEepromStatic _ w) as [[st | err | msg] w1] eqn:Hloop;
    apply (moduleInfo_loop_safe e flags HL txrEepromStatic 0) in Hloop as [Hnp Hc];
    try (intros k d Hk; exact Hk); try exact table_sorted; try exact initial_pending_ok;
    try (simpl; lia).
  - intros H; inversion H; subst. split; [exact I | assumption].
  - intros H; inversion H; subst. split; [exact I | assumption].
  - destruct Hnp.
Qed.

Lemma ModuleInfo_safe e flags w r w' :
  ~ In (eeprom_len e) field_offsets ->
  ModuleInfo e flags w = (r, w') -> not_panic r.
Proof.
  intros HL. unfold ModuleInfo, ModuleInfo_probe, bind at 1.
  destruct (flags =? TXR_MI_ALLOW_CACHE).
  - unfold bind at 1.
    destruct (moduleInfo e TXR_MI_SERIAL w) as [[serial | err | msg] w1] eqn:H1;
      apply (moduleInfo_safe e _ _ _ _ HL) in H1 as [Hnp1 _].
    + destruct (bool_decide (is_Some (serial !! "serial")) && validSerial _).
      * destruct (moduleCache w1 !! _).
        { intros H; inversion H; subst. exact I. }
        unfold bind.
        destruct (moduleInfo e _ w1) as [[tags | err | msg] w2] eqn:H2;
          apply (moduleInfo_safe e _ _ _ _ HL) in H2 as [Hnp2 _].
        -- destruct (bool_decide _); intros H; inversion H; subst; exact I.
        -- intros H; inversion H; subst. exact I.
        -- destruct Hnp2.
      * unfold bind.
        destruct (moduleInfo e _ w1) as [[tags | err | msg] w2] eqn:H2;
          apply (moduleInfo_safe e _ _ _ _ HL) in H2 as [Hnp2 _].
        -- destruct (bool_decide _); intros H; inversion H; subst; exact I.
        -- intros H; inversion H; subst. exact I.
        -- destruct Hnp2.
    + intros H; inversion H; subst. exact I.
    + destruct Hnp1.
  - unfold ret at 1. unfold bind.
    destruct (moduleInfo e flags w) as [[tags | err | msg] w2] eqn:H2;
      apply (moduleInfo_safe e _ _ _ _ HL) in H2 as [Hnp2 _].
    + intros H; inversion H; subst. exact I.
    + intros H; inversion H; subst. exact I.
    + destruct Hnp2.
Qed.

End Registry.

(** ** The reads of [moduleInfo] when the device answers *)

Section Planned.
Context {P : Platform}.
Implicit Types (e : EthToolModule) (w : World P) (st : queryState).

Lemma eeprom_reads_log name offset len w (k : kstate P) :
  eeprom_reads (log_ioctl (GMODULEEEPROM name offset len) (set_kern k w))
  = (eeprom_reads w ++ [(offset, len)])%list.
Proof. unfold eeprom_reads. simpl. rewrite omap_app. reflexivity. Qed.

Lemma Read_ok e offset len w :
  reads_succeed P (ifname e) ->
  is_uint32 (eeprom_len e) -> 0 <= offset -> 0 <= len <= 512 ->
  offset < eeprom_len e -> offset + len <= eeprom_len e ->
  0 <= ethtool_socket w ->
  exists written k',
    ioctl_GMODULEEEPROM P (kern w) (ethtool_socket w) (ifname e) offset len
      = (inr written, k')
    /\ Read e offset len w
       = (Ok (Slice (eeprom_data written) len),
          log_ioctl (GMODULEEEPROM (ifname e) offset len) (set_kern k' w)).
Proof.
  intros Hk HL Ho Hlen Hlt Hfit Hs.
  rewrite Read_issue by (try assumption; lia). cbv zeta.
  rewrite Z.min_l by lia.
  destruct (Hk (kern w) (ethtool_socket w) offset len) as (written & k' & Hio).
  rewrite Hio. exists written, k'. split; [reflexivity |].
  rewrite array_prefix_ok by assumption. reflexivity.
Qed.

Lemma moduleInfo_body_ok e flags (i : nat) d rest st w :
  reads_succeed P (ifname e) ->
  0x5c <= eeprom_len e < 2 ^ 32 ->
  txrEepromStatic !! i = Some d ->
  Forall (offset_le d) rest ->
  pending_ok (S (length rest)) st ->
  (0 < query_len st -> Forall (fun d' => query_start st <= e_offset d') (d :: rest)) ->
  0 <= ethtool_socket w ->
  exists st1 w1,
    moduleInfo_body e flags (Z.of_nat i) d st w = (Ok st1, w1)
    /\ pending_ok (length rest) st1
    /\ (0 < query_len st1 -> Forall (fun d' => query_start st1 <= e_offset d') rest)
    /\ ethtool_socket w1 = ethtool_socket w
    /\ moduleCache w1 = moduleCache w
    /\ (eeprom_reads w1
        ++ plan_loop flags rest (query_len st1) (query_start st1) (query_end st1))%list
       = (eeprom_reads w
          ++ plan_loop flags (d :: rest) (query_len st) (query_start st) (query_end st))%list.
Proof.
  intros Hk HL Hd Hsorted Hpend Hstart Hs. rewrite moduleInfo_body_eq.
  cbn [plan_loop].
  destruct ((0 <? query_len st) && (query_end st <? wrap32 (e_offset d - GAP_MERGE)))
    eqn:Hflush.
  - apply andb_true_iff in Hflush as [Hpos _]. apply Z.ltb_lt in Hpos.
    pose proof Hpend as (H0 & Hfit & Hslots & Hspan).
    destruct (Hspan Hpos) as [Hin Hle].
    pose proof (field_offsets_range _ Hin) as Hrange.
    rewrite (wrap32_small (query_end st - query_start st)) by (unfold is_uint32; lia).
    destruct (Read_ok e (query_start st) (query_end st - query_start st) w)
      as (written & k' & _ & HR); try assumption; try lia; [unfold is_uint32; lia |].
    rewrite HR.
    destruct (pending_decodable (S (length rest)) st
                (Slice (eeprom_data written) (query_end st - query_start st)) Hpend)
      as [ret' Hdec].
    { unfold cap. simpl. rewrite length_eeprom_data. reflexivity. }
    rewrite Hdec.
    destruct (enqueue_ok flags i d rest (flushed st ret') Hd Hsorted)
      as (st1 & He & Hp & Hf & _ & Hlen1 & Hstart1 & Hend1).
    { apply pending_ok_flushed. assumption. }
    { simpl. lia. }
    rewrite He. exists st1. eexists. split; [reflexivity |].
    split; [assumption |]. split; [assumption |]. split; [reflexivity |].
    split; [reflexivity |].
    rewrite eeprom_reads_log, Hlen1, Hstart1, Hend1. simpl.
    rewrite <- app_assoc. simpl. destruct (selects flags d); reflexivity.
  - destruct (enqueue_ok flags i d rest st Hd Hsorted Hpend Hstart)
      as (st1 & He & Hp & Hf & _ & Hlen1 & Hstart1 & Hend1).
    rewrite He. exists st1, w. split; [reflexivity |].
    split; [assumption |]. split; [assumption |]. split; [reflexivity |].
    split; [reflexivity |].
    rewrite Hlen1, Hstart1, Hend1. simpl. destruct (selects flags d); reflexivity.
Qed.

Lemma moduleInfo_loop_ok e flags :
  reads_succeed P (ifname e) ->
  0x5c <= eeprom_len e < 2 ^ 32 ->
  forall T (i : nat) st w,
    (forall k d, T !! k = Some d -> txrEepromStatic !! (i + k)%nat = Some d) ->
    StronglySorted offset_le T ->
    pending_ok (length T) st ->
    (0 < query_len st -> Forall (fun d' => query_start st <= e_offset d') T) ->
    0 <= ethtool_socket w ->
    exists st' w',
      moduleInfo_loop e flags (Z.of_nat i) T st w = (Ok st', w')
      /\ ethtool_socket w' = ethtool_socket w
      /\ moduleCache w' = moduleCache w
      /\ eeprom_reads w'
         = (eeprom_reads w
            ++ plan_loop flags T (query_len st) (query_start st) (query_end st))%list.
Proof.
  intros Hk HL. induction T as [| d rest IH]; intros i st w Hidx Hsorted Hpend Hstart Hs.
  - exists st, w. simpl. rewrite app_nil_r. auto.
  - rewrite moduleInfo_loop_cons.
    apply StronglySorted_inv in Hsorted as [Hsrest Hhead].
    assert (Hd : txrEepromStatic !! i = Some d).
    { rewrite <- (Nat.add_0_r i). apply Hidx. reflexivity. }
    destruct (moduleInfo_body_ok e flags i d rest st w Hk HL Hd Hhead Hpend Hstart Hs)
      as (st1 & w1 & Hbody & Hp & Hf & Hs1 & Hc1 & Hreads).
    rewrite Hbody. replace (Z.of_nat i + 1) with (Z.of_nat (S i)) by lia.
    destruct (IH (S i) st1 w1) as (st' & w' & Hrun & Hs' & Hc' & Hreads'); try assumption.
    + intros k d' Hk'. replace (S i + k)%nat with (i + S k)%nat by lia. apply Hidx. assumption.
    + lia.
    + exists st', w'. split; [assumption |]. split; [congruence |]. split; [congruence |].
      rewrite Hreads', Hreads. reflexivity.
Qed.

(** On a supported module that answers its reads, [moduleInfo] succeeds
    and issues exactly the reads of [plan], in order. *)
Lemma moduleInfo_reads e flags w :
  tpe e = ETH_MODULE_SFF_8472 ->
  reads_succeed P (ifname e) ->
  0x5c <= eeprom_len e < 2 ^ 32 ->
  0 <= ethtool_socket w ->
  exists tags w',
    moduleInfo e flags w = (Ok tags, w')
    /\ ethtool_socket w' = ethtool_socket w
    /\ moduleCache w' = moduleCache w
    /\ eeprom_reads w' = (eeprom_reads w ++ plan flags)%list.
Proof.
  intros Ht Hk HL Hs. unfold moduleInfo. rewrite Ht.
  change (negb (ETH_MODULE_SFF_8472 =? ETH_MODULE_SFF_8472)) with false. cbv iota.
  destruct (moduleInfo_loop_ok e flags Hk HL txrEepromStatic 0
              {| q_ret := ∅;
                 query := replicate (length txrEepromStatic) {| def := 0; buf_pos := 0 |};
                 query_start := 0; query_end := 0; query_len := 0 |} w)
    as (st' & w' & Hrun & Hs' & Hc' & Hreads).
  - intros k d Hk'. exact Hk'.
  - exact table_sorted.
  - exact initial_pending_ok.
  - simpl. lia.
  - assumption.
  - exists (q_ret st'), w'. unfold bind, ret. cbv zeta.
    change (Z.of_nat 0) with 0 in Hrun. rewrite Hrun. auto.
Qed.

End Planned.

(** ** The serial read of [ModuleInfo] *)

Section Cache.
Context {P : Platform}.
Implicit Types (e : EthToolModule) (w : World P).

(** With the flag [TXR_MI_SERIAL] alone, [moduleInfo] is the single read
    of the 16 bytes at 0x44 and the decoding of that field. *)
Lemma moduleInfo_serial e w w1 (buf field : slice) :
  tpe e = ETH_MODULE_SFF_8472 ->
  Read e 0x44 16 w = (Ok buf, w1) ->
  reslice buf 0 16 = Some field ->
  moduleInfo e TXR_MI_SERIAL w = (Ok {["serial" := fromLatin1 field]}, w1).
Proof.
  intros Ht HR Hf. unfold moduleInfo. rewrite Ht.
  change (negb (ETH_MODULE_SFF_8472 =? ETH_MODULE_SFF_8472)) with false. cbv iota.
  unfold bind at 1. unfold txrEepromStatic. cbv zeta.
  do 7 (rewrite moduleInfo_loop_cons, moduleInfo_body_eq; eval_flush_test; cbv iota;
        eval_enqueue; cbv iota).
  rewrite moduleInfo_loop_cons, moduleInfo_body_eq; eval_flush_test; cbv iota.
  cbn [query_start query_end query_len query q_ret].
  change (wrap32 (84 - 68)) with 16. rewrite HR.
  change (seqZ 0 1) with [0]. cbn [decode_loop]. unfold decode_entry.
  change (at_index _ 0) with (Some {| def := 5; buf_pos := 0 |}).
  cbn [or_panic res_bind def buf_pos].
  let r := eval vm_compute in (at_index txrEepromStatic 5) in
    change (at_index txrEepromStatic 5) with r.
  cbn [or_panic res_bind e_length e_decoder e_name].
  change (wrap32 (0 + 16)) with 16. rewrite Hf.
  reflexivity.
Qed.

Lemma Read_frame e offset len w r w' :
  Read e offset len w = (r, w') -> moduleCache w' = moduleCache w.
Proof.
  unfold Read. intros H.
  destruct (eeprom_len e <? 1); [inversion H; reflexivity |].
  destruct (eeprom_len e <? offset); [inversion H; reflexivity |].
  destruct (offset =? eeprom_len e); [inversion H; reflexivity |].
  unfold bind in H.
  destruct (ethtool _ _ w) as [[written | err | msg] w1] eqn:Eth;
    apply ethtool_result in Eth as [_ Hc].
  - unfold lift in H. inversion H; subst. assumption.
  - inversion H; subst. assumption.
  - inversion H; subst. assumption.
Qed.

Lemma ethtool_Ok_logged {A} req (sys : kstate P -> Z -> (Z + A) * kstate P) w reply w' :
  ethtool req sys w = (Ok reply, w') -> ioctls w' = (ioctls w ++ [req])%list.
Proof.
  unfold ethtool. intros H.
  destruct (ethtool_socket w <? 0).
  - destruct (unix_Socket P (kern w)) as [[errno | fd] k]; [discriminate |].
    destruct (sys _ _) as [[errno | reply'] k'] in H; inversion H; subst; reflexivity.
  - destruct (sys _ _) as [[errno | reply'] k'] in H; inversion H; subst; reflexivity.
Qed.

(** A successful read that returns a buffer has issued exactly one
    ioctl, for the clamped length. *)
Lemma Read_Ok_logged e offset len w buf w' :
  Read e offset len w = (Ok buf, w') -> cap buf <> 0 ->
  eeprom_reads w' = (eeprom_reads w ++ [(offset, clamped e offset len)])%list.
Proof.
  unfold Read. intros H Hcap.
  destruct (eeprom_len e <? 1); [discriminate |].
  destruct (eeprom_len e <? offset); [discriminate |].
  destruct (offset =? eeprom_len e).
  { inversion H; subst. exfalso. apply Hcap. reflexivity. }
  unfold bind in H. fold (clamped e offset len) in H.
  destruct (ethtool _ _ w) as [[written | err | msg] w1] eqn:Eth; try discriminate.
  apply ethtool_Ok_logged in Eth. unfold lift in H. inversion H; subst.
  unfold eeprom_reads. rewrite Eth, omap_app. reflexivity.
Qed.

End Cache.

(** C4: on a supported module that answers its reads, [moduleInfo] issues,
    for every flag set, exactly the reads obtained by coalescing the
    selected fields in table order with a gap of at most [GAP_MERGE] = 4
    bytes; in particular two selected fields at most 4 bytes apart cost
    one read spanning both, and two selected fields 5 or more bytes apart
    cost two reads, one per field. *)
Theorem moduleInfo_coalesces (P : Platform) (e : EthToolModule) (flags : Z) (w : World P) :
  tpe e = ETH_MODULE_SFF_8472 ->
  reads_succeed P (ifname e) ->
  0x5c <= eeprom_len e < 2 ^ 32 ->
  0 <= ethtool_socket w ->
  exists tags w',
    moduleInfo e flags w = (Ok tags, w')
    /\ eeprom_reads w' = (eeprom_reads w ++ coalesced_reads GAP_MERGE (selected flags))%list
    /\ forall a b, selected flags = [a; b] ->
         (e_offset b - (e_offset a + e_length a) <= GAP_MERGE ->
          eeprom_reads w'
          = (eeprom_reads w ++ [(e_offset a, e_offset b + e_length b - e_offset a)])%list)
         /\ (GAP_MERGE < e_offset b - (e_offset a + e_length a) ->
             eeprom_reads w'
             = (eeprom_reads w ++ [(e_offset a, e_length a); (e_offset b, e_length b)])%list).
Proof.
  intros Ht Hk HL Hs.
  destruct (moduleInfo_reads e flags w Ht Hk HL Hs) as (tags & w' & Hrun & _ & _ & Hreads).
  rewrite plan_coalesced in Hreads.
  exists tags, w'. split; [assumption |]. split; [assumption |].
  intros a b Hsel. rewrite Hreads, Hsel. unfold coalesced_reads, coalesce, GAP_MERGE.
  split; intros Hgap.
  - destruct (e_offset b <=? e_offset a + e_length a + 4) eqn:E;
      [reflexivity | apply Z.leb_gt in E; lia].
  - destruct (e_offset b <=? e_offset a + e_length a + 4) eqn:E;
      [apply Z.leb_le in E; lia |].
    repeat f_equal; lia.
Qed.

Lemma sample_reads_succeed : reads_succeed sample_platform [].
Proof. intros k fd offset len. eexists. eexists. reflexivity. Qed.

Lemma moduleInfo_coalesces_witness :
  (tpe (sample_module 512) = ETH_MODULE_SFF_8472 /\ 0x5c <= 512 < 2 ^ 32 /\ 0 <= 3) /\
  exists tags w',
    moduleInfo (P := sample_platform) (sample_module 512)
      (Z.lor TXR_MI_VENDOR TXR_MI_PRODUCT) (running sample_platform tt ∅) = (Ok tags, w')
    /\ eeprom_reads w' = [(0x14, 36)].
Proof.
  split; [repeat split; lia |].
  destruct (moduleInfo_coalesces sample_platform (sample_module 512)
              (Z.lor TXR_MI_VENDOR TXR_MI_PRODUCT) (running sample_platform tt ∅))
    as (tags & w' & Hrun & Hreads & _).
  - reflexivity.
  - exact sample_reads_succeed.
  - simpl. lia.
  - simpl. lia.
  - exists tags, w'. split; [exact Hrun | exact Hreads].
Defined.

(** C6 (as amended): when the flag value is exactly [TXR_MI_ALLOW_CACHE]
    on a supported module, and the read of the 16 bytes at 0x44 succeeds
    and decodes to a serial that validates and is a key of the cache,
    [ModuleInfo] returns the cached Tag Set; its whole effect is that one
    read of the serial field, and the cache is unchanged. *)
Theorem ModuleInfo_cache_hit (P : Platform) (e : EthToolModule) (w w1 : World P)
    (buf field : slice) (cached : gmap string string) :
  tpe e = ETH_MODULE_SFF_8472 ->
  Read e 0x44 16 w = (Ok buf, w1) ->
  reslice buf 0 16 = Some field ->
  validSerial (fromLatin1 field) = true ->
  moduleCache w !! fromLatin1 field = Some cached ->
  ModuleInfo e TXR_MI_ALLOW_CACHE w = (Ok cached, w1)
  /\ moduleCache w1 = moduleCache w
  /\ eeprom_reads w1 = (eeprom_reads w ++ [(0x44, clamped e 0x44 16)])%list
  /\ clamped e 0x44 16 <= 16.
Proof.
  intros Ht HR Hf Hvalid Hhit.
  pose proof (Read_frame _ _ _ _ _ _ HR) as Hc.
  assert (Hcap : cap buf <> 0).
  { unfold reslice in Hf. destruct (16 <=? cap buf) eqn:E.
    - apply Z.leb_le in E. lia.
    - rewrite andb_false_r in Hf. discriminate. }
  split; [| split; [assumption | split; [apply (Read_Ok_logged _ _ _ _ _ _ HR Hcap) |]]].
  - unfold ModuleInfo, ModuleInfo_probe. rewrite Z.eqb_refl. unfold bind.
    rewrite (moduleInfo_serial e w w1 buf field Ht HR Hf).
    rewrite lookup_singleton_eq. simpl. rewrite Hvalid, Hc, Hhit. reflexivity.
  - unfold clamped. destruct (_ <? 16) eqn:E; [apply Z.ltb_lt in E |]; lia.
Qed.

Lemma ModuleInfo_cache_hit_witness :
  exists w1,
    ModuleInfo (P := sample_platform) (sample_module 512) TXR_MI_ALLOW_CACHE
      (running sample_platform tt primed_cache)
    = (Ok {["serial" := "ABC123"; "vendor" := "ACME Optics"]}, w1)
    /\ eeprom_reads w1 = [(0x44, 16)].
Proof.
  eexists.
  destruct (ModuleInfo_cache_hit sample_platform (sample_module 512)
              (running sample_platform tt primed_cache)
              (log_ioctl (GMODULEEEPROM [] 0x44 16) (running sample_platform tt primed_cache))
              (Slice (eeprom_data (bytes_at sample_rom 0x44 16)) 16)
              (Slice (eeprom_data (bytes_at sample_rom 0x44 16)) 16)
              {["serial" := "ABC123"; "vendor" := "ACME Optics"]})
    as (Hrun & _ & Hreads & _).
  - reflexivity.
  - vm_compute. reflexivity.
  - vm_compute. reflexivity.
  - vm_compute. reflexivity.
  - vm_compute. reflexivity.
  - split; [exact Hrun | exact Hreads].
Defined.

(** C6, counterexample: the flag value 0x4000 has the allow-cache bit set
    and the serial of the module is in the cache, yet [ModuleInfo] reads
    nothing, the serial field included, and returns an empty Tag Set
    instead of the cached one. *)
Lemma ModuleInfo_cache_bit_alone :
  Z.land 0x4000 (Z.land TXR_MI_ALLOW_CACHE (Z.lnot TXR_MI_ALL)) = 0x4000 /\
  exists w1,
    ModuleInfo (P := sample_platform) (sample_module 512) 0x4000
      (running sample_platform tt primed_cache) = (Ok ∅, w1)
    /\ eeprom_reads w1 = [].
Proof. split; [reflexivity |]. eexists. split; vm_compute; reflexivity. Qed.

Section Idempotence.
Context {P : Platform}.
Implicit Types (e : EthToolModule) (w : World P).

Lemma fixed_reads_succeed name rom : fixed_eeprom P name rom -> reads_succeed P name.
Proof.
  intros H k fd offset len. destruct (H k fd offset len) as [k' Hk]. eauto.
Qed.

(** On a fixed EEPROM the read of the serial field always delivers the
    same bytes. *)
Lemma Read_serial_fixed e rom w :
  fixed_eeprom P (ifname e) rom ->
  0x5c <= eeprom_len e < 2 ^ 32 -> 0 <= ethtool_socket w ->
  exists k',
    Read e 0x44 16 w
    = (Ok (Slice (eeprom_data (bytes_at rom 0x44 16)) 16),
       log_ioctl (GMODULEEEPROM (ifname e) 0x44 16) (set_kern k' w)).
Proof.
  intros Hfix HL Hs.
  rewrite Read_issue by (unfold is_uint32; lia). cbv zeta. rewrite Z.min_l by lia.
  destruct (Hfix (kern w) (ethtool_socket w) 0x44 16) as [k' Hk]. rewrite Hk.
  exists k'. rewrite array_prefix_ok by lia. reflexivity.
Qed.

Lemma reslice_serial written :
  reslice (Slice (eeprom_data written) 16) 0 16 = Some (Slice (eeprom_data written) 16).
Proof.
  unfold reslice, cap. simpl. rewrite length_eeprom_data. reflexivity.
Qed.

End Idempotence.


Lemma sample_fixed_eeprom : fixed_eeprom sample_platform [] sample_rom.
Proof. intros k fd offset len. eexists. reflexivity. Qed.


(** ** The serial collector *)

Section Collecting.
Context {P : Platform}.
Implicit Types (e : Exporter) (w : World P).

Lemma ethtool_Ok_reply {A} req (sys : kstate P -> Z -> (Z + A) * kstate P) w reply w' :
  ethtool req sys w = (Ok reply, w') -> exists k fd k', sys k fd = (inr reply, k').
Proof.
  unfold ethtool. intros H.
  destruct (ethtool_socket w <? 0).
  - destruct (unix_Socket P (kern w)) as [[errno | fd] k]; [discriminate |].
    destruct (sys _ _) as [[errno | reply'] k'] eqn:E in H; inversion H; subst. eauto.
  - destruct (sys _ _) as [[errno | reply'] k'] eqn:E in H; inversion H; subst. eauto.
Qed.

Lemma NewEthToolModule_result name w r w' :
  lengths_clear P ->
  NewEthToolModule name w = (r, w') ->
  match r with
  | Ok m => ~ In (eeprom_len m) (0x160 :: field_offsets)
  | Err _ => True
  | Panic _ => False
  end.
Proof.
  intros Hclear. unfold NewEthToolModule, bind.
  destruct (ethtool _ _ w) as [[[t l] | err | msg] w1] eqn:Eth.
  - apply ethtool_Ok_reply in Eth as (k & fd & k' & Hio).
    intros H; inversion H; subst. simpl. exact (Hclear _ _ _ _ _ _ Hio).
  - intros H; inversion H; subst. exact I.
  - apply ethtool_result in Eth as [Hnp _]. destruct Hnp.
Qed.

(** The loop body always yields a record: it bears the interface name,
    and its diagnostics are nil exactly when it bears an error. *)
Lemma collect_total e iface w :
  lengths_clear P ->
  exists r w',
    collect e iface w = (Ok r, w')
    /\ rec_iface r = iface
    /\ (rec_err r <> None -> rec_metrics r = None)
    /\ (rec_err r = None -> is_Some (rec_metrics r)).
Proof.
  intros Hclear. unfold collect, bind at 1, try at 1.
  destruct (NewEthToolModule iface w) as [[m | err | msg] w1] eqn:Hnew;
    apply (NewEthToolModule_result _ _ _ _ Hclear) in Hnew.
  - assert (HL : ~ In (eeprom_len m) field_offsets) by (intros Hin; apply Hnew; right; exact Hin).
    assert (HD : eeprom_len m <> 0x160) by (intros Heq; apply Hnew; left; symmetry; exact Heq).
    cbv zeta. cbv iota. unfold bind at 1, bind at 1, try at 1.
    destruct (ModuleInfo m (txrInfoFlags e) w1) as [[tags | err | msg] w2] eqn:Hinfo;
      [| | apply ModuleInfo_safe in Hinfo; [destruct Hinfo | exact HL]].
    + unfold ret at 1. cbn [fst snd]. unfold bind at 1, bind at 1, try at 1.
      destruct (TxrDiag m w2) as [[metrics | err | msg] w3] eqn:Hdiag;
        [| | apply TxrDiag_result in Hdiag as [Hnp _]; [destruct Hnp | exact HD]].
      * eexists. eexists. split; [reflexivity |]. simpl.
        split; [reflexivity |]. split; [congruence | eauto].
      * eexists. eexists. split; [reflexivity |]. simpl.
        split; [reflexivity |]. split; [reflexivity | discriminate].
    + eexists. eexists. split; [reflexivity |]. simpl.
      split; [reflexivity |]. split; [reflexivity | discriminate].
  - eexists. eexists. split; [reflexivity |]. simpl.
    split; [reflexivity |]. split; [reflexivity | discriminate].
  - destruct Hnew.
Qed.

Lemma CollectIfacesSerially_cons e iface rest (ch : Recorder) w :
  CollectIfacesSerially e (iface :: rest) ch w =
  match collect e iface w with
  | (Ok r, w1) => CollectIfacesSerially e rest (ch ++ [r])%list w1
  | (Err err, w1) => (Err err, w1)
  | (Panic msg, w1) => (Panic msg, w1)
  end.
Proof.
  simpl. unfold bind. destruct (collect e iface w) as [[r | err | msg] w1]; reflexivity.
Qed.

Lemma CollectIfacesSerially_total e ifaces :
  lengths_clear P ->
  forall (ch : Recorder) w,
    exists recs w',
      CollectIfacesSerially e ifaces ch w = (Ok (ch ++ recs)%list, w')
      /\ map rec_iface recs = ifaces
      /\ Forall (fun r => rec_err r <> None -> rec_metrics r = None) recs.
Proof.
  intros Hclear. induction ifaces as [| iface rest IH]; intros ch w.
  - exists [], w. simpl. rewrite app_nil_r. repeat split. constructor.
  - rewrite CollectIfacesSerially_cons.
    destruct (collect_total e iface w Hclear) as (r & w1 & Hr & Hname & Herr & _).
    rewrite Hr. cbv iota. destruct (IH (ch ++ [r])%list w1) as (recs & w' & Hrun & Hnames & Hall).
    exists (r :: recs), w'. rewrite <- app_assoc in Hrun.
    split; [exact Hrun |]. split; [simpl; congruence |]. constructor; assumption.
Qed.

End Collecting.

(** C7 (as amended): on a platform that never reports an EEPROM ending
    exactly where a field or the diagnostic page starts, the serial
    collector emits exactly one record per interface, in list order, and
    a record that carries an error carries no diagnostics.  When the
    module cannot be opened or the Tag Set cannot be fetched, the record
    carries the error, an empty Tag Set and nil diagnostics; when only
    the diagnostic read fails, it carries the error, the Tag Set already
    fetched and nil diagnostics. *)
Theorem CollectIfacesSerially_records (P : Platform) (e : Exporter) (ifaces : list string)
    (w : World P) :
  lengths_clear P ->
  (exists recs w',
     CollectIfacesSerially e ifaces ([] : Recorder) w = (Ok recs, w')
     /\ map rec_iface recs = ifaces
     /\ Forall (fun r => rec_err r <> None -> rec_metrics r = None) recs)
  /\ forall iface (w0 : World P),
       (forall err w1,
          NewEthToolModule iface w0 = (Err err, w1) ->
          CollectIfacesSerially e [iface] ([] : Recorder) w0
          = (Ok [{| rec_iface := iface; rec_err := Some err; rec_tags := ∅;
                    rec_metrics := None |}], w1))
       /\ (forall m w1 err w2,
             NewEthToolModule iface w0 = (Ok m, w1) ->
             ModuleInfo m (txrInfoFlags e) w1 = (Err err, w2) ->
             CollectIfacesSerially e [iface] ([] : Recorder) w0
             = (Ok [{| rec_iface := iface; rec_err := Some err; rec_tags := ∅;
                       rec_metrics := None |}], w2))
       /\ (forall m w1 tags w2 err w3,
             NewEthToolModule iface w0 = (Ok m, w1) ->
             ModuleInfo m (txrInfoFlags e) w1 = (Ok tags, w2) ->
             TxrDiag m w2 = (Err err, w3) ->
             CollectIfacesSerially e [iface] ([] : Recorder) w0
             = (Ok [{| rec_iface := iface; rec_err := Some err; rec_tags := tags;
                       rec_metrics := None |}], w3)).
Proof.
  intros Hclear. split.
  - destruct (CollectIfacesSerially_total e ifaces Hclear [] w) as (recs & w' & H).
    exists recs, w'. exact H.
  - intros iface w0. repeat split.
    + intros err w1 Hnew. rewrite CollectIfacesSerially_cons.
      unfold collect, bind, try. rewrite Hnew. reflexivity.
    + intros m w1 err w2 Hnew Hinfo. rewrite CollectIfacesSerially_cons.
      unfold collect, bind, try. rewrite Hnew. cbv zeta. cbv iota. rewrite Hinfo. reflexivity.
    + intros m w1 tags w2 err w3 Hnew Hinfo Hdiag. rewrite CollectIfacesSerially_cons.
      unfold collect, bind, try. rewrite Hnew. cbv zeta. cbv iota. rewrite Hinfo.
      unfold ret. cbn [fst snd]. rewrite Hdiag. reflexivity.
Qed.

Lemma sample_lengths_clear : lengths_clear sample_platform.
Proof.
  intros k fd name t l k' H. inversion H; subst.
  intros Hin. vm_compute in Hin. intuition discriminate.
Qed.

Lemma CollectIfacesSerially_records_witness :
  lengths_clear sample_platform /\
  exists recs w',
    CollectIfacesSerially (P := sample_platform) sample_exporter ["eth0"; "eth1"]
      ([] : Recorder) (boot sample_platform tt) = (Ok recs, w')
    /\ map rec_iface recs = ["eth0"; "eth1"]
    /\ Forall (fun r => rec_err r <> None -> rec_metrics r = None) recs.
Proof.
  split; [exact sample_lengths_clear |].
  exact (proj1 (CollectIfacesSerially_records sample_platform sample_exporter
                  ["eth0"; "eth1"] (boot sample_platform tt) sample_lengths_clear)).
Defined.

(** C7, counterexample: on a module with a 256-byte EEPROM the Tag Set is
    fetched and the diagnostic read then fails; the record emitted
    carries the error together with the seven tags, not an empty Tag
    Set. *)
Lemma CollectIfacesSerially_keeps_tags :
  exists w',
    CollectIfacesSerially (P := short_platform) sample_exporter ["eth0"]
      ([] : Recorder) (boot short_platform tt)
    = (Ok [{| rec_iface := "eth0";
              rec_err := Some (errorString "ethtool: Offset out of bounds.");
              rec_tags := sample_tags;
              rec_metrics := None |}], w')
    /\ sample_tags !! "serial" = Some "ABC123".
Proof. eexists. split; vm_compute; reflexivity. Qed.

(** ** Coalesced reads decode every field as a read of its own would *)

Lemma table_disjoint : StronglySorted ends_before txrEepromStatic.
Proof.
  unfold txrEepromStatic.
  repeat (constructor;
          [| solve [repeat (constructor; [unfold ends_before, infty; simpl; lia |]); constructor]]).
  constructor.
Qed.

Lemma length_bytes_at rom offset len :
  0 <= offset -> 0 <= len -> offset + len <= Z.of_nat (length rom) ->
  length (bytes_at rom offset len) = Z.to_nat len.
Proof.
  intros Ho Hl Hfit. unfold bytes_at. rewrite length_take, length_drop. lia.
Qed.

(** A window of the request buffer that lies within the bytes read is a
    window of the EEPROM. *)
Lemma eeprom_data_window rom start n k len :
  0 <= start -> 0 <= k -> 0 <= len -> k + len <= n -> n <= 512 ->
  start + n <= Z.of_nat (length rom) ->
  take (Z.to_nat len) (drop (Z.to_nat k) (eeprom_data (bytes_at rom start n)))
  = bytes_at rom (start + k) len.
Proof.
  intros Hs Hk Hl Hkn Hn Hfit. unfold eeprom_data.
  change (Z.to_nat ETH_MODULE_SFF_8472_LEN) with 512%nat.
  rewrite take_drop_commute, take_take, Nat.min_l by lia.
  rewrite take_app_le by (rewrite length_bytes_at; lia).
  unfold bytes_at. rewrite take_take, Nat.min_l by lia.
  rewrite <- take_drop_commute, drop_drop.
  rewrite Z2Nat.inj_add by lia. reflexivity.
Qed.

Lemma fromLatin1_prefix arr n :
  fromLatin1 (Slice arr n) = fromLatin1 (Slice (take (Z.to_nat n) arr) n).
Proof.
  unfold fromLatin1, elems. simpl. rewrite take_take, Nat.min_id. reflexivity.
Qed.

Lemma index_prefix arr n i :
  index (Slice arr n) i = index (Slice (take (Z.to_nat n) arr) n) i.
Proof.
  unfold index. simpl.
  destruct (0 <=? i) eqn:E1; [| reflexivity].
  destruct (i <? n) eqn:E2; [| reflexivity]. simpl.
  apply Z.leb_le in E1. apply Z.ltb_lt in E2.
  rewrite lookup_take_lt by lia. reflexivity.
Qed.

(** [decodeStatic] reads the slice proper, not the rest of its array. *)
Lemma decodeStatic_prefix arr n decoder :
  decodeStatic (Slice arr n) decoder
  = decodeStatic (Slice (take (Z.to_nat n) arr) n) decoder.
Proof.
  unfold decodeStatic.
  rewrite (fromLatin1_prefix arr n), !(index_prefix arr n).
  unfold elems. simpl. rewrite take_take, Nat.min_id. reflexivity.
Qed.

Lemma decodeStatic_field_ok (arr : list byte) (d : eepromEntryDef) :
  field_ok d -> (Z.to_nat (e_length d) <= length arr)%nat ->
  exists text, decodeStatic (Slice arr (e_length d)) (e_decoder d) = Ok text.
Proof.
  intros [Hlen Hdec] Harr. unfold decodeStatic.
  destruct Hdec as [-> | [-> | [-> Hl]]]; simpl; eauto.
  unfold index. simpl.
  destruct (0 <? e_length d) eqn:E0; [| apply Z.ltb_ge in E0; lia].
  destruct (1 <? e_length d) eqn:E1; [| apply Z.ltb_ge in E1; lia].
  destruct (2 <? e_length d) eqn:E2; [| apply Z.ltb_ge in E2; lia].
  destruct arr as [| b0 [| b1 [| b2 arr]]]; simpl in Harr; try lia.
  simpl. eauto.
Qed.

(** Decoding a field at its place in a coalesced buffer gives the text
    of the field read on its own. *)
Lemma decode_in_window rom start n (d : eepromEntryDef) :
  field_ok d ->
  0 <= start <= e_offset d -> e_offset d + e_length d <= start + n -> n <= 512 ->
  start + n <= Z.of_nat (length rom) ->
  decodeStatic
    (Slice (drop (Z.to_nat (e_offset d - start)) (eeprom_data (bytes_at rom start n)))
       (e_length d)) (e_decoder d)
  = Ok (field_text rom d).
Proof.
  intros Hok Hs He Hn Hfit. pose proof Hok as [Hlen _].
  rewrite decodeStatic_prefix.
  rewrite eeprom_data_window by lia.
  replace (start + (e_offset d - start)) with (e_offset d) by lia.
  unfold field_text.
  destruct (decodeStatic_field_ok (bytes_at rom (e_offset d) (e_length d)) d Hok)
    as [text Ht].
  - rewrite length_bytes_at by lia. lia.
  - rewrite Ht. reflexivity.
Qed.

Section Values.
Context {P : Platform}.
Implicit Types (e : EthToolModule) (w : World P) (st : queryState).

Lemma Read_fixed e rom offset len w :
  fixed_eeprom P (ifname e) rom ->
  is_uint32 (eeprom_len e) -> 0 <= offset -> 0 <= len <= 512 ->
  offset < eeprom_len e -> offset + len <= eeprom_len e ->
  0 <= ethtool_socket w ->
  exists k',
    Read e offset len w
    = (Ok (Slice (eeprom_data (bytes_at rom offset len)) len),
       log_ioctl (GMODULEEEPROM (ifname e) offset len) (set_kern k' w)).
Proof.
  intros Hfix HL Ho Hlen Hlt Hfit Hs.
  rewrite Read_issue by (try assumption; lia). cbv zeta. rewrite Z.min_l by lia.
  destruct (Hfix (kern w) (ethtool_socket w) offset len) as [k' Hk]. rewrite Hk.
  exists k'. rewrite array_prefix_ok by assumption. reflexivity.
Qed.

Lemma direct_tags_app rom fields1 fields2 ret :
  direct_tags rom (fields1 ++ fields2) ret
  = direct_tags rom fields2 (direct_tags rom fields1 ret).
Proof. unfold direct_tags. apply fold_left_app. Qed.

(** The pending slots decode, from the buffer of their span, to the
    texts of their fields. *)
Lemma decode_pending_values flags rom n st done pend :
  holds flags rom n st done pend -> pend <> [] ->
  0x5c <= Z.of_nat (length rom) ->
  forall pre rest ret,
    pend = (pre ++ rest)%list ->
    decode_loop
      (Slice (eeprom_data (bytes_at rom (query_start st) (query_end st - query_start st)))
         (query_end st - query_start st))
      (query st) (seqZ (Z.of_nat (length pre)) (Z.of_nat (length rest))) ret
    = Ok (direct_tags rom rest ret).
Proof.
  intros (Hlen & Hfit & Hslots & Hspan & Hret) Hne Hrom.
  destruct (Hspan Hne) as [Hin Hle]. pose proof (field_offsets_range _ Hin) as Hrange.
  intros pre rest. revert pre. induction rest as [| d rest IH]; intros pre ret Hpend.
  - reflexivity.
  - rewrite seqZ_cons by (simpl; lia). cbn [decode_loop].
    destruct (Hslots (length pre) d) as (idx & Hq & Hd & Hs & He).
    { rewrite Hpend. apply list_lookup_middle. reflexivity. }
    unfold decode_entry. rewrite at_index_nat, Hq. cbn [or_panic res_bind def buf_pos].
    rewrite at_index_nat, Hd. cbn [or_panic res_bind].
    pose proof (proj1 (Forall_lookup _ _) table_fields_ok _ _ Hd) as Hok.
    pose proof Hok as [Hlen_d _].
    rewrite wrap32_small by (unfold is_uint32; lia).
    unfold reslice, cap. cbn [sl_arr]. rewrite length_eeprom_data.
    destruct (0 <=? e_offset d - query_start st) eqn:E1; [| apply Z.leb_gt in E1; lia].
    destruct (e_offset d - query_start st <=? e_offset d - query_start st + e_length d) eqn:E2;
      [| apply Z.leb_gt in E2; lia].
    destruct (e_offset d - query_start st + e_length d <=? Z.of_nat 512) eqn:E3;
      [| apply Z.leb_gt in E3; lia].
    cbn [andb or_panic res_bind].
    replace (e_offset d - query_start st + e_length d - (e_offset d - query_start st))
      with (e_length d) by lia.
    rewrite decode_in_window by (try assumption; lia).
    cbn [res_bind].
    replace (Z.succ (Z.of_nat (length pre))) with (Z.of_nat (length (pre ++ [d])))
      by (rewrite length_app; simpl; lia).
    replace (Z.pred (Z.of_nat (length (d :: rest)))) with (Z.of_nat (length rest))
      by (simpl; lia).
    rewrite (IH (pre ++ [d])%list) by (rewrite <- app_assoc; exact Hpend).
    reflexivity.
Qed.

Lemma holds_flushed flags rom n st done pend :
  holds flags rom n st done pend ->
  holds flags rom n (flushed st (direct_tags rom (done ++ pend) ∅)) (done ++ pend) [].
Proof.
  intros (Hlen & Hfit & _ & _ & _). unfold holds. cbn [flushed query_len query q_ret length].
  split; [reflexivity |]. split; [lia |].
  split; [intros j d Hj; discriminate |]. split; [congruence | reflexivity].
Qed.

(** The second half of the loop body, on the fields held. *)
Lemma enqueue_holds flags rom (i : nat) (d : eepromEntryDef) (rest : list eepromEntryDef)
    st done pend :
  txrEepromStatic !! i = Some d ->
  Forall (ends_before d) rest ->
  holds flags rom (S (length rest)) st done pend ->
  (pend <> [] -> Forall (fun d' => query_end st <= e_offset d') (d :: rest)) ->
  exists st1,
    enqueue flags (Z.of_nat i) d st = Ok st1
    /\ holds flags rom (length rest) st1 done
         (pend ++ if selects flags d then [d] else [])%list
    /\ ((pend ++ if selects flags d then [d] else [])%list <> [] ->
        Forall (fun d' => query_end st1 <= e_offset d') rest).
Proof.
  intros Hd Hdisj (Hlen & Hfit & Hslots & Hspan & Hret) Hend. unfold enqueue.
  destruct (selects flags d) eqn:Hsel.
  - pose proof (proj1 (Forall_lookup _ _) (table_selected flags) _ _ Hd Hsel)
      as (Hoff & Hlen_d & Hend_d).
    pose proof (field_offsets_range _ Hoff) as Hrange.
    destruct (0 <=? query_len st) eqn:E1; [| apply Z.leb_gt in E1; lia].
    destruct (query_len st <? Z.of_nat (length (query st))) eqn:E2;
      [apply Z.ltb_lt in E2 | apply Z.ltb_ge in E2; lia].
    cbn [andb].
    set (start := if query_len st =? 0 then e_offset d else query_start st).
    assert (Hstart : In start field_offsets /\ start <= e_offset d
                     /\ (pend <> [] -> start = query_start st
                                       /\ query_end st <= e_offset d)).
    { subst start. destruct (query_len st =? 0) eqn:E3.
      - apply Z.eqb_eq in E3. split; [assumption |]. split; [lia |].
        intros Hne. destruct pend; [congruence | simpl in Hlen; lia].
      - apply Z.eqb_neq in E3.
        assert (Hne : pend <> []) by (intros ->; simpl in Hlen; lia).
        destruct (Hspan Hne) as [Hin Hle]. specialize (Hend Hne).
        apply Forall_cons in Hend as [Hhead _].
        split; [assumption |]. split; [lia |]. intros _. split; [reflexivity | assumption]. }
    destruct Hstart as (Hin & Hle & Hold). pose proof (field_offsets_range _ Hin) as Hrange'.
    eexists. split; [reflexivity |].
    rewrite (wrap32_small (e_offset d + e_length d)) by (unfold is_uint32; lia).
    rewrite (wrap32_small (e_offset d - start)) by (unfold is_uint32; lia).
    split.
    + unfold holds. cbn [query_len query query_start query_end q_ret].
      split; [rewrite length_app; simpl; lia |].
      split; [rewrite length_insert, length_app; simpl; lia |].
      split; [| split; [intros _; split; [assumption | lia] | assumption]].
      intros j d0 Hj. apply lookup_snoc_Some in Hj as [[Hlt Hj] | [Heq Hd0]].
      * assert (Hne : pend <> []) by (intros ->; simpl in Hlt; lia).
        destruct (Hold Hne) as [Hsame Hbefore].
        destruct (Hslots j d0 Hj) as (idx & Hq & Hidx & Hs & He).
        exists idx. rewrite list_lookup_insert_ne by lia. rewrite Hsame.
        split; [assumption |]. split; [assumption |]. split; [assumption | lia].
      * subst d0 j. exists i.
        replace (Z.to_nat (query_len st)) with (length pend) by lia.
        rewrite list_lookup_insert_eq by lia.
        split; [reflexivity |]. split; [assumption |]. split; [assumption | lia].
    + intros _. cbn [query_end].
      eapply Forall_impl; [exact Hdisj |]. intros d' Hd'. exact Hd'.
  - eexists. split; [reflexivity |]. rewrite app_nil_r. split.
    + unfold holds. split; [assumption |]. split; [lia |].
      split; [assumption |]. split; assumption.
    + intros Hne. specialize (Hend Hne). apply Forall_cons in Hend. apply Hend.
Qed.

Lemma moduleInfo_body_values e flags rom (i : nat) d rest st w done pend :
  fixed_eeprom P (ifname e) rom ->
  0x5c <= eeprom_len e < 2 ^ 32 ->
  0x5c <= Z.of_nat (length rom) ->
  txrEepromStatic !! i = Some d ->
  Forall (ends_before d) rest ->
  holds flags rom (S (length rest)) st done pend ->
  (pend <> [] -> Forall (fun d' => query_end st <= e_offset d') (d :: rest)) ->
  0 <= ethtool_socket w ->
  let flushing := (0 <? query_len st) && (query_end st <? wrap32 (e_offset d - GAP_MERGE)) in
  let done1 := (done ++ if flushing then pend else [])%list in
  let pend1 := ((if flushing then [] else pend)
                ++ if selects flags d then [d] else [])%list in
  exists st1 w1,
    moduleInfo_body e flags (Z.of_nat i) d st w = (Ok st1, w1)
    /\ holds flags rom (length rest) st1 done1 pend1
    /\ (pend1 <> [] -> Forall (fun d' => query_end st1 <= e_offset d') rest)
    /\ ethtool_socket w1 = ethtool_socket w.
Proof.
  intros Hfix HL Hrom Hd Hdisj Hholds Hend Hs. cbv zeta. rewrite moduleInfo_body_eq.
  destruct ((0 <? query_len st) && (query_end st <? wrap32 (e_offset d - GAP_MERGE)))
    eqn:Hflush.
  - apply andb_true_iff in Hflush as [Hpos _]. apply Z.ltb_lt in Hpos.
    pose proof Hholds as (Hlen & Hfit & Hslots & Hspan & Hret).
    assert (Hne : pend <> []) by (intros ->; simpl in Hlen; lia).
    destruct (Hspan Hne) as [Hin Hle].
    pose proof (field_offsets_range _ Hin) as Hrange.
    rewrite (wrap32_small (query_end st - query_start st)) by (unfold is_uint32; lia).
    destruct (Read_fixed e rom (query_start st) (query_end st - query_start st) w Hfix)
      as [k' HR]; try lia; try (unfold is_uint32; lia).
    rewrite HR.
    replace (seqZ 0 (query_len st))
      with (seqZ (Z.of_nat (length (@nil eepromEntryDef))) (Z.of_nat (length pend)))
      by (rewrite Hlen; reflexivity).
    rewrite (decode_pending_values flags rom _ st done pend Hholds Hne Hrom [] pend)
      by reflexivity.
    rewrite Hret, <- direct_tags_app.
    destruct (enqueue_holds flags rom i d rest
                (flushed st (direct_tags rom (done ++ pend) ∅)) (done ++ pend) [] Hd Hdisj)
      as (st1 & He & Hh & Hf).
    { apply holds_flushed with (1 := Hholds). }
    { congruence. }
    rewrite He. exists st1. eexists. split; [reflexivity |].
    split; [exact Hh |]. split; [exact Hf | reflexivity].
  - destruct (enqueue_holds flags rom i d rest st done pend Hd Hdisj Hholds Hend)
      as (st1 & He & Hh & Hf).
    rewrite He, app_nil_r. exists st1, w. split; [reflexivity |].
    split; [exact Hh |]. split; [exact Hf | reflexivity].
Qed.

Lemma moduleInfo_loop_values e flags rom :
  fixed_eeprom P (ifname e) rom ->
  0x5c <= eeprom_len e < 2 ^ 32 ->
  0x5c <= Z.of_nat (length rom) ->
  forall T (i : nat) st w done pend,
    (forall k d, T !! k = Some d -> txrEepromStatic !! (i + k)%nat = Some d) ->
    StronglySorted ends_before T ->
    holds flags rom (length T) st done pend ->
    (pend <> [] -> Forall (fun d' => query_end st <= e_offset d') T) ->
    (forall d, last T = Some d -> closing flags d) ->
    0 <= ethtool_socket w ->
    exists st' w' done' pend',
      moduleInfo_loop e flags (Z.of_nat i) T st w = (Ok st', w')
      /\ q_ret st' = direct_tags rom done' ∅
      /\ (done' ++ pend')%list = (done ++ pend ++ List.filter (selects flags) T)%list
      /\ (T <> [] -> pend' = []).
Proof.
  intros Hfix HL Hrom.
  induction T as [| d rest IH]; intros i st w done pend Hidx Hsorted Hholds Hend Hlast Hs.
  - exists st, w, done, pend. simpl. rewrite app_nil_r.
    split; [reflexivity |]. split; [apply Hholds |]. split; [reflexivity | congruence].
  - rewrite moduleInfo_loop_cons.
    apply StronglySorted_inv in Hsorted as [Hsrest Hhead].
    assert (Hd : txrEepromStatic !! i = Some d).
    { rewrite <- (Nat.add_0_r i). apply Hidx. reflexivity. }
    destruct (moduleInfo_body_values e flags rom i d rest st w done pend
                Hfix HL Hrom Hd Hhead Hholds Hend Hs)
      as (st1 & w1 & Hbody & Hh1 & Hf1 & Hs1).
    rewrite Hbody. replace (Z.of_nat i + 1) with (Z.of_nat (S i)) by lia.
    set (flushing := (0 <? query_len st)
                     && (query_end st <? wrap32 (e_offset d - GAP_MERGE))) in *.
    assert (Hsum : ((done ++ if flushing then pend else [])
                    ++ ((if flushing then [] else pend)
                        ++ if selects flags d then [d] else []))%list
                   = (done ++ pend ++ if selects flags d then [d] else [])%list).
    { destruct flushing; rewrite <- ?app_assoc, ?app_nil_r; reflexivity. }
    destruct rest as [| d2 rest].
    + (* [d] is the last entry *)
      destruct (Hlast d eq_refl) as [Hunsel Hfar].
      exists st1, w1. eexists. eexists. split; [reflexivity |].
      split; [apply Hh1 |]. split.
      * rewrite Hsum. simpl. rewrite Hunsel. reflexivity.
      * intros _. rewrite Hunsel, app_nil_r.
        destruct flushing eqn:Hfl; [reflexivity |].
        destruct pend as [| p pend]; [reflexivity |]. exfalso.
        destruct Hholds as (Hlen & _ & _ & Hspan & _).
        destruct Hspan as [_ Hle]; [discriminate |].
        subst flushing. apply andb_false_iff in Hfl as [Hfl | Hfl].
        -- apply Z.ltb_ge in Hfl. simpl in Hlen. lia.
        -- apply Z.ltb_ge in Hfl. lia.
    + assert (Hidx' : forall k d', (d2 :: rest) !! k = Some d' ->
                                   txrEepromStatic !! (S i + k)%nat = Some d').
      { intros k d' Hk'. replace (S i + k)%nat with (i + S k)%nat by lia.
        apply Hidx. assumption. }
      assert (Hlast' : forall d', last (d2 :: rest) = Some d' -> closing flags d').
      { intros d' Hd'. apply Hlast. rewrite last_cons_cons. exact Hd'. }
      assert (Hs1' : 0 <= ethtool_socket w1) by lia.
      destruct (IH (S i) st1 w1 _ _ Hidx' Hsrest Hh1 Hf1 Hlast' Hs1')
        as (st' & w' & done' & pend' & Hrun & Hret & Happ & Hnil).
      exists st', w', done', pend'. split; [assumption |]. split; [assumption |].
        split.
        -- rewrite Happ, app_assoc, Hsum. cbn [List.filter].
           destruct (selects flags d); rewrite <- !app_assoc; reflexivity.
        -- intros _. apply Hnil. discriminate.
Qed.

End Values.

Lemma table_closing flags : forall d, last txrEepromStatic = Some d -> closing flags d.
Proof.
  intros d Hd. inversion Hd; subst. split; reflexivity.
Qed.

Lemma initial_holds flags rom :
  holds flags rom (length txrEepromStatic)
    {| q_ret := ∅;
       query := replicate (length txrEepromStatic) {| def := 0; buf_pos := 0 |};
       query_start := 0; query_end := 0; query_len := 0 |} [] [].
Proof.
  unfold holds. simpl. split; [reflexivity |]. split; [lia |].
  split; [intros j d Hj; discriminate |]. split; [congruence | reflexivity].
Qed.

Lemma field_text_ok (rom : list byte) (d : eepromEntryDef) :
  field_ok d -> 0 <= e_offset d -> e_offset d + e_length d <= Z.of_nat (length rom) ->
  decodeStatic (Slice (bytes_at rom (e_offset d) (e_length d)) (e_length d)) (e_decoder d)
  = Ok (field_text rom d).
Proof.
  intros Hok Ho Hfit. unfold field_text.
  destruct (decodeStatic_field_ok (bytes_at rom (e_offset d) (e_length d)) d Hok)
    as [text Ht].
  - rewrite length_bytes_at by (destruct Hok; lia). lia.
  - rewrite Ht. reflexivity.
Qed.

Lemma selected_decode (rom : list byte) (flags : Z) :
  0x5c <= Z.of_nat (length rom) ->
  Forall (fun d =>
            decodeStatic (Slice (bytes_at rom (e_offset d) (e_length d)) (e_length d))
              (e_decoder d) = Ok (field_text rom d))
         (selected flags).
Proof.
  intros Hrom. apply List.Forall_forall. intros d Hin.
  apply List.filter_In in Hin as [Hin Hsel].
  apply list_elem_of_In, list_elem_of_lookup in Hin as [i Hi].
  pose proof (proj1 (Forall_lookup _ _) (table_selected flags) _ _ Hi Hsel)
    as (Hoff & Hlen & Hend).
  pose proof (field_offsets_range _ Hoff) as Hrange.
  apply field_text_ok; [| lia | lia].
  exact (proj1 (Forall_lookup _ _) table_fields_ok _ _ Hi).
Qed.

Lemma moduleInfo_values (P : Platform) (e : EthToolModule) (rom : list byte) (flags : Z)
    (w : World P) :
  tpe e = ETH_MODULE_SFF_8472 ->
  0x5c <= eeprom_len e < 2 ^ 32 ->
  0x5c <= Z.of_nat (length rom) ->
  fixed_eeprom P (ifname e) rom ->
  0 <= ethtool_socket w ->
  exists w', moduleInfo e flags w = (Ok (direct_tags rom (selected flags) ∅), w').
Proof.
  intros Ht HL Hrom Hfix Hs. unfold moduleInfo. rewrite Ht.
  change (negb (ETH_MODULE_SFF_8472 =? ETH_MODULE_SFF_8472)) with false. cbv iota.
  destruct (moduleInfo_loop_values e flags rom Hfix HL Hrom txrEepromStatic 0 _ w [] []
              (fun k d H => H) table_disjoint (initial_holds flags rom))
    as (st' & w' & done' & pend' & Hrun & Hret & Happ & Hnil).
  - congruence.
  - apply table_closing.
  - assumption.
  - exists w'. unfold bind, ret. cbv zeta. change (Z.of_nat 0) with 0 in Hrun.
    rewrite Hrun, Hret. rewrite Hnil in Happ by discriminate.
    rewrite app_nil_r in Happ. simpl in Happ. rewrite Happ. reflexivity.
Qed.

(** On a supported module with fixed EEPROM contents, [moduleInfo]
    returns, for every flag set, the Tag Set that maps the name of each
    selected field to the text decoded from exactly that field's own
    bytes, and each of these decodings succeeds: coalescing changes the
    device reads, not the result. *)
Theorem moduleInfo_decodes (P : Platform) (e : EthToolModule) (rom : list byte) (flags : Z)
    (w : World P) :
  tpe e = ETH_MODULE_SFF_8472 ->
  0x5c <= eeprom_len e < 2 ^ 32 ->
  0x5c <= Z.of_nat (length rom) ->
  fixed_eeprom P (ifname e) rom ->
  0 <= ethtool_socket w ->
  (exists w', moduleInfo e flags w = (Ok (direct_tags rom (selected flags) ∅), w'))
  /\ Forall (fun d =>
               decodeStatic (Slice (bytes_at rom (e_offset d) (e_length d)) (e_length d))
                 (e_decoder d) = Ok (field_text rom d))
            (selected flags).
Proof.
  intros Ht HL Hrom Hfix Hs. split.
  - apply moduleInfo_values with (1 := Ht); assumption.
  - apply selected_decode. assumption.
Qed.

Lemma moduleInfo_decodes_witness :
  (tpe (sample_module 512) = ETH_MODULE_SFF_8472 /\ 0x5c <= 512 < 2 ^ 32
   /\ 0x5c <= Z.of_nat (length sample_rom) /\ 0 <= 3) /\
  (exists w', moduleInfo (P := sample_platform) (sample_module 512) TXR_MI_ALL
                (running sample_platform tt ∅)
              = (Ok (direct_tags sample_rom (selected TXR_MI_ALL) ∅), w'))
  /\ Forall (fun d =>
               decodeStatic (Slice (bytes_at sample_rom (e_offset d) (e_length d))
                               (e_length d)) (e_decoder d)
               = Ok (field_text sample_rom d))
            (selected TXR_MI_ALL).
Proof.
  assert (Ht : tpe (sample_module 512) = ETH_MODULE_SFF_8472) by reflexivity.
  assert (HL : 0x5c <= eeprom_len (sample_module 512) < 2 ^ 32) by (simpl; lia).
  assert (Hrom : 0x5c <= Z.of_nat (length sample_rom)) by (vm_compute; discriminate).
  assert (Hs : 0 <= ethtool_socket (running sample_platform tt ∅)) by (simpl; lia).
  split; [split; [exact Ht |]; split; [exact HL |]; split; [exact Hrom | exact Hs] |].
  exact (moduleInfo_decodes sample_platform (sample_module 512) sample_rom TXR_MI_ALL
           (running sample_platform tt ∅) Ht HL Hrom sample_fixed_eeprom Hs).
Defined.

(** For each of the names "vendor", "oui", "product", "revision" and
    "serial", the flag set built from that one name makes [moduleInfo]
    return, on a supported module with fixed EEPROM contents, a Tag Set
    whose only key is that name. *)
Theorem moduleInfo_single_field_keys (P : Platform) (e : EthToolModule) (rom : list byte)
    (f : string) (w : World P) :
  In f ["vendor"; "oui"; "product"; "revision"; "serial"] ->
  tpe e = ETH_MODULE_SFF_8472 ->
  0x5c <= eeprom_len e < 2 ^ 32 ->
  0x5c <= Z.of_nat (length rom) ->
  fixed_eeprom P (ifname e) rom ->
  0 <= ethtool_socket w ->
  exists flags tags w',
    GetTxrInfoFlags [f] = Ok flags
    /\ moduleInfo e flags w = (Ok tags, w')
    /\ dom tags = ({[f]} : gset string).
Proof.
  intros Hf Ht HL Hrom Hfix Hs.
  assert (Hone : forall flags d,
             selected flags = [d] -> e_name d = f ->
             exists tags w', moduleInfo e flags w = (Ok tags, w')
                             /\ dom tags = ({[f]} : gset string)).
  { intros flags d Hsel Hname.
    destruct (moduleInfo_values P e rom flags w Ht HL Hrom Hfix Hs) as [w' Hrun].
    exists (direct_tags rom (selected flags) ∅), w'. split; [exact Hrun |].
    rewrite Hsel. unfold direct_tags. cbn [fold_left].
    rewrite dom_insert_L, dom_empty_L, Hname. apply union_empty_r_L. }
  simpl in Hf.
  destruct Hf as [<- | [<- | [<- | [<- | [<- | []]]]]].
  - exists TXR_MI_VENDOR. destruct (Hone TXR_MI_VENDOR _ eq_refl eq_refl) as (t & w' & H).
    exists t, w'. split; [reflexivity | exact H].
  - exists TXR_MI_OUI. destruct (Hone TXR_MI_OUI _ eq_refl eq_refl) as (t & w' & H).
    exists t, w'. split; [reflexivity | exact H].
  - exists TXR_MI_PRODUCT. destruct (Hone TXR_MI_PRODUCT _ eq_refl eq_refl) as (t & w' & H).
    exists t, w'. split; [reflexivity | exact H].
  - exists TXR_MI_REVISION. destruct (Hone TXR_MI_REVISION _ eq_refl eq_refl) as (t & w' & H).
    exists t, w'. split; [reflexivity | exact H].
  - exists TXR_MI_SERIAL. destruct (Hone TXR_MI_SERIAL _ eq_refl eq_refl) as (t & w' & H).
    exists t, w'. split; [reflexivity | exact H].
Qed.

Lemma moduleInfo_single_field_keys_witness :
  (In "serial" ["vendor"; "oui"; "product"; "revision"; "serial"]
   /\ tpe (sample_module 512) = ETH_MODULE_SFF_8472 /\ 0x5c <= 512 < 2 ^ 32
   /\ 0x5c <= Z.of_nat (length sample_rom) /\ 0 <= 3) /\
  exists flags tags w',
    GetTxrInfoFlags ["serial"] = Ok flags
    /\ moduleInfo (P := sample_platform) (sample_module 512) flags
         (running sample_platform tt ∅) = (Ok tags, w')
    /\ dom tags = ({["serial"]} : gset string).
Proof.
  assert (Hf : In "serial" ["vendor"; "oui"; "product"; "revision"; "serial"])
    by (simpl; tauto).
  assert (Ht : tpe (sample_module 512) = ETH_MODULE_SFF_8472) by reflexivity.
  assert (HL : 0x5c <= eeprom_len (sample_module 512) < 2 ^ 32) by (simpl; lia).
  assert (Hrom : 0x5c <= Z.of_nat (length sample_rom)) by (vm_compute; discriminate).
  assert (Hs : 0 <= ethtool_socket (running sample_platform tt ∅)) by (simpl; lia).
  split; [split; [exact Hf |]; split; [exact Ht |]; split; [exact HL |];
          split; [exact Hrom | exact Hs] |].
  exact (moduleInfo_single_field_keys sample_platform (sample_module 512) sample_rom
           "serial" (running sample_platform tt ∅) Hf Ht HL Hrom sample_fixed_eeprom Hs).
Defined.

(** ** The flags of a single field name *)

(** C2, at the failing input: the name "mfgdate" maps to the flag of
    "wavelen", and [moduleInfo] under that flag set returns a Tag Set
    with the two keys "wavelen" and "mfgdate" instead of "mfgdate"
    alone; the same holds for the name "wavelen". *)
Theorem moduleInfo_mfgdate_keys :
  GetTxrInfoFlags ["mfgdate"] = Ok TXR_MI_WAVELEN
  /\ GetTxrInfoFlags ["wavelen"] = Ok TXR_MI_WAVELEN
  /\ exists tags w',
       moduleInfo (P := sample_platform) (sample_module 512) TXR_MI_WAVELEN
         (running sample_platform tt ∅) = (Ok tags, w')
       /\ dom tags = ({["wavelen"; "mfgdate"]} : gset string).
Proof.
  split; [reflexivity |]. split; [reflexivity |].
  eexists. eexists. split; vm_compute; reflexivity.
Qed.

(** ** The line-protocol encoder *)

Lemma string_app_assoc (s1 s2 s3 : string) : (s1 ++ s2) ++ s3 = s1 ++ (s2 ++ s3).
Proof.
  induction s1 as [| a s1 IH]; [reflexivity |].
  change (String a ((s1 ++ s2) ++ s3) = String a (s1 ++ (s2 ++ s3))). f_equal. exact IH.
Qed.

Lemma string_app_nil_r (s : string) : s ++ "" = s.
Proof.
  induction s as [| a s IH]; [reflexivity |].
  change (String a (s ++ "") = String a s). f_equal. exact IH.
Qed.

(** C8, at the failing input: for a record that carries an error, the
    line sent by [InfluxChan.Emit] already ends in a newline, so that
    [Influxdb] writes the record, a newline, and then the timestamp on a
    line of its own. *)
Theorem Influxdb_failure_output (P : Platform) (iface : string) (err : error)
    (tags : gmap string string) (nowi : Z) :
  exists tagStr line,
    InfluxChan_Emit (P := P) []
      {| rec_iface := iface; rec_err := Some err; rec_tags := tags; rec_metrics := None |}
    = Ok [line]
    /\ line = "ethtool_transciever," ++ tagStr ++ " present=0i" ++ LF
    /\ Influxdb_loop nowi [line; EOF]
       = "ethtool_transciever," ++ tagStr ++ " present=0i" ++ LF
         ++ " " ++ fmt_d nowi ++ LF.
Proof.
  eexists. eexists. split; [reflexivity |]. split; [reflexivity |].
  cbn [Influxdb_loop]. unfold namespace. simpl String.eqb. cbv iota.
  rewrite string_app_nil_r, !string_app_assoc. reflexivity.
Qed.

(** ** Further properties of the engine *)

(** A handle exists only once the socket is open: [NewEthToolModule]
    succeeds through [ethtool], which leaves the descriptor it obtained
    in [ethtool_socket]. *)
Lemma NewEthToolModule_opens (P : Platform) (name : string) (w w' : World P)
    (m : EthToolModule) :
  (forall k fd k', unix_Socket P k = (inr fd, k') -> 0 <= fd) ->
  NewEthToolModule name w = (Ok m, w') ->
  0 <= ethtool_socket w'.
Proof.
  intros Hfd. unfold NewEthToolModule, bind, ethtool.
  destruct (ethtool_socket w <? 0) eqn:E.
  - destruct (unix_Socket P (kern w)) as [[errno | fd] k] eqn:Es; [discriminate |].
    destruct (ioctl_GMODULEINFO P _ _ _) as [[errno | reply] k'];
      intros H; inversion H; subst; simpl; exact (Hfd _ _ _ Es).
  - apply Z.ltb_ge in E.
    destruct (ioctl_GMODULEINFO P _ _ _) as [[errno | reply] k'];
      intros H; inversion H; subst; simpl; exact E.
Qed.

(** Apart from an EEPROM that ends exactly at 0x160, [TxrDiag] returns an
    error or a record, whatever the kernel answers. *)
Theorem TxrDiag_no_panic (P : Platform) (e : EthToolModule) (w : World P) :
  eeprom_len e <> 0x160 -> not_panic (fst (TxrDiag e w)).
Proof.
  intros Hne. destruct (TxrDiag e w) as [r w'] eqn:H.
  exact (proj1 (TxrDiag_result e w r w' H Hne)).
Qed.

Lemma TxrDiag_no_panic_witness :
  0x163 <> 0x160 /\
  not_panic (fst (TxrDiag (P := sample_platform) (sample_module 0x163)
                    (boot sample_platform tt))).
Proof.
  split; [lia |]. apply (TxrDiag_no_panic sample_platform (sample_module 0x163)). simpl. lia.
Defined.

(** [moduleInfo] returns an error or a Tag Set, for every flag set and
    whatever the kernel answers, unless the EEPROM ends exactly where one
    of the seven fields starts. *)
Theorem moduleInfo_no_panic (P : Platform) (e : EthToolModule) (flags : Z) (w : World P) :
  ~ In (eeprom_len e) field_offsets -> not_panic (fst (moduleInfo e flags w)).
Proof.
  intros HL. destruct (moduleInfo e flags w) as [r w'] eqn:H.
  exact (proj1 (moduleInfo_safe e flags w r w' HL H)).
Qed.

Lemma moduleInfo_no_panic_witness :
  ~ In 0x30 field_offsets /\
  not_panic (fst (moduleInfo (P := sample_platform) (sample_module 0x30) TXR_MI_ALL
                    (boot sample_platform tt))).
Proof.
  assert (H : ~ In 0x30 field_offsets) by (unfold field_offsets; simpl; lia).
  split; [exact H |].
  exact (moduleInfo_no_panic sample_platform (sample_module 0x30) TXR_MI_ALL
           (boot sample_platform tt) H).
Defined.

(** A module of another class is refused by both decoders with the
    error "Unsupported module type", and no device request is issued. *)
Theorem unsupported_module_type (P : Platform) (e : EthToolModule) (flags : Z) (w : World P) :
  tpe e <> ETH_MODULE_SFF_8472 ->
  moduleInfo e flags w
    = (Err (errorString ("Unsupported module type: " ++ fmt_d (tpe e))), w)
  /\ TxrDiag e w
     = (Err (errorString ("Unsupported module type: " ++ fmt_d (tpe e))), w).
Proof.
  intros Ht. unfold moduleInfo, TxrDiag.
  destruct (tpe e =? ETH_MODULE_SFF_8472) eqn:E; [apply Z.eqb_eq in E; contradiction |].
  split; reflexivity.
Qed.

Lemma unsupported_module_type_witness :
  3 <> ETH_MODULE_SFF_8472 /\
  TxrDiag (P := sample_platform) {| ifname := []; tpe := 3; eeprom_len := 512 |}
    (boot sample_platform tt)
  = (Err (errorString "Unsupported module type: 3"), boot sample_platform tt).
Proof.
  assert (H : 3 <> ETH_MODULE_SFF_8472) by (unfold ETH_MODULE_SFF_8472; lia).
  split; [exact H |].
  exact (proj2 (unsupported_module_type sample_platform
                  {| ifname := []; tpe := 3; eeprom_len := 512 |} 0
                  (boot sample_platform tt) H)).
Defined.

(** The exporter asks for [TXR_MI_ALLOW_CACHE]: the names it lists after
    "CACHE" add no bit to it. *)
Theorem NewExporter_flags (pathGlob : list string) (debug : bool) :
  NewExporter pathGlob debug
  = Ok {| pathGlob := pathGlob; debug := debug; txrInfoFlags := TXR_MI_ALLOW_CACHE |}.
Proof. reflexivity. Qed.

(** ** Text decoding *)

Lemma fromLatin1_lastchar_trim (l : list byte) (i lastchar : nat) :
  fromLatin1_lastchar l i lastchar
  = match trim_right l with
    | [] => lastchar
    | kept => (i + length kept)%nat
    end.
Proof.
  revert i lastchar. induction l as [| b rest IH]; intros i lastchar; [reflexivity |].
  cbn [fromLatin1_lastchar trim_right]. rewrite IH. unfold blank.
  destruct (trim_right rest) as [| k kept].
  - destruct (byte_val b =? 0), (byte_val b =? 32); simpl; try reflexivity; lia.
  - simpl. lia.
Qed.

Lemma trim_right_prefix (l : list byte) : take (length (trim_right l)) l = trim_right l.
Proof.
  induction l as [| b rest IH]; [reflexivity |]. cbn [trim_right].
  destruct (trim_right rest) as [| k kept] eqn:E.
  - destruct (blank b); reflexivity.
  - change (b :: take (length (k :: kept)) rest = b :: k :: kept). rewrite IH. reflexivity.
Qed.

Lemma decode_encode_byte (b : byte) (rest : list ascii) :
  decode_runes (encode_rune (byte_val b) ++ rest) = byte_val b :: decode_runes rest.
Proof. destruct b; reflexivity. Qed.

Lemma decode_encode_bytes (l : list byte) :
  decode_runes (concat (map encode_rune (map byte_val l))) = map byte_val l.
Proof.
  induction l as [| b rest IH]; [reflexivity |]. cbn [map concat].
  rewrite decode_encode_byte, IH. reflexivity.
Qed.

(** [fromLatin1] returns the bytes of its argument up to the last one
    that is neither NUL nor a space, each as the character of that code:
    read back rune by rune the string gives those byte values, so bytes
    from 0x80 on are not lost in the conversion. *)
Theorem fromLatin1_trims (bytes : slice) :
  fromLatin1 bytes = string_of_runes (map byte_val (trim_right (elems bytes)))
  /\ runes (fromLatin1 bytes) = map byte_val (trim_right (elems bytes)).
Proof.
  assert (H : fromLatin1 bytes = string_of_runes (map byte_val (trim_right (elems bytes)))).
  { unfold fromLatin1. rewrite fromLatin1_lastchar_trim.
    destruct (trim_right (elems bytes)) as [| k kept] eqn:E; [reflexivity |].
    rewrite <- E. simpl Nat.add. rewrite firstn_map. rewrite trim_right_prefix. reflexivity. }
  split; [exact H |]. rewrite H. unfold runes, string_of_runes.
  rewrite list_ascii_of_string_of_list_ascii. apply decode_encode_bytes.
Qed.

(** ** The flags of a list of names *)

Lemma fold_lor_flags (found : list eepromEntryDef) (ret : Z) :
  fold_left (fun acc d => Z.lor acc (e_flag d)) found ret
  = Z.lor ret (fold_left (fun acc d => Z.lor acc (e_flag d)) found 0).
Proof.
  revert ret. induction found as [| d rest IH]; intros ret; cbn [fold_left].
  - rewrite Z.lor_0_r. reflexivity.
  - rewrite (IH (Z.lor ret (e_flag d))), (IH (Z.lor 0 (e_flag d))), Z.lor_0_l, Z.lor_assoc.
    reflexivity.
Qed.

Lemma GetTxrInfoFlags_scan_fold (info : string) (table : list eepromEntryDef) (c : bool * Z) :
  fold_left (GetTxrInfoFlags_scan info) table c
  = match List.filter (fun d => String.eqb info (e_name d)) table with
    | [] => c
    | found => (true, fold_left (fun acc d => Z.lor acc (e_flag d)) found (snd c))
    end.
Proof.
  revert c. induction table as [| d rest IH]; intros c; [reflexivity |].
  cbn [fold_left List.filter]. unfold GetTxrInfoFlags_scan at 2.
  destruct (String.eqb info (e_name d)).
  - rewrite IH. cbn [snd fold_left].
    destruct (List.filter _ rest); reflexivity.
  - apply IH.
Qed.

Lemma GetTxrInfoFlags_loop_cons (info : string) (rest : list string) (ret : Z) :
  GetTxrInfoFlags_loop (info :: rest) ret
  = match info_flag info with
    | Some f => GetTxrInfoFlags_loop rest (Z.lor ret f)
    | None => Err (errorString ("Unknown entry '" ++ info ++ "'"))
    end.
Proof.
  cbn [GetTxrInfoFlags_loop]. unfold info_flag.
  destruct (String.eqb info "ALL"); [reflexivity |].
  destruct (String.eqb info "CACHE"); [reflexivity |].
  rewrite GetTxrInfoFlags_scan_fold. cbn [fst snd].
  destruct (List.filter _ txrEepromStatic) as [| d found]; [reflexivity |].
  cbn [fst snd]. rewrite fold_lor_flags. reflexivity.
Qed.

Lemma GetTxrInfoFlags_loop_known (str : list string) (ret : Z) :
  Forall (fun info => is_Some (info_flag info)) str ->
  GetTxrInfoFlags_loop str ret = Ok (Z.lor ret (union_flags str)).
Proof.
  revert ret. induction str as [| info rest IH]; intros ret Hknown.
  - simpl. rewrite Z.lor_0_r. reflexivity.
  - apply Forall_cons in Hknown as [[f Hf] Hrest].
    rewrite GetTxrInfoFlags_loop_cons, Hf, IH by assumption.
    cbn [union_flags fold_right]. rewrite Hf. change (default 0 (Some f)) with f. fold (union_flags rest).
    rewrite Z.lor_assoc. reflexivity.
Qed.

Lemma GetTxrInfoFlags_loop_unknown (pre : list string) (bad : string) (post : list string)
    (ret : Z) :
  Forall (fun info => is_Some (info_flag info)) pre ->
  info_flag bad = None ->
  GetTxrInfoFlags_loop (pre ++ bad :: post) ret
  = Err (errorString ("Unknown entry '" ++ bad ++ "'")).
Proof.
  revert ret. induction pre as [| info rest IH]; intros ret Hknown Hbad.
  - simpl app. rewrite GetTxrInfoFlags_loop_cons, Hbad. reflexivity.
  - apply Forall_cons in Hknown as [[f Hf] Hrest].
    change ((info :: rest) ++ bad :: post)%list with (info :: (rest ++ bad :: post))%list.
    rewrite GetTxrInfoFlags_loop_cons, Hf. apply IH; assumption.
Qed.

Lemma info_flag_names (info : string) (f : Z) :
  info_flag info = Some f <-> In (info, f) info_names.
Proof.
  split.
  - unfold info_flag.
    destruct (String.eqb_spec info "ALL") as [-> | _];
      [intros H; inversion H; subst; simpl; tauto |].
    destruct (String.eqb_spec info "CACHE") as [-> | _];
      [intros H; inversion H; subst; simpl; tauto |].
    unfold txrEepromStatic. cbn [List.filter e_name].
    repeat match goal with
           | |- context [String.eqb info ?n] =>
             destruct (String.eqb_spec info n) as [-> | _];
               [intros H; vm_compute in H; inversion H; subst; simpl; tauto |]
           end.
    discriminate.
  - unfold info_names. simpl.
    intros H. repeat (destruct H as [H | H]; [inversion H; subst; reflexivity |]).
    destruct H.
Qed.

Lemma info_flag_bits (info : string) (f : Z) :
  info_flag info = Some f ->
  Z.land f 0x7FFF = f /\ (Z.testbit f 14 = true <-> info = "CACHE").
Proof.
  intros H. apply info_flag_names in H. unfold info_names in H. simpl in H.
  repeat (destruct H as [H | H];
          [inversion H; subst; split; [reflexivity |];
           split; intros H'; first [reflexivity | discriminate] |]).
  destruct H.
Qed.

Lemma union_flags_bits (str : list string) :
  Forall (fun info => is_Some (info_flag info)) str ->
  Z.land (union_flags str) 0x7FFF = union_flags str
  /\ (Z.testbit (union_flags str) 14 = true <-> In "CACHE" str).
Proof.
  induction str as [| info rest IH]; intros Hknown.
  - split; [reflexivity |]. simpl. split; [discriminate | tauto].
  - apply Forall_cons in Hknown as [[f Hf] Hrest].
    destruct (IH Hrest) as [IHland IHbit].
    destruct (info_flag_bits info f Hf) as [Hland Hbit].
    cbn [union_flags fold_right]. rewrite Hf. change (default 0 (Some f)) with f. fold (union_flags rest).
    split.
    + rewrite Z.land_lor_distr_l, Hland, IHland. reflexivity.
    + rewrite Z.lor_spec, orb_true_iff, Hbit, IHbit. simpl. intuition congruence.
Qed.

Lemma union_flags_Permutation (str str' : list string) :
  Permutation str str' -> union_flags str = union_flags str'.
Proof.
  induction 1 as [| x l l' _ IH | x y l | l l' l'' _ IH1 _ IH2].
  - reflexivity.
  - cbn [union_flags fold_right]. fold (union_flags l) (union_flags l'). rewrite IH. reflexivity.
  - cbn [union_flags fold_right]. rewrite !Z.lor_assoc, (Z.lor_comm (default 0 (info_flag y))).
    reflexivity.
  - congruence.
Qed.

Lemma GetTxrInfoFlags_loop_Ok (str : list string) (ret flags : Z) :
  GetTxrInfoFlags_loop str ret = Ok flags ->
  Forall (fun info => is_Some (info_flag info)) str.
Proof.
  revert ret. induction str as [| info rest IH]; intros ret H; [constructor |].
  rewrite GetTxrInfoFlags_loop_cons in H.
  destruct (info_flag info) as [f |] eqn:Hf; [| discriminate].
  apply Forall_cons. split; [exists f; exact Hf | exact (IH _ H)].
Qed.

Lemma union_flags_testbit (str : list string) (n : Z) :
  Z.testbit (union_flags str) n
  = existsb (fun info => Z.testbit (default 0 (info_flag info)) n) str.
Proof.
  induction str as [| info rest IH]; [apply Z.bits_0 |].
  cbn [union_flags fold_right existsb]. fold (union_flags rest).
  rewrite Z.lor_spec, IH. reflexivity.
Qed.

Lemma union_flags_same_names (str str' : list string) :
  (forall info, In info str <-> In info str') -> union_flags str = union_flags str'.
Proof.
  intros Hsame. apply Z.bits_inj'. intros n _. rewrite !union_flags_testbit.
  apply eq_true_iff_eq. rewrite !existsb_exists.
  split; intros (info & Hin & Hbit); exists info; (split; [apply Hsame, Hin | exact Hbit]).
Qed.

Lemma union_flags_values (str : list string) (fs : list Z) :
  Forall2 (fun info f => In (info, f) info_names) str fs ->
  Forall (fun info => is_Some (info_flag info)) str
  /\ union_flags str = fold_right Z.lor 0 fs.
Proof.
  induction 1 as [| info f rest fs Hf _ [IHknown IHval]]; [split; [constructor | reflexivity] |].
  apply info_flag_names in Hf. split.
  - apply Forall_cons. split; [eexists; exact Hf | exact IHknown].
  - cbn [union_flags fold_right]. fold (union_flags rest). rewrite Hf, IHval. reflexivity.
Qed.

Lemma known_values (str : list string) :
  Forall (fun info => is_Some (info_flag info)) str ->
  exists fs, Forall2 (fun info f => In (info, f) info_names) str fs.
Proof.
  induction 1 as [| info rest [f Hf] _ [fs IH]]; [exists []; constructor |].
  exists (f :: fs). constructor; [apply info_flag_names, Hf | exact IH].
Qed.

(** [GetTxrInfoFlags] succeeds exactly on the lists made of the names
    "ALL", "CACHE" and the names of the table (its closing entry
    "--last--" included), and then returns the union of the bits of these
    names; the result depends on the set of names only, not on their
    order or on repetitions. *)
Theorem GetTxrInfoFlags_union (str : list string) (flags : Z) :
  (GetTxrInfoFlags str = Ok flags <->
   exists fs, Forall2 (fun info f => In (info, f) info_names) str fs
              /\ flags = fold_right Z.lor 0 fs)
  /\ (GetTxrInfoFlags str = Ok flags ->
      forall str', (forall info, In info str <-> In info str') ->
                   GetTxrInfoFlags str' = Ok flags).
Proof.
  assert (Hok : GetTxrInfoFlags str = Ok flags ->
                Forall (fun info => is_Some (info_flag info)) str
                /\ flags = union_flags str).
  { intros H. pose proof (GetTxrInfoFlags_loop_Ok _ _ _ H) as Hknown.
    split; [exact Hknown |]. unfold GetTxrInfoFlags in H.
    rewrite (GetTxrInfoFlags_loop_known _ _ Hknown), Z.lor_0_l in H. congruence. }
  split; [split |].
  - intros H. destruct (Hok H) as [Hknown ->].
    destruct (known_values str Hknown) as [fs Hfs]. exists fs. split; [exact Hfs |].
    apply (union_flags_values str fs Hfs).
  - intros (fs & Hfs & ->). destruct (union_flags_values str fs Hfs) as [Hknown <-].
    unfold GetTxrInfoFlags. rewrite (GetTxrInfoFlags_loop_known _ _ Hknown), Z.lor_0_l.
    reflexivity.
  - intros H str' Hsame. destruct (Hok H) as [Hknown ->].
    assert (Hknown' : Forall (fun info => is_Some (info_flag info)) str').
    { apply List.Forall_forall. intros info Hin. apply Hsame in Hin.
      exact (proj1 (List.Forall_forall _ _) Hknown info Hin). }
    unfold GetTxrInfoFlags. rewrite (GetTxrInfoFlags_loop_known _ _ Hknown'), Z.lor_0_l.
    rewrite (union_flags_same_names str str' Hsame). reflexivity.
Qed.

(** A list that holds a name which is neither "ALL", "CACHE" nor the
    name of a table entry is refused with an error that quotes the
    first such name. *)
Theorem GetTxrInfoFlags_unknown (pre : list string) (bad : string) (post : list string) :
  Forall (fun info => exists f, In (info, f) info_names) pre ->
  (forall f, ~ In (bad, f) info_names) ->
  GetTxrInfoFlags (pre ++ bad :: post)
  = Err (errorString ("Unknown entry '" ++ bad ++ "'")).
Proof.
  intros Hpre Hbad. apply GetTxrInfoFlags_loop_unknown.
  - apply List.Forall_forall. intros info Hin.
    destruct (proj1 (List.Forall_forall _ _) Hpre info Hin) as [f Hf].
    exists f. apply info_flag_names, Hf.
  - destruct (info_flag bad) as [f |] eqn:Hf; [| reflexivity].
    apply info_flag_names in Hf. destruct (Hbad f Hf).
Qed.

Lemma GetTxrInfoFlags_unknown_witness :
  GetTxrInfoFlags (["vendor"] ++ "bogus" :: ["serial"])
  = Err (errorString "Unknown entry 'bogus'").
Proof.
  apply (GetTxrInfoFlags_unknown ["vendor"] "bogus" ["serial"]).
  - repeat constructor. exists 1. simpl. tauto.
  - intros f H. simpl in H. intuition discriminate.
Defined.

(** The flag set [GetTxrInfoFlags] returns lies within the fifteen bits
    of [TXR_MI_ALLOW_CACHE], and it is [TXR_MI_ALLOW_CACHE] itself exactly
    when "CACHE" is one of the names: the test [flags ==
    TXR_MI_ALLOW_CACHE] of [ModuleInfo] holds for the lists that name
    "CACHE" and for no other. *)
Theorem GetTxrInfoFlags_cache (str : list string) (flags : Z) :
  GetTxrInfoFlags str = Ok flags ->
  0 <= flags <= TXR_MI_ALLOW_CACHE
  /\ (flags = TXR_MI_ALLOW_CACHE <-> In "CACHE" str).
Proof.
  intros H. pose proof (GetTxrInfoFlags_loop_Ok _ _ _ H) as Hknown.
  unfold GetTxrInfoFlags in H.
  rewrite (GetTxrInfoFlags_loop_known _ _ Hknown), Z.lor_0_l in H.
  inversion H as [Hflags]. clear H.
  destruct (union_flags_bits str Hknown) as [Hland Hbit].
  assert (Hrange : 0 <= union_flags str <= TXR_MI_ALLOW_CACHE).
  { pose proof Hland as Hmod. change 32767 with (Z.ones 15) in Hmod.
    rewrite Z.land_ones in Hmod by lia.
    pose proof (Z.mod_pos_bound (union_flags str) (2 ^ 15) ltac:(lia)) as Hb.
    unfold TXR_MI_ALLOW_CACHE. lia. }
  subst flags. split; [exact Hrange |]. rewrite <- Hbit. split.
  - intros ->. reflexivity.
  - intros Hset. apply Hbit in Hset. apply Z.bits_inj'. intros n Hn.
    destruct (Z.testbit TXR_MI_ALLOW_CACHE n) eqn:Hm.
    + rewrite union_flags_testbit. apply existsb_exists. exists "CACHE".
      split; [exact Hset | exact Hm].
    + pose proof (f_equal (fun z => Z.testbit z n) Hland) as Hn1. cbv beta in Hn1.
      rewrite Z.land_spec in Hn1.
      change (Z.testbit 32767 n) with (Z.testbit TXR_MI_ALLOW_CACHE n) in Hn1.
      rewrite Hm, andb_false_r in Hn1. congruence.
Qed.

Lemma GetTxrInfoFlags_cache_witness :
  0 <= TXR_MI_ALLOW_CACHE <= TXR_MI_ALLOW_CACHE
  /\ (TXR_MI_ALLOW_CACHE = TXR_MI_ALLOW_CACHE <-> In "CACHE" ["vendor"; "CACHE"]).
Proof.
  exact (GetTxrInfoFlags_cache ["vendor"; "CACHE"] TXR_MI_ALLOW_CACHE eq_refl).
Defined.

(** ** Escaping of tag values *)

Lemma replace_chars_app (p : ascii -> bool) (f : ascii -> string) (s1 s2 : string) :
  replace_chars p f (s1 ++ s2) = replace_chars p f s1 ++ replace_chars p f s2.
Proof.
  induction s1 as [| a s1 IH]; [reflexivity |].
  change (String a s1 ++ s2) with (String a (s1 ++ s2)).
  cbn [replace_chars]. rewrite IH, string_app_assoc. reflexivity.
Qed.

Lemma replace_chars_cons (p : ascii -> bool) (f : ascii -> string) (a : ascii) (s : string) :
  replace_chars p f (String a s) = replace_chars p f (String a EmptyString) ++ replace_chars p f s.
Proof. cbn [replace_chars]. rewrite string_app_nil_r. reflexivity. Qed.

Lemma escape_char_passes (a : ascii) :
  escapeChars (whiteChars (dangerousChars (String a EmptyString))) = escape_char a.
Proof.
  destruct a as [[] [] [] [] [] [] [] []]; vm_compute; reflexivity.
Qed.

Lemma escape_char_safe (a : ascii) :
  forallb tag_safe (list_ascii_of_string (escape_char a)) = true.
Proof.
  destruct a as [[] [] [] [] [] [] [] []]; vm_compute; reflexivity.
Qed.

Lemma list_ascii_of_string_app (s1 s2 : string) :
  list_ascii_of_string (s1 ++ s2) = (list_ascii_of_string s1 ++ list_ascii_of_string s2)%list.
Proof.
  induction s1 as [| a s1 IH]; [reflexivity |].
  change (String a s1 ++ s2) with (String a (s1 ++ s2)). simpl. rewrite IH. reflexivity.
Qed.

Lemma escape_value_passes (value : string) :
  escapeChars (whiteChars (dangerousChars value)) = escape_value value.
Proof.
  induction value as [| a rest IH]; [reflexivity |].
  unfold dangerousChars. rewrite replace_chars_cons. fold (dangerousChars rest).
  fold (dangerousChars (String a EmptyString)).
  unfold whiteChars. rewrite replace_chars_app.
  fold (whiteChars (dangerousChars rest)) (whiteChars (dangerousChars (String a EmptyString))).
  unfold escapeChars. rewrite replace_chars_app.
  fold (escapeChars (whiteChars (dangerousChars rest))).
  fold (escapeChars (whiteChars (dangerousChars (String a EmptyString)))).
  rewrite IH, escape_char_passes. reflexivity.
Qed.

Lemma escape_value_safe (value : string) :
  forallb tag_safe (list_ascii_of_string (escape_value value)) = true.
Proof.
  induction value as [| a rest IH]; [reflexivity |].
  cbn [escape_value]. rewrite list_ascii_of_string_app, forallb_app, IH, escape_char_safe.
  reflexivity.
Qed.

(** The three replacements [InfluxChan.Emit] applies to a tag value
    amount to one pass that turns each quote character into a tilde,
    each control character or space into backslash-space, and puts a
    backslash before each comma and equals sign; every other character,
    the backslash among them, is kept.  The escaped value holds no
    control character (so no line break) and no quote. *)
Theorem tag_escaping (value : string) :
  escapeChars (whiteChars (dangerousChars value)) = escape_value value
  /\ forallb tag_safe (list_ascii_of_string (escape_value value)) = true
  /\ escape_char (ascii_of_nat 92) = backslash.
Proof.
  split; [apply escape_value_passes |]. split; [apply escape_value_safe | reflexivity].
Qed.

(** ** The cache of [ModuleInfo] *)

Section CacheFacts.
Context {P : Platform}.
Implicit Types (e : EthToolModule) (w : World P) (st : queryState).

Lemma moduleInfo_loop_frame e flags table :
  forall i st w r w',
    moduleInfo_loop e flags i table st w = (r, w') -> moduleCache w' = moduleCache w.
Proof.
  induction table as [| d rest IH]; intros i st w r w' H.
  - inversion H. reflexivity.
  - rewrite moduleInfo_loop_cons, moduleInfo_body_eq in H.
    destruct ((0 <? query_len st) && (query_end st <? wrap32 (e_offset d - GAP_MERGE))).
    + destruct (Read e _ _ w) as [[buf | err | msg] w1] eqn:HR;
        apply Read_frame in HR; [| inversion H; subst; exact HR..].
      destruct (decode_loop buf _ _ _) as [ret' | err | msg];
        [| inversion H; subst; exact HR..].
      destruct (enqueue flags i d _) as [st1 | err | msg];
        [| inversion H; subst; exact HR..].
      rewrite (IH _ _ _ _ _ H). exact HR.
    + destruct (enqueue flags i d st) as [st1 | err | msg];
        [| inversion H; subst; reflexivity..].
      exact (IH _ _ _ _ _ H).
Qed.

Lemma moduleInfo_frame e flags w r w' :
  moduleInfo e flags w = (r, w') -> moduleCache w' = moduleCache w.
Proof.
  unfold moduleInfo. destruct (negb (tpe e =? ETH_MODULE_SFF_8472)).
  - intros H. inversion H. reflexivity.
  - cbv zeta. unfold bind at 1.
    destruct (moduleInfo_loop e flags 0 txrEepromStatic _ w) as [[st | err | msg] w1] eqn:Hl;
      apply moduleInfo_loop_frame in Hl; intros H; inversion H; subst; exact Hl.
Qed.

(** With the flag [TXR_MI_SERIAL] alone [moduleInfo] is the read of the
    16 bytes at 0x44 followed by the decoding of that field, whatever
    the read returns. *)
Lemma moduleInfo_serial_eq e w :
  tpe e = ETH_MODULE_SFF_8472 ->
  moduleInfo e TXR_MI_SERIAL w
  = match Read e 0x44 16 w with
    | (Ok buf, w1) =>
      (match reslice buf 0 16 with
       | Some field => Ok {["serial" := fromLatin1 field]}
       | None => Panic "slice bounds out of range"
       end, w1)
    | (Err err, w1) => (Err err, w1)
    | (Panic msg, w1) => (Panic msg, w1)
    end.
Proof.
  intros Ht. unfold moduleInfo. rewrite Ht.
  change (negb (ETH_MODULE_SFF_8472 =? ETH_MODULE_SFF_8472)) with false. cbv iota.
  unfold bind at 1. unfold txrEepromStatic. cbv zeta.
  do 7 (rewrite moduleInfo_loop_cons, moduleInfo_body_eq; eval_flush_test; cbv iota;
        eval_enqueue; cbv iota).
  rewrite moduleInfo_loop_cons, moduleInfo_body_eq; eval_flush_test; cbv iota.
  cbn [query_start query_end query_len query q_ret].
  change (wrap32 (84 - 68)) with 16.
  destruct (Read e 68 16 w) as [[buf | err | msg] w1]; [| reflexivity..].
  change (seqZ 0 1) with [0]. cbn [decode_loop]. unfold decode_entry.
  change (at_index _ 0) with (Some {| def := 5; buf_pos := 0 |}).
  cbn [or_panic res_bind def buf_pos].
  let r := eval vm_compute in (at_index txrEepromStatic 5) in
    change (at_index txrEepromStatic 5) with r.
  cbn [or_panic res_bind e_length e_decoder e_name].
  change (wrap32 (0 + 16)) with 16.
  destruct (reslice buf 0 16) as [field |]; reflexivity.
Qed.



End CacheFacts.



(** With any flag value other than [TXR_MI_ALLOW_CACHE], [ModuleInfo] is
    [moduleInfo]: the cache is neither consulted nor written, and no
    serial is read first. *)
Theorem ModuleInfo_without_cache (P : Platform) (e : EthToolModule) (flags : Z)
    (w : World P) :
  flags <> TXR_MI_ALLOW_CACHE ->
  ModuleInfo e flags w = moduleInfo e flags w
  /\ moduleCache (snd (ModuleInfo e flags w)) = moduleCache w.
Proof.
  intros Hne.
  assert (H : ModuleInfo e flags w = moduleInfo e flags w).
  { unfold ModuleInfo, ModuleInfo_probe. apply Z.eqb_neq in Hne. rewrite Hne.
    unfold bind, ret. destruct (moduleInfo e flags w) as [[tags | err | msg] w1]; reflexivity. }
  split; [exact H |]. rewrite H.
  destruct (moduleInfo e flags w) as [r w1] eqn:Hm. exact (moduleInfo_frame _ _ _ _ _ Hm).
Qed.

Lemma ModuleInfo_without_cache_witness :
  TXR_MI_ALL <> TXR_MI_ALLOW_CACHE /\
  ModuleInfo (P := sample_platform) (sample_module 512) TXR_MI_ALL
    (running sample_platform tt primed_cache)
  = moduleInfo (sample_module 512) TXR_MI_ALL (running sample_platform tt primed_cache)
  /\ moduleCache (snd (ModuleInfo (P := sample_platform) (sample_module 512) TXR_MI_ALL
                         (running sample_platform tt primed_cache)))
     = primed_cache.
Proof.
  assert (H : TXR_MI_ALL <> TXR_MI_ALLOW_CACHE) by discriminate.
  split; [exact H |].
  exact (ModuleInfo_without_cache sample_platform (sample_module 512) TXR_MI_ALL
           (running sample_platform tt primed_cache) H).
Defined.

Section Rereads.
Context {P : Platform}.
Implicit Types (e : EthToolModule) (w : World P).

Lemma ModuleInfo_uncached e rom w :
  tpe e = ETH_MODULE_SFF_8472 ->
  0x5c <= eeprom_len e < 2 ^ 32 ->
  0x5c <= Z.of_nat (length rom) ->
  fixed_eeprom P (ifname e) rom ->
  0 <= ethtool_socket w ->
  let sn := fromLatin1 (Slice (eeprom_data (bytes_at rom 0x44 16)) 16) in
  let tags := <["serial" := sn]>
                (direct_tags rom
                   (selected (Z.land TXR_MI_ALLOW_CACHE (Z.lnot TXR_MI_SERIAL))) ∅) in
  validSerial sn = false \/ moduleCache w !! sn = None ->
  exists w',
    ModuleInfo e TXR_MI_ALLOW_CACHE w = (Ok tags, w')
    /\ eeprom_reads w' = (eeprom_reads w ++ [(0x44, 16); (0x14, 42); (0x54, 8)])%list
    /\ ethtool_socket w' = ethtool_socket w
    /\ moduleCache w' = <[sn := tags]> (moduleCache w).
Proof.
  intros Ht HL Hrom Hfix Hs sn tags Hmiss.
  destruct (Read_serial_fixed e rom w Hfix HL Hs) as [kA HRA].
  set (wA := log_ioctl (GMODULEEEPROM (ifname e) 0x44 16) (set_kern kA w)) in *.
  pose proof (moduleInfo_serial e w wA _ _ Ht HRA (reslice_serial _)) as HsA.
  fold sn in HsA.
  set (flags := Z.land TXR_MI_ALLOW_CACHE (Z.lnot TXR_MI_SERIAL)) in *.
  destruct (moduleInfo_reads e flags wA Ht (fixed_reads_succeed _ _ Hfix) HL Hs)
    as (tags1 & wB & HrunB & HsB & HcB & HreadsB).
  destruct (moduleInfo_values P e rom flags wA Ht HL Hrom Hfix Hs) as [wB' Hval].
  rewrite HrunB in Hval. inversion Hval; subst tags1 wB'. clear Hval.
  exists (set_cache (<[sn := tags]> (moduleCache wB)) wB).
  split; [| split; [| split]].
  - unfold ModuleInfo, ModuleInfo_probe. rewrite Z.eqb_refl. unfold bind.
    rewrite HsA, lookup_singleton_eq. simpl.
    change (moduleCache wA) with (moduleCache w).
    destruct Hmiss as [Hinvalid | Hnone].
    + rewrite Hinvalid. fold flags. rewrite HrunB. reflexivity.
    + rewrite Hnone. destruct (validSerial sn); fold flags; rewrite HrunB; reflexivity.
  - change (eeprom_reads (set_cache _ wB)) with (eeprom_reads wB). rewrite HreadsB.
    subst wA. rewrite eeprom_reads_log, <- app_assoc. reflexivity.
  - exact HsB.
  - cbn [moduleCache set_cache]. rewrite HcB. reflexivity.
Qed.

End Rereads.

(** A module whose serial does not validate is never served from the
    cache: every [ModuleInfo] call with [TXR_MI_ALLOW_CACHE] issues the
    three reads of a first call (the serial, then the two spans of the
    other fields), whatever the cache holds, and stores its result in
    the cache under that serial all the same. *)
Theorem ModuleInfo_invalid_serial_rereads (P : Platform) (e : EthToolModule)
    (rom : list byte) (w : World P) :
  tpe e = ETH_MODULE_SFF_8472 ->
  0x5c <= eeprom_len e < 2 ^ 32 ->
  0x5c <= Z.of_nat (length rom) ->
  fixed_eeprom P (ifname e) rom ->
  0 <= ethtool_socket w ->
  validSerial (fromLatin1 (Slice (eeprom_data (bytes_at rom 0x44 16)) 16)) = false ->
  exists tags w1 w2,
    ModuleInfo e TXR_MI_ALLOW_CACHE w = (Ok tags, w1)
    /\ ModuleInfo e TXR_MI_ALLOW_CACHE w1 = (Ok tags, w2)
    /\ eeprom_reads w1 = (eeprom_reads w ++ [(0x44, 16); (0x14, 42); (0x54, 8)])%list
    /\ eeprom_reads w2 = (eeprom_reads w1 ++ [(0x44, 16); (0x14, 42); (0x54, 8)])%list
    /\ moduleCache w1 !! fromLatin1 (Slice (eeprom_data (bytes_at rom 0x44 16)) 16)
       = Some tags.
Proof.
  intros Ht HL Hrom Hfix Hs Hinvalid.
  destruct (ModuleInfo_uncached e rom w Ht HL Hrom Hfix Hs (or_introl Hinvalid))
    as (w1 & Hrun1 & Hreads1 & Hs1 & Hc1).
  assert (Hs1' : 0 <= ethtool_socket w1) by lia.
  destruct (ModuleInfo_uncached e rom w1 Ht HL Hrom Hfix Hs1' (or_introl Hinvalid))
    as (w2 & Hrun2 & Hreads2 & _ & _).
  eexists. exists w1, w2. split; [exact Hrun1 |]. split; [exact Hrun2 |].
  split; [exact Hreads1 |]. split; [exact Hreads2 |].
  rewrite Hc1. apply lookup_insert_eq.
Qed.

Lemma lower_case_fixed_eeprom :
  fixed_eeprom lower_case_platform [] (rom_with_serial "abcdef").
Proof. intros k fd offset len. eexists. reflexivity. Qed.

Lemma ModuleInfo_invalid_serial_rereads_witness :
  (tpe (sample_module 512) = ETH_MODULE_SFF_8472 /\ 0x5c <= 512 < 2 ^ 32
   /\ 0x5c <= Z.of_nat (length (rom_with_serial "abcdef")) /\ 0 <= 3
   /\ validSerial (fromLatin1 (Slice (eeprom_data (bytes_at (rom_with_serial "abcdef")
                                                      0x44 16)) 16)) = false) /\
  exists tags w1 w2,
    ModuleInfo (P := lower_case_platform) (sample_module 512) TXR_MI_ALLOW_CACHE
      (running lower_case_platform tt ∅) = (Ok tags, w1)
    /\ ModuleInfo (P := lower_case_platform) (sample_module 512) TXR_MI_ALLOW_CACHE w1
       = (Ok tags, w2)
    /\ eeprom_reads w1 = [(0x44, 16); (0x14, 42); (0x54, 8)]
    /\ eeprom_reads w2
       = [(0x44, 16); (0x14, 42); (0x54, 8); (0x44, 16); (0x14, 42); (0x54, 8)].
Proof.
  assert (Ht : tpe (sample_module 512) = ETH_MODULE_SFF_8472) by reflexivity.
  assert (HL : 0x5c <= eeprom_len (sample_module 512) < 2 ^ 32) by (simpl; lia).
  assert (Hrom : 0x5c <= Z.of_nat (length (rom_with_serial "abcdef")))
    by (vm_compute; discriminate).
  assert (Hs : 0 <= ethtool_socket (running lower_case_platform tt ∅)) by (simpl; lia).
  assert (Hinvalid : validSerial
                       (fromLatin1 (Slice (eeprom_data (bytes_at (rom_with_serial "abcdef")
                                                          0x44 16)) 16)) = false)
    by (vm_compute; reflexivity).
  split; [split; [exact Ht |]; split; [exact HL |]; split; [exact Hrom |];
          split; [exact Hs | exact Hinvalid] |].
  destruct (ModuleInfo_invalid_serial_rereads lower_case_platform (sample_module 512)
              (rom_with_serial "abcdef") (running lower_case_platform tt ∅)
              Ht HL Hrom lower_case_fixed_eeprom Hs Hinvalid)
    as (tags & w1 & w2 & H1 & H2 & Hr1 & Hr2 & Hc).
  exists tags, w1, w2. split; [exact H1 |]. split; [exact H2 |].
  split; [exact Hr1 |]. rewrite Hr2, Hr1. reflexivity.
Defined.

(** ** The values of the diagnostic decoder *)

Lemma byte_val_range (b : byte) : 0 <= byte_val b < 256.
Proof. destruct b; vm_compute; split; congruence. Qed.

Lemma Uint16_range (b0 b1 : byte) :
  0 <= Z.lor (byte_val b1) (Z.shiftl (byte_val b0) 8) < 65536.
Proof.
  pose proof (byte_val_range b0) as H0. pose proof (byte_val_range b1) as H1.
  assert (Hs : 0 <= Z.shiftl (byte_val b0) 8 < 65536).
  { rewrite Z.shiftl_mul_pow2 by lia. change (2 ^ 8) with 256. lia. }
  split; [apply Z.lor_nonneg; lia |].
  destruct (Z.eq_dec (Z.lor (byte_val b1) (Z.shiftl (byte_val b0) 8)) 0) as [-> | Hne]; [lia |].
  assert (Hpos : 0 < Z.lor (byte_val b1) (Z.shiftl (byte_val b0) 8)).
  { assert (0 <= Z.lor (byte_val b1) (Z.shiftl (byte_val b0) 8))
      by (apply Z.lor_nonneg; lia). lia. }
  change 65536 with (2 ^ 16). apply Z.log2_lt_pow2; [exact Hpos |].
  rewrite Z.log2_lor by lia.
  assert (Hl1 : Z.log2 (byte_val b1) < 16).
  { destruct (Z.eq_dec (byte_val b1) 0) as [-> | ?]; [reflexivity |].
    apply Z.log2_lt_pow2; lia. }
  assert (Hl0 : Z.log2 (Z.shiftl (byte_val b0) 8) < 16).
  { destruct (Z.eq_dec (Z.shiftl (byte_val b0) 8) 0) as [-> | ?]; [reflexivity |].
    apply Z.log2_lt_pow2; [lia |]. change (2 ^ 16) with 65536. lia. }
  lia.
Qed.

Lemma diag_word_Ok (data : slice) (i : Z) (f : float) :
  diag_word data i = Ok f -> exists v, 0 <= v < 65536 /\ f = float64 v.
Proof.
  unfold diag_word. destruct (reslice data (i * 2) (i * 2 + 2)) as [b |]; [| discriminate].
  cbn [or_panic res_bind]. unfold Uint16.
  destruct (index b 1) as [b1 |]; [| discriminate].
  destruct (index b 0) as [b0 |]; [| discriminate].
  cbn [or_panic res_bind]. intros H. inversion H.
  eexists. split; [apply Uint16_range | reflexivity].
Qed.

Lemma diag_words_in_range :
  forallb (fun hi => forallb (fun lo => diag_in_range (lo + 256 * hi)) (seqZ 0 256))
    (seqZ 0 256) = true.
Proof. vm_compute. reflexivity. Qed.

Lemma diag_in_range_word (v : Z) : 0 <= v < 65536 -> diag_in_range v = true.
Proof.
  intros Hv. rewrite (Z.div_mod v 256) by lia. rewrite Z.add_comm.
  pose proof (Z.mod_pos_bound v 256 ltac:(lia)) as Hlo.
  assert (Hhi : 0 <= v / 256 < 256)
    by (split; [apply Z.div_pos; lia | apply Z.div_lt_upper_bound; lia]).
  pose proof (proj1 (forallb_forall _ _) diag_words_in_range (v / 256)) as H.
  cbv beta in H.
  refine (proj1 (forallb_forall _ _) (H _) (v mod 256) _);
    apply list_elem_of_In, elem_of_seqZ; lia.
Qed.

(** A successful [TxrDiag] scales five unsigned 16-bit words: the
    temperature lies in [0, 256) degrees (a reading below zero is not
    produced), the voltage and the two powers in [0, 6.5536) and the
    bias current in [0, 131.072) mA, and the two dBm values are ten
    times the logarithm of the powers in mW. *)
Theorem TxrDiag_ranges (P : Platform) (e : EthToolModule) (w w' : World P)
    (d : TranscieverDiagnostics) :
  TxrDiag e w = (Ok d, w') ->
  ((0 <=? temperature_C d) && (temperature_C d <? 256)
   && (0 <=? voltage_V d) && (voltage_V d <? 65536 / 10000)
   && (0 <=? bias_mA d) && (bias_mA d <? 65536 / 500)
   && (0 <=? transmit_mW d) && (transmit_mW d <? 65536 / 10000)
   && (0 <=? receive_mW d) && (receive_mW d <? 65536 / 10000))%float = true
  /\ transmit_dBm d = (math_Log10 P (transmit_mW d) * 10)%float
  /\ receive_dBm d = (math_Log10 P (receive_mW d) * 10)%float.
Proof.
  unfold TxrDiag. destruct (negb (tpe e =? ETH_MODULE_SFF_8472)); [discriminate |].
  unfold bind at 1. destruct (Read e 352 10 w) as [[data | err | msg] w1]; [| discriminate..].
  unfold bind, lift, ret.
  destruct (diag_word data 0) as [f0 | |] eqn:H0; [| discriminate..].
  destruct (diag_word data 1) as [f1 | |] eqn:H1; [| discriminate..].
  destruct (diag_word data 2) as [f2 | |] eqn:H2; [| discriminate..].
  destruct (diag_word data 3) as [f3 | |] eqn:H3; [| discriminate..].
  destruct (diag_word data 4) as [f4 | |] eqn:H4; [| discriminate..].
  intros H. inversion H. subst d w'. clear H. cbn.
  apply diag_word_Ok in H0 as (v0 & Hv0 & ->). apply diag_word_Ok in H1 as (v1 & Hv1 & ->).
  apply diag_word_Ok in H2 as (v2 & Hv2 & ->). apply diag_word_Ok in H3 as (v3 & Hv3 & ->).
  apply diag_word_Ok in H4 as (v4 & Hv4 & ->).
  split; [| split; reflexivity].
  pose proof (diag_in_range_word v0 Hv0) as R0. pose proof (diag_in_range_word v1 Hv1) as R1.
  pose proof (diag_in_range_word v2 Hv2) as R2. pose proof (diag_in_range_word v3 Hv3) as R3.
  pose proof (diag_in_range_word v4 Hv4) as R4.
  unfold diag_in_range in *. unfold txr_MULT_mW. unfold txr_MULT_V in *.
  repeat match goal with
         | H : (_ && _) = true |- _ => apply andb_true_iff in H as [? ?]
         end.
  repeat (apply andb_true_iff; split); assumption.
Qed.

Lemma TxrDiag_ranges_witness :
  exists d w',
    TxrDiag (P := sample_platform) (sample_module 512) (running sample_platform tt ∅)
    = (Ok d, w')
    /\ ((0 <=? temperature_C d) && (temperature_C d <? 256))%float = true.
Proof.
  assert (H : exists d w',
             TxrDiag (P := sample_platform) (sample_module 512)
               (running sample_platform tt ∅) = (Ok d, w'))
    by (eexists; eexists; vm_compute; reflexivity).
  destruct H as (d & w' & H). exists d, w'. split; [exact H |].
  destruct (TxrDiag_ranges sample_platform _ _ _ _ H) as [Hr _].
  do 8 (apply andb_true_iff in Hr as [Hr _]). exact Hr.
Defined.

Section Truncated.
Context {P : Platform}.
Implicit Types (e : EthToolModule) (w : World P).

Lemma eeprom_data_zero (written : list byte) (k : nat) :
  (length written <= k < 512)%nat -> eeprom_data written !! k = Some x00.
Proof.
  intros Hk. unfold eeprom_data. change (Z.to_nat ETH_MODULE_SFF_8472_LEN) with 512%nat.
  rewrite lookup_take_lt by lia. rewrite lookup_app_r by lia.
  apply lookup_replicate_2. lia.
Qed.

Lemma diag_word_zero (written : list byte) (n i : Z) :
  0 <= i <= 4 -> Z.of_nat (length written) <= i * 2 ->
  diag_word (Slice (eeprom_data written) n) i = Ok (float64 0).
Proof.
  intros Hi Hlen. unfold diag_word, reslice, cap. cbn [sl_arr].
  rewrite length_eeprom_data.
  destruct (0 <=? i * 2) eqn:E1; [| apply Z.leb_gt in E1; lia].
  destruct (i * 2 <=? i * 2 + 2) eqn:E2; [| apply Z.leb_gt in E2; lia].
  destruct (i * 2 + 2 <=? Z.of_nat 512) eqn:E3; [| apply Z.leb_gt in E3; lia].
  cbn [andb or_panic res_bind]. replace (i * 2 + 2 - i * 2) with 2 by lia.
  unfold Uint16, index. cbn [sl_arr sl_len].
  change ((0 <=? 1) && (1 <? 2)) with true. change ((0 <=? 0) && (0 <? 2)) with true.
  cbv iota. rewrite !lookup_drop.
  rewrite !eeprom_data_zero by lia. reflexivity.
Qed.

End Truncated.

(** When the EEPROM ends inside the diagnostic page, [TxrDiag] reads the
    bytes that exist and decodes the page all the same: the words that
    lie beyond the end are taken from the zeroed request buffer, so the
    receive power (and, the shorter the EEPROM, the transmit power, the
    bias and the voltage) is reported as 0 instead of an error. *)
Theorem TxrDiag_truncated_page (P : Platform) (e : EthToolModule) (rom : list byte)
    (w : World P) :
  tpe e = ETH_MODULE_SFF_8472 ->
  fixed_eeprom P (ifname e) rom ->
  0x160 < eeprom_len e <= 0x168 ->
  0 <= ethtool_socket w ->
  exists d w',
    TxrDiag e w = (Ok d, w')
    /\ eeprom_reads w' = (eeprom_reads w ++ [(0x160, eeprom_len e - 0x160)])%list
    /\ receive_mW d = 0%float
    /\ (eeprom_len e <= 0x166 -> transmit_mW d = 0%float)
    /\ (eeprom_len e <= 0x164 -> bias_mA d = 0%float)
    /\ (eeprom_len e <= 0x162 -> voltage_V d = 0%float).
Proof.
  intros Ht Hfix HL Hs. unfold TxrDiag. rewrite Ht.
  change (negb (ETH_MODULE_SFF_8472 =? ETH_MODULE_SFF_8472)) with false. cbv iota.
  unfold bind at 1.
  rewrite Read_issue by (unfold is_uint32; lia). cbv zeta.
  rewrite Z.min_r by lia.
  destruct (Hfix (kern w) (ethtool_socket w) 0x160 (eeprom_len e - 0x160)) as [k' Hk].
  rewrite Hk, array_prefix_ok by lia.
  set (written := bytes_at rom 352 (eeprom_len e - 352)).
  assert (Hlen : Z.of_nat (length written) <= eeprom_len e - 352).
  { subst written. unfold bytes_at. rewrite length_take. lia. }
  set (data := Slice (eeprom_data written) (eeprom_len e - 352)).
  assert (Hcap : cap data = 512) by (unfold cap; simpl; rewrite length_eeprom_data; reflexivity).
  destruct (diag_word_ok data 0 Hcap) as [f0 H0]; [lia |].
  destruct (diag_word_ok data 1 Hcap) as [f1 H1]; [lia |].
  destruct (diag_word_ok data 2 Hcap) as [f2 H2]; [lia |].
  destruct (diag_word_ok data 3 Hcap) as [f3 H3]; [lia |].
  pose proof (diag_word_zero written (eeprom_len e - 352) 4 ltac:(lia) ltac:(lia)) as H4.
  fold data in H4.
  unfold bind, lift, ret. rewrite H0, H1, H2, H3, H4.
  eexists. eexists. split; [reflexivity |].
  split; [apply eeprom_reads_log |]. cbn.
  split; [reflexivity |]. split; [| split].
  - intros Hshort.
    pose proof (diag_word_zero written (eeprom_len e - 352) 3 ltac:(lia) ltac:(lia)) as H3'.
    fold data in H3'. rewrite H3 in H3'. inversion H3'. reflexivity.
  - intros Hshort.
    pose proof (diag_word_zero written (eeprom_len e - 352) 2 ltac:(lia) ltac:(lia)) as H2'.
    fold data in H2'. rewrite H2 in H2'. inversion H2'. reflexivity.
  - intros Hshort.
    pose proof (diag_word_zero written (eeprom_len e - 352) 1 ltac:(lia) ltac:(lia)) as H1'.
    fold data in H1'. rewrite H1 in H1'. inversion H1'. reflexivity.
Qed.

Lemma TxrDiag_truncated_page_witness :
  (tpe (sample_module 0x164) = ETH_MODULE_SFF_8472 /\ 0x160 < 0x164 <= 0x168 /\ 0 <= 3) /\
  exists d w',
    TxrDiag (P := sample_platform) (sample_module 0x164) (running sample_platform tt ∅)
    = (Ok d, w')
    /\ eeprom_reads w' = [(0x160, 4)]
    /\ receive_mW d = 0%float /\ transmit_mW d = 0%float /\ bias_mA d = 0%float.
Proof.
  assert (Ht : tpe (sample_module 0x164) = ETH_MODULE_SFF_8472) by reflexivity.
  assert (HL : 0x160 < eeprom_len (sample_module 0x164) <= 0x168) by (simpl; lia).
  assert (Hs : 0 <= ethtool_socket (running sample_platform tt ∅)) by (simpl; lia).
  split; [split; [exact Ht |]; split; [exact HL | exact Hs] |].
  destruct (TxrDiag_truncated_page sample_platform (sample_module 0x164) sample_rom
              (running sample_platform tt ∅) Ht sample_fixed_eeprom HL Hs)
    as (d & w' & H & Hr & Hrx & Htx & Hb & _).
  exists d, w'. split; [exact H |]. split; [exact Hr |]. split; [exact Hrx |].
  split; [apply Htx | apply Hb]; simpl; lia.
Defined.

(** ** The socket and the device handle *)

Lemma name16_prefix (a b : list byte) :
  take 16 a = take 16 b ->
  take 16 (a ++ replicate 16 x00) = take 16 (b ++ replicate 16 x00).
Proof.
  intros H. rewrite !take_app, H.
  pose proof (f_equal length H) as Hl. rewrite !length_take in Hl.
  destruct (le_lt_dec 16 (length a)) as [Ha | Ha].
  - replace (16 - length a)%nat with 0%nat by lia.
    replace (16 - length b)%nat with 0%nat by lia. reflexivity.
  - replace (length b) with (length a) by lia. reflexivity.
Qed.

(** [NewEthToolModule] copies the interface name into a 16-byte array:
    a longer name is cut after 16 bytes, so that two names which agree
    on their first 16 bytes issue the same request and give the same
    handle; a handle always carries exactly 16 name bytes. *)
Theorem NewEthToolModule_truncates (P : Platform) (name1 name2 : string) (w : World P) :
  take 16 (string_bytes name1) = take 16 (string_bytes name2) ->
  NewEthToolModule name1 w = NewEthToolModule name2 w
  /\ forall m w', NewEthToolModule name1 w = (Ok m, w') -> length (ifname m) = 16%nat.
Proof.
  intros H. split.
  - unfold NewEthToolModule. change (Z.to_nat IFNAMSIZ) with 16%nat.
    rewrite (name16_prefix _ _ H). reflexivity.
  - intros m w'. unfold NewEthToolModule, bind. change (Z.to_nat IFNAMSIZ) with 16%nat.
    destruct (ethtool _ _ w) as [[modInfo | err | msg] w1]; [| discriminate..].
    unfold ret. intros Hm. inversion Hm. cbn [ifname].
    rewrite length_take, length_app. simpl length. lia.
Qed.

Lemma NewEthToolModule_truncates_witness :
  take 16 (string_bytes "enp129s0f0np0vlan100") = take 16 (string_bytes "enp129s0f0np0vlan200")
  /\ NewEthToolModule (P := sample_platform) "enp129s0f0np0vlan100" (boot sample_platform tt)
     = NewEthToolModule "enp129s0f0np0vlan200" (boot sample_platform tt).
Proof.
  assert (H : take 16 (string_bytes "enp129s0f0np0vlan100")
              = take 16 (string_bytes "enp129s0f0np0vlan200")) by reflexivity.
  split; [exact H |].
  exact (proj1 (NewEthToolModule_truncates sample_platform _ _ (boot sample_platform tt) H)).
Defined.

(** [CloseEthToolSocket] closes the descriptor it finds and marks the
    socket as closed; it keeps the cache and issues no device request, a
    second call does nothing, and the next request opens a new socket
    first: it fails with the error of [unix.Socket], without a device
    request, when no socket can be had, and otherwise runs on the new
    descriptor. *)
Theorem CloseEthToolSocket_reopens (P : Platform) (unix_Close : kstate P -> Z -> kstate P)
    (A : Type) (req : ioctl_req) (sys : kstate P -> Z -> (Z + A) * kstate P)
    (w : World P) :
  0 <= ethtool_socket w ->
  let w1 := CloseEthToolSocket unix_Close w in
  ethtool_socket w1 = -1
  /\ kern w1 = unix_Close (kern w) (ethtool_socket w)
  /\ moduleCache w1 = moduleCache w
  /\ ioctls w1 = ioctls w
  /\ CloseEthToolSocket unix_Close w1 = w1
  /\ match unix_Socket P (kern w1) with
     | (inl errno, k) => ethtool req sys w1 = (Err (Errno errno), set_kern k w1)
     | (inr fd, k) =>
       0 <= fd -> ethtool req sys w1 = ethtool req sys (set_socket fd (set_kern k w1))
     end.
Proof.
  intros Hs. unfold CloseEthToolSocket at 1.
  destruct (0 <=? ethtool_socket w) eqn:E; [| apply Z.leb_gt in E; lia].
  cbv zeta. split; [reflexivity |]. split; [reflexivity |]. split; [reflexivity |].
  split; [reflexivity |]. split; [reflexivity |].
  cbn [kern set_socket set_kern].
  destruct (unix_Socket P (unix_Close (kern w) (ethtool_socket w))) as [[errno | fd] k] eqn:Eo.
  - unfold ethtool. cbn [ethtool_socket set_socket set_kern kern].
    change (-1 <? 0) with true. cbv iota. rewrite Eo. reflexivity.
  - intros Hfd. rewrite (ethtool_open req sys (set_socket fd _)) by exact Hfd.
    unfold ethtool. cbn [ethtool_socket set_socket set_kern kern].
    change (-1 <? 0) with true. cbv iota. rewrite Eo. reflexivity.
Qed.

Lemma CloseEthToolSocket_reopens_witness :
  0 <= 3 /\
  ethtool_socket (CloseEthToolSocket (P := sample_platform) (fun k _ => k)
                    (running sample_platform tt primed_cache)) = -1
  /\ moduleCache (CloseEthToolSocket (P := sample_platform) (fun k _ => k)
                    (running sample_platform tt primed_cache)) = primed_cache.
Proof.
  assert (Hs : 0 <= ethtool_socket (running sample_platform tt primed_cache))
    by (simpl; lia).
  split; [exact Hs |].
  destruct (CloseEthToolSocket_reopens sample_platform (fun k _ => k) (Z * Z)
              (GMODULEINFO []) (fun k fd => ioctl_GMODULEINFO sample_platform k fd [])
              (running sample_platform tt primed_cache) Hs)
    as (H1 & _ & H2 & _).
  split; [exact H1 | exact H2].
Defined.

(** A request never replaces an open socket: with the socket open,
    [NewEthToolModule] and [Read] leave [ethtool_socket] as it is, and
    starting from a closed socket a successful [NewEthToolModule] leaves
    it open when the kernel hands out non-negative descriptors. *)
Theorem ethtool_socket_kept (P : Platform) (name : string) (e : EthToolModule)
    (offset len : Z) (w : World P) :
  (forall k fd k', unix_Socket P k = (inr fd, k') -> 0 <= fd) ->
  (0 <= ethtool_socket w ->
   ethtool_socket (snd (NewEthToolModule name w)) = ethtool_socket w
   /\ ethtool_socket (snd (Read e offset len w)) = ethtool_socket w)
  /\ (forall m w', NewEthToolModule name w = (Ok m, w') -> 0 <= ethtool_socket w').
Proof.
  intros Hfd. split.
  - intros Hs. split.
    + unfold NewEthToolModule, bind. rewrite ethtool_open by exact Hs.
      destruct (ioctl_GMODULEINFO P _ _ _) as [[errno | reply] k]; reflexivity.
    + unfold Read.
      destruct (eeprom_len e <? 1); [reflexivity |].
      destruct (eeprom_len e <? offset); [reflexivity |].
      destruct (offset =? eeprom_len e); [reflexivity |].
      unfold bind. rewrite ethtool_open by exact Hs.
      destruct (ioctl_GMODULEEEPROM P _ _ _ _ _) as [[errno | written] k]; [reflexivity |].
      unfold lift. reflexivity.
  - intros m w'. apply NewEthToolModule_opens. exact Hfd.
Qed.

Lemma ethtool_socket_kept_witness :
  (forall k fd k', unix_Socket sample_platform k = (inr fd, k') -> 0 <= fd) /\
  exists m w',
    NewEthToolModule (P := sample_platform) "eth0" (boot sample_platform tt) = (Ok m, w')
    /\ 0 <= ethtool_socket w'.
Proof.
  assert (Hfd : forall k fd k', unix_Socket sample_platform k = (inr fd, k') -> 0 <= fd).
  { intros k fd k' H. inversion H. lia. }
  split; [exact Hfd |].
  eexists. eexists. split; [reflexivity |].
  exact (proj2 (ethtool_socket_kept sample_platform "eth0" (sample_module 512) 0 0
                  (boot sample_platform tt) Hfd) _ _ eq_refl).
Defined.

(** ** Interface discovery *)

Lemma ascii_compare_Eq (a b : ascii) : Ascii.compare a b = Eq -> a = b.
Proof. apply Ascii.compare_eq_iff. Qed.

Lemma ascii_compare_refl (a : ascii) : Ascii.compare a a = Eq.
Proof. unfold Ascii.compare. apply N.compare_refl. Qed.

Lemma ascii_compare_Lt_trans (a b c : ascii) :
  Ascii.compare a b = Lt -> Ascii.compare b c = Lt -> Ascii.compare a c = Lt.
Proof.
  unfold Ascii.compare. rewrite !N.compare_lt_iff. apply N.lt_trans.
Qed.

Lemma string_compare_refl (s : string) : String.compare s s = Eq.
Proof.
  induction s as [| a s IH]; [reflexivity |]. simpl. rewrite ascii_compare_refl. exact IH.
Qed.

Lemma string_lt_trans (s t u : string) : string_lt s t -> string_lt t u -> string_lt s u.
Proof.
  unfold string_lt, String.ltb.
  destruct (String.compare s t) eqn:Hst; try discriminate.
  destruct (String.compare t u) eqn:Htu; try discriminate. intros _ _.
  assert (H : String.compare s u = Lt); [| rewrite H; reflexivity].
  revert t u Hst Htu. induction s as [| a s IH]; intros [| b t] [| c u]; simpl;
    try discriminate; try reflexivity.
  destruct (Ascii.compare a b) eqn:Hab; try discriminate;
    destruct (Ascii.compare b c) eqn:Hbc; try discriminate; intros Hst Htu.
  - apply ascii_compare_Eq in Hab. subst b. rewrite Hbc. exact (IH _ _ Hst Htu).
  - apply ascii_compare_Eq in Hab. subst b. rewrite Hbc. reflexivity.
  - apply ascii_compare_Eq in Hbc. subst c. rewrite Hab. reflexivity.
  - rewrite (ascii_compare_Lt_trans _ _ _ Hab Hbc). reflexivity.
Qed.

Lemma string_lt_irrefl (s : string) : ~ string_lt s s.
Proof. unfold string_lt, String.ltb. rewrite string_compare_refl. discriminate. Qed.

Lemma string_le_lt_eq (s t : string) : string_le s t <-> string_lt s t \/ s = t.
Proof.
  unfold string_le, string_lt, String.leb, String.ltb.
  destruct (String.compare s t) eqn:H.
  - apply String.compare_eq_iff in H. subst. tauto.
  - tauto.
  - split; [discriminate |]. intros [? | ->]; [discriminate |].
    rewrite string_compare_refl in H. discriminate.
Qed.

#[local] Instance string_le_trans : Transitive string_le.
Proof.
  intros s t u. rewrite !string_le_lt_eq.
  intros [H1 | ->] [H2 | ->]; eauto using string_lt_trans.
Qed.

#[local] Instance string_le_total : Total string_le.
Proof. intros s t. apply String.leb_total. Qed.

Lemma unique_from_sorted (kept : string) (l : list string) :
  StronglySorted string_le l -> Forall (string_le kept) l ->
  StronglySorted string_lt (unique_from kept l)
  /\ Forall (string_lt kept) (unique_from kept l)
  /\ forall x, In x (unique_from kept l) <-> In x l /\ x <> kept.
Proof.
  revert kept. induction l as [| y rest IH]; intros kept Hsorted Hle.
  - simpl. split; [constructor |]. split; [constructor | tauto].
  - apply StronglySorted_inv in Hsorted as [Hrest Hy].
    apply Forall_cons in Hle as [Hky Hle]. cbn [unique_from].
    destruct (String.ltb kept y) eqn:Hlt.
    + destruct (IH y Hrest Hy) as (IHs & IHlt & IHin).
      assert (Hkept : forall z, string_lt y z -> string_lt kept z)
        by (intros z; apply string_lt_trans; exact Hlt).
      split; [constructor; assumption |]. split.
      * apply Forall_cons. split; [exact Hlt |].
        apply List.Forall_forall. intros z Hz. apply Hkept.
        exact (proj1 (List.Forall_forall _ _) IHlt z Hz).
      * intros x. cbn [In]. rewrite IHin. split.
        -- intros [<- | [Hin Hne]].
           ++ split; [left; reflexivity |]. intros ->. exact (string_lt_irrefl _ Hlt).
           ++ split; [right; exact Hin |]. intros Heq. subst x.
              pose proof (proj1 (List.Forall_forall _ _) Hy kept Hin) as Hyx.
              apply string_le_lt_eq in Hyx as [Hyx | Hyx].
              ** exact (string_lt_irrefl _ (string_lt_trans _ _ _ Hyx Hlt)).
              ** subst y. exact (string_lt_irrefl _ Hlt).
        -- intros [[<- | Hin] Hne]; [left; reflexivity |].
           destruct (String.string_dec y x) as [-> | Hxy]; [left; reflexivity | right].
           split; [exact Hin | congruence].
    + apply string_le_lt_eq in Hky as [Hky | <-]; [unfold string_lt in Hky; congruence |].
      destruct (IH kept Hrest Hle) as (IHs & IHlt & IHin).
      split; [exact IHs |]. split; [exact IHlt |].
      intros x. rewrite IHin. cbn [In]. intuition congruence.
Qed.

Lemma unique_Strings_sorted (l : list string) :
  StronglySorted string_le l ->
  StronglySorted string_lt (unique_Strings l)
  /\ forall x, In x (unique_Strings l) <-> In x l.
Proof.
  destruct l as [| y rest]; intros Hsorted; [split; [constructor | tauto] |].
  apply StronglySorted_inv in Hsorted as [Hrest Hy]. cbn [unique_Strings].
  destruct (unique_from_sorted y rest Hrest Hy) as (Hs & Hlt & Hin).
  split; [constructor; assumption |].
  intros x. cbn [In]. rewrite Hin.
  destruct (String.string_dec y x); intuition congruence.
Qed.

Lemma after_last_slash_no_slash (s t : string) :
  after_last_slash s = Some t -> no_slash t.
Proof.
  revert t. induction s as [| a rest IH]; intros t; [discriminate |].
  cbn [after_last_slash].
  destruct (after_last_slash rest) as [t' |] eqn:E.
  - intros H. inversion H; subst. apply IH. reflexivity.
  - destruct (code a =? 47); [| discriminate]. intros H. inversion H; subst.
    clear IH. unfold no_slash. induction t as [| b t IHt]; [constructor |].
    cbn [after_last_slash] in E.
    destruct (after_last_slash t); [discriminate |].
    destruct (code b =? 47) eqn:Eb; [discriminate |].
    simpl. constructor; [apply Z.eqb_neq, Eb | apply IHt; reflexivity].
Qed.

Lemma after_last_slash_None (s : string) : after_last_slash s = None -> no_slash s.
Proof.
  induction s as [| b t IHt]; [constructor |]. cbn [after_last_slash].
  destruct (after_last_slash t); [discriminate |].
  destruct (code b =? 47) eqn:Eb; [discriminate |]. intros _.
  simpl. constructor; [apply Z.eqb_neq, Eb | apply IHt; reflexivity].
Qed.

Lemma after_last_slash_split (s t : string) :
  after_last_slash s = Some t -> exists dir, s = (dir ++ "/") ++ t.
Proof.
  revert t. induction s as [| a rest IH]; intros t; [discriminate |].
  cbn [after_last_slash].
  destruct (after_last_slash rest) as [t' |] eqn:E.
  - intros H. inversion H; subst. destruct (IH t eq_refl) as [dir ->].
    exists (String a dir). reflexivity.
  - destruct (code a =? 47) eqn:Ea; [| discriminate]. intros H. inversion H; subst.
    exists "". apply Z.eqb_eq in Ea.
    assert (a = "/"%char) as ->; [| reflexivity].
    rewrite <- (ascii_N_embedding a), <- (ascii_N_embedding "/"). f_equal.
    unfold code in Ea. change (N_of_ascii "/") with 47%N. lia.
Qed.

Lemma LastIndex_slash_from_spec (s : string) (i last : Z) :
  LastIndex_slash_from s i last
  = match after_last_slash s with
    | Some t => i + Z.of_nat (String.length s) - Z.of_nat (String.length t) - 1
    | None => last
    end.
Proof.
  revert i last. induction s as [| a rest IH]; intros i last; [reflexivity |].
  cbn [LastIndex_slash_from after_last_slash String.length]. rewrite IH.
  destruct (after_last_slash rest) as [t |]; [lia |].
  destruct (code a =? 47); lia.
Qed.

Lemma after_last_slash_length (s t : string) :
  after_last_slash s = Some t -> (String.length t < String.length s)%nat.
Proof.
  revert t. induction s as [| a rest IH]; intros t; [discriminate |].
  cbn [after_last_slash String.length].
  destruct (after_last_slash rest) as [t' |].
  - intros H. inversion H; subst. specialize (IH t eq_refl). lia.
  - destruct (code a =? 47); [| discriminate]. intros H. inversion H; subst. lia.
Qed.

Lemma string_from_suffix (s t : string) :
  after_last_slash s = Some t ->
  string_from s (String.length s - String.length t) = t.
Proof.
  revert t. induction s as [| a rest IH]; intros t; [discriminate |].
  cbn [after_last_slash String.length].
  destruct (after_last_slash rest) as [t' |] eqn:E.
  - intros H. inversion H; subst.
    pose proof (after_last_slash_length _ _ E) as Hlen.
    replace (S (String.length rest) - String.length t)%nat
      with (S (String.length rest - String.length t)) by lia.
    cbn [string_from]. apply IH. reflexivity.
  - destruct (code a =? 47); [| discriminate]. intros H. inversion H; subst.
    replace (S (String.length t) - String.length t)%nat with 1%nat by lia. reflexivity.
Qed.

Lemma last_component_spec (path : string) :
  last_component path = default path (after_last_slash path).
Proof.
  unfold last_component, LastIndex_slash. rewrite LastIndex_slash_from_spec.
  destruct (after_last_slash path) as [t |] eqn:E; [| reflexivity].
  pose proof (after_last_slash_length _ _ E) as Hlen.
  replace (Z.to_nat (0 + Z.of_nat (String.length path) - Z.of_nat (String.length t) - 1 + 1))
    with (String.length path - String.length t)%nat by lia.
  apply string_from_suffix. exact E.
Qed.

Lemma no_slash_after (s : string) : no_slash s -> after_last_slash s = None.
Proof.
  unfold no_slash. induction s as [| a rest IH]; [reflexivity |].
  simpl. intros H. apply Forall_cons in H as [Ha Hrest].
  rewrite (IH Hrest). apply Z.eqb_neq in Ha. rewrite Ha. reflexivity.
Qed.

Lemma after_last_slash_dir (dir name : string) :
  no_slash name -> after_last_slash ((dir ++ "/") ++ name) = Some name.
Proof.
  intros Hname. induction dir as [| a dir IH].
  - change (("" ++ "/") ++ name) with (String "/" name).
    cbn [after_last_slash]. rewrite (no_slash_after _ Hname). reflexivity.
  - change ((String a dir ++ "/") ++ name) with (String a ((dir ++ "/") ++ name)).
    cbn [after_last_slash]. rewrite IH. reflexivity.
Qed.

(** The last component of a path has no slash, and the path is that
    component alone or a directory part ending in a slash followed by
    it. *)
Lemma last_component_path (path : string) :
  no_slash (last_component path)
  /\ (path = last_component path
      \/ exists dir, path = (dir ++ "/") ++ last_component path).
Proof.
  rewrite last_component_spec. destruct (after_last_slash path) as [t |] eqn:E; simpl.
  - split; [exact (after_last_slash_no_slash _ _ E) |]. right.
    exact (after_last_slash_split _ _ E).
  - split; [exact (after_last_slash_None _ E) | left; reflexivity].
Qed.

Section DiscoveryFacts.
Variable filepath_Glob : string -> list string * option error.

Lemma GetIfaces_loop_Ok (debug : bool) (globs : list string) :
  Forall (fun glob => snd (filepath_Glob glob) = None) globs ->
  forall ret out,
    snd (GetIfaces_loop filepath_Glob debug globs ret out)
    = Ok (ret ++ concat (map (fun glob => map last_component (fst (filepath_Glob glob)))
                          globs))%list.
Proof.
  induction 1 as [| glob rest Hg _ IH]; intros ret out.
  - simpl. rewrite app_nil_r. reflexivity.
  - cbn [GetIfaces_loop]. rewrite Hg. rewrite IH. cbn [map concat].
    rewrite app_assoc. reflexivity.
Qed.

Lemma GetIfaces_loop_Err (debug : bool) (pre : list string) (glob : string)
    (post : list string) (err : error) :
  Forall (fun glob => snd (filepath_Glob glob) = None) pre ->
  snd (filepath_Glob glob) = Some err ->
  forall ret out,
    snd (GetIfaces_loop filepath_Glob debug (pre ++ glob :: post) ret out) = Err err.
Proof.
  intros Hpre Hg. induction Hpre as [| g rest Hok _ IH]; intros ret out.
  - cbn [app GetIfaces_loop]. rewrite Hg. reflexivity.
  - cbn [app GetIfaces_loop]. rewrite Hok. apply IH.
Qed.

Lemma GetIfaces_loop_quiet (globs : list string) :
  forall ret out, fst (GetIfaces_loop filepath_Glob false globs ret out) = out.
Proof.
  induction globs as [| glob rest IH]; intros ret out; [reflexivity |].
  cbn [GetIfaces_loop]. destruct (snd (filepath_Glob glob)); [reflexivity | apply IH].
Qed.

Lemma GetIfaces_loop_debug (debug : bool) (globs : list string) :
  forall ret out out',
    snd (GetIfaces_loop filepath_Glob debug globs ret out)
    = snd (GetIfaces_loop filepath_Glob false globs ret out').
Proof.
  induction globs as [| glob rest IH]; intros ret out out'; [reflexivity |].
  cbn [GetIfaces_loop]. destruct (snd (filepath_Glob glob)); [reflexivity | apply IH].
Qed.

End DiscoveryFacts.

(** When every glob of the exporter is well formed, [GetIfaces] returns
    the last path components of all matches in strictly ascending byte
    order, each once: a name is in the result exactly when some match of
    some glob ends in it, after its last slash, and no name holds a
    slash. *)
Theorem GetIfaces_sorted (filepath_Glob : string -> list string * option error)
    (e : Exporter) :
  Forall (fun glob => snd (filepath_Glob glob) = None) (pathGlob e) ->
  exists ifaces,
    snd (GetIfaces filepath_Glob e) = Ok ifaces
    /\ StronglySorted string_lt ifaces
    /\ Forall no_slash ifaces
    /\ forall name,
         In name ifaces <->
         exists glob path,
           In glob (pathGlob e) /\ In path (fst (filepath_Glob glob))
           /\ no_slash name
           /\ (path = name \/ exists dir, path = (dir ++ "/") ++ name).
Proof.
  intros Hok. unfold GetIfaces. cbn [snd].
  rewrite (GetIfaces_loop_Ok filepath_Glob (debug e) (pathGlob e) Hok). cbn [res_bind app].
  set (found := concat (map (fun glob => map last_component (fst (filepath_Glob glob)))
                          (pathGlob e))).
  destruct (unique_Strings_sorted (sort_Strings found)) as [Hsorted Hin].
  { apply StronglySorted_merge_sort; apply _. }
  assert (Hfound : forall name,
             In name (unique_Strings (sort_Strings found)) <->
             exists glob path, In glob (pathGlob e) /\ In path (fst (filepath_Glob glob))
                               /\ name = last_component path).
  { intros name. rewrite Hin. unfold sort_Strings.
    rewrite <- !list_elem_of_In, (merge_sort_Permutation string_le found).
    rewrite !list_elem_of_In. subst found. rewrite in_concat. split.
    - intros (l & Hl & Hname). apply in_map_iff in Hl as (glob & <- & Hglob).
      apply in_map_iff in Hname as (path & <- & Hpath). eauto.
    - intros (glob & path & Hglob & Hpath & ->).
      exists (map last_component (fst (filepath_Glob glob))).
      split; apply in_map_iff; eauto. }
  eexists. split; [reflexivity |]. split; [exact Hsorted |]. split.
  - apply List.Forall_forall. intros name Hname.
    apply Hfound in Hname as (glob & path & _ & _ & ->). apply last_component_path.
  - intros name. rewrite Hfound. split.
    + intros (glob & path & Hglob & Hpath & ->). exists glob, path.
      split; [exact Hglob |]. split; [exact Hpath |]. apply last_component_path.
    + intros (glob & path & Hglob & Hpath & Hns & Hsplit). exists glob, path.
      split; [exact Hglob |]. split; [exact Hpath |].
      rewrite last_component_spec. destruct Hsplit as [-> | [dir ->]].
      * rewrite (no_slash_after _ Hns). reflexivity.
      * rewrite (after_last_slash_dir _ _ Hns). reflexivity.
Qed.

Lemma GetIfaces_sorted_witness :
  Forall (fun glob => snd (sample_Glob glob) = None)
    ["/sys/bus/pci/drivers/ixgbe/*:*/net/*"; "/sys/class/net/enp129s0f*"]
  /\ snd (GetIfaces sample_Glob
            {| pathGlob := ["/sys/bus/pci/drivers/ixgbe/*:*/net/*";
                            "/sys/class/net/enp129s0f*"];
               debug := false; txrInfoFlags := TXR_MI_ALLOW_CACHE |})
     = Ok ["enp129s0f0"; "enp129s0f1"]
  /\ exists ifaces,
       snd (GetIfaces sample_Glob
              {| pathGlob := ["/sys/bus/pci/drivers/ixgbe/*:*/net/*";
                              "/sys/class/net/enp129s0f*"];
                 debug := false; txrInfoFlags := TXR_MI_ALLOW_CACHE |}) = Ok ifaces
       /\ StronglySorted string_lt ifaces.
Proof.
  assert (H : Forall (fun glob => snd (sample_Glob glob) = None)
                ["/sys/bus/pci/drivers/ixgbe/*:*/net/*"; "/sys/class/net/enp129s0f*"])
    by (repeat constructor).
  split; [exact H |]. split; [vm_compute; reflexivity |].
  destruct (GetIfaces_sorted sample_Glob
              {| pathGlob := ["/sys/bus/pci/drivers/ixgbe/*:*/net/*";
                              "/sys/class/net/enp129s0f*"];
                 debug := false; txrInfoFlags := TXR_MI_ALLOW_CACHE |} H)
    as (ifaces & Hi & Hs & _).
  exists ifaces. split; [exact Hi | exact Hs].
Defined.

(** A malformed glob makes [GetIfaces] return the error of the first
    such glob and no interface; the debug switch changes what is printed
    (nothing when it is off), never what is returned. *)
Theorem GetIfaces_error (filepath_Glob : string -> list string * option error)
    (e : Exporter) (pre : list string) (glob : string) (post : list string) (err : error) :
  pathGlob e = (pre ++ glob :: post)%list ->
  Forall (fun glob => snd (filepath_Glob glob) = None) pre ->
  snd (filepath_Glob glob) = Some err ->
  snd (GetIfaces filepath_Glob e) = Err err
  /\ (debug e = false -> fst (GetIfaces filepath_Glob e) = "")
  /\ forall e', pathGlob e' = pathGlob e ->
                snd (GetIfaces filepath_Glob e') = snd (GetIfaces filepath_Glob e).
Proof.
  intros Hglobs Hpre Hg. unfold GetIfaces. cbn [fst snd]. split; [| split].
  - rewrite Hglobs, (GetIfaces_loop_Err filepath_Glob _ pre glob post err Hpre Hg).
    reflexivity.
  - intros ->. apply GetIfaces_loop_quiet.
  - intros e' ->.
    rewrite (GetIfaces_loop_debug filepath_Glob (debug e') _ [] "" ""),
      (GetIfaces_loop_debug filepath_Glob (debug e) _ [] "" ""). reflexivity.
Qed.

Lemma GetIfaces_error_witness :
  snd (GetIfaces sample_Glob
         {| pathGlob := ["/sys/class/net/enp129s0f*"; "["; "/sys/class/net/*"];
            debug := true; txrInfoFlags := TXR_MI_ALLOW_CACHE |})
  = Err (errorString "syntax error in pattern").
Proof.
  refine (proj1 (GetIfaces_error sample_Glob
                   {| pathGlob := ["/sys/class/net/enp129s0f*"; "["; "/sys/class/net/*"];
                      debug := true; txrInfoFlags := TXR_MI_ALLOW_CACHE |}
                   ["/sys/class/net/enp129s0f*"] "[" ["/sys/class/net/*"]
                   (errorString "syntax error in pattern") eq_refl _ eq_refl)).
  repeat constructor.
Defined.

(** ** The partitions of [DiscoverAndCollect] *)

Section PartitionFacts.
Variable FindStringSubmatch : string -> option (list string).

Lemma partition_loop_spec (ifaces : list string) :
  Forall (fun iface => FindStringSubmatch iface <> Some []) ifaces ->
  forall parallel,
    (forall key, parallel !! key <> Some []) ->
    exists parallel',
      partition_loop FindStringSubmatch ifaces parallel = Ok parallel'
      /\ forall key,
           parallel' !! key
           = match (default [] (parallel !! key) ++ List.filter (has_key FindStringSubmatch key) ifaces)%list with
             | [] => None
             | values => Some values
             end.
Proof.
  induction 1 as [| iface rest Hne _ IH]; intros parallel Hfull.
  - exists parallel. split; [reflexivity |]. intros key. simpl. rewrite app_nil_r.
    destruct (parallel !! key) as [[| v values] |] eqn:E; try reflexivity.
    destruct (Hfull key E).
  - cbn [partition_loop]. unfold partition_step.
    destruct (partition_key FindStringSubmatch iface) as [k | err | msg] eqn:Hk.
    2,3: unfold partition_key in Hk;
         destruct (FindStringSubmatch iface) as [[| g groups] |]; congruence.
    cbn [res_bind].
    set (values := match parallel !! k with
                   | Some values => (values ++ [iface])%list
                   | None => [iface]
                   end).
    assert (Hvalues : values = (default [] (parallel !! k) ++ [iface])%list)
      by (subst values; destruct (parallel !! k); reflexivity).
    destruct (IH (<[k := values]> parallel)) as (parallel' & Hrun & Hspec).
    { intros key. destruct (decide (key = k)) as [-> | Hkey].
      - rewrite lookup_insert_eq, Hvalues. intros H. inversion H as [H'].
        destruct (default [] (parallel !! k)); discriminate.
      - rewrite lookup_insert_ne by congruence. apply Hfull. }
    exists parallel'. split; [exact Hrun |]. intros key. rewrite Hspec.
    cbn [List.filter]. unfold has_key at 2. rewrite Hk.
    destruct (decide (key = k)) as [-> | Hkey].
    + rewrite lookup_insert_eq, String.eqb_refl.
      cbn [default]. unfold id. rewrite Hvalues, <- app_assoc. reflexivity.
    + rewrite lookup_insert_ne by congruence.
      destruct (String.eqb_spec k key) as [-> | _]; [congruence | reflexivity].
Qed.

End PartitionFacts.

(** The first loop of [DiscoverAndCollect] files every interface under
    the key of its capture groups (or under the key of the names that do
    not match): the list kept under a key holds exactly the interfaces
    with that key, in their original order, no key holds an empty list,
    and the interfaces are collected serially as one series exactly when
    they all have the same key. *)
Theorem partitions_by_key (FindStringSubmatch : string -> option (list string))
    (ifaces : list string) :
  Forall (fun iface => FindStringSubmatch iface <> Some []) ifaces ->
  exists parallel,
    partitions FindStringSubmatch ifaces = Ok parallel
    /\ (forall key values,
          parallel !! key = Some values <->
          values <> []
          /\ values = List.filter (has_key FindStringSubmatch key) ifaces)
    /\ (collects_serially parallel = true <->
        forall a b, In a ifaces -> In b ifaces ->
                    partition_key FindStringSubmatch a = partition_key FindStringSubmatch b).
Proof.
  intros Hne.
  destruct (partition_loop_spec FindStringSubmatch ifaces Hne ∅) as (parallel & Hrun & Hspec).
  { intros key. rewrite lookup_empty. discriminate. }
  assert (Hlookup : forall key values,
             parallel !! key = Some values <->
             values <> []
             /\ values = List.filter (has_key FindStringSubmatch key) ifaces).
  { intros key values. rewrite Hspec, lookup_empty. cbn [default app].
    destruct (List.filter _ ifaces) as [| v vs].
    - split; [discriminate | intros [H ->]; congruence].
    - split; [intros H; inversion H; split; [discriminate | reflexivity] |].
      intros [_ ->]. reflexivity. }
  assert (Hkey : forall a, In a ifaces ->
                           exists key, partition_key FindStringSubmatch a = Ok key
                                       /\ is_Some (parallel !! key)).
  { intros a Ha. pose proof (proj1 (List.Forall_forall _ _) Hne a Ha) as Hna.
    cbv beta in Hna.
    destruct (partition_key FindStringSubmatch a) as [key | err | msg] eqn:Hk.
    2,3: unfold partition_key in Hk;
         destruct (FindStringSubmatch a) as [[| g groups] |]; congruence.
    exists key. split; [reflexivity |].
    destruct (List.filter (has_key FindStringSubmatch key) ifaces) as [| v vs] eqn:Hf.
    - assert (Hin : In a (List.filter (has_key FindStringSubmatch key) ifaces)).
      { apply filter_In. split; [exact Ha |]. unfold has_key. rewrite Hk.
        apply String.eqb_refl. }
      rewrite Hf in Hin. destruct Hin.
    - exists (v :: vs). apply Hlookup. split; [discriminate | congruence]. }
  exists parallel. split; [exact Hrun |]. split; [exact Hlookup |].
  unfold collects_serially. rewrite Z.ltb_lt. split.
  - intros Hsize a b Ha Hb.
    destruct (Hkey a Ha) as (ka & Hka & [va Hva]). destruct (Hkey b Hb) as (kb & Hkb & [vb Hvb]).
    rewrite Hka, Hkb. f_equal. destruct (decide (ka = kb)) as [-> | Hab]; [reflexivity |].
    exfalso.
    pose proof (map_size_delete ka parallel) as Hd. rewrite Hva in Hd.
    assert (Hempty : delete ka parallel = ∅) by (apply map_size_empty_inv; lia).
    pose proof (lookup_delete_ne parallel ka kb Hab) as Hl.
    rewrite Hempty, lookup_empty, Hvb in Hl. discriminate.
  - intros Hsame. destruct ifaces as [| a rest].
    + assert (parallel = ∅) as ->; [| rewrite map_size_empty; lia].
      apply map_eq. intros key. rewrite Hspec, lookup_empty. reflexivity.
    + destruct (Hkey a (or_introl eq_refl)) as (ka & Hka & [va Hva]).
      assert (Hempty : delete ka parallel = ∅).
      { apply map_eq. intros key. rewrite lookup_empty.
        destruct (decide (key = ka)) as [-> | Hne']; [apply lookup_delete_eq |].
        rewrite lookup_delete_ne by congruence.
        destruct (parallel !! key) as [values |] eqn:E; [| reflexivity]. exfalso.
        apply Hlookup in E as [Hvalues ->].
        destruct (List.filter _ (a :: rest)) as [| b vs] eqn:Hf; [congruence |].
        assert (Hb : In b (List.filter (has_key FindStringSubmatch key) (a :: rest)))
          by (rewrite Hf; left; reflexivity).
        apply filter_In in Hb as [Hb Hbk]. unfold has_key in Hbk.
        rewrite <- (Hsame a b (or_introl eq_refl) Hb), Hka in Hbk.
        apply String.eqb_eq in Hbk. congruence. }
      pose proof (map_size_delete ka parallel) as Hd. rewrite Hva, Hempty in Hd.
      rewrite map_size_empty in Hd. lia.
Qed.

Lemma partitions_by_key_witness :
  Forall (fun iface => port_group iface <> Some []) ["enp1s2f0"; "enp1s2f1"; "enp1s3f0"]
  /\ partitions port_group ["enp1s2f0"; "enp1s2f1"; "enp1s3f0"]
     = Ok {["enp1s2f" := ["enp1s2f0"; "enp1s2f1"]; "enp1s3f" := ["enp1s3f0"]]}
  /\ exists parallel,
       partitions port_group ["enp1s2f0"; "enp1s2f1"; "enp1s3f0"] = Ok parallel
       /\ forall key values,
            parallel !! key = Some values <->
            values <> []
            /\ values = List.filter (has_key port_group key)
                          ["enp1s2f0"; "enp1s2f1"; "enp1s3f0"].
Proof.
  assert (H : Forall (fun iface => port_group iface <> Some [])
                ["enp1s2f0"; "enp1s2f1"; "enp1s3f0"])
    by (repeat constructor; discriminate).
  split; [exact H |]. split; [vm_compute; reflexivity |].
  destruct (partitions_by_key port_group ["enp1s2f0"; "enp1s2f1"; "enp1s3f0"] H)
    as (parallel & Hrun & Hspec & _).
  exists parallel. split; [exact Hrun | exact Hspec].
Defined.

(** ** The line-protocol output of a collection *)

Lemma count_LF_app (s1 s2 : string) : count_LF (s1 ++ s2) = (count_LF s1 + count_LF s2)%nat.
Proof.
  unfold count_LF. rewrite list_ascii_of_string_app, List.filter_app, length_app. reflexivity.
Qed.

Lemma count_LF_safe (s : string) :
  forallb tag_safe (list_ascii_of_string s) = true -> count_LF s = 0%nat.
Proof.
  unfold count_LF. induction (list_ascii_of_string s) as [| a l IH]; [reflexivity |].
  cbn [forallb List.filter]. intros H. apply andb_true_iff in H as [Ha Hl].
  unfold tag_safe in Ha. apply andb_true_iff in Ha as [Ha _].
  apply andb_true_iff in Ha as [Ha _]. apply Z.leb_le in Ha.
  destruct (code a =? 10) eqn:E; [apply Z.eqb_eq in E; lia | exact (IH Hl)].
Qed.

Lemma count_LF_pretty_N_go (x : N) (s : string) :
  count_LF (pretty_N_go x s) = count_LF s.
Proof.
  revert s. induction (N.lt_wf_0 x) as [x _ IH]. intros s.
  destruct (N.eq_dec x 0%N) as [-> | Hx]; [reflexivity |].
  rewrite pretty_N_go_step by lia. rewrite IH by (apply N.div_lt; lia).
  change (String ?a s) with (String a "" ++ s). rewrite count_LF_app.
  unfold pretty_N_char. repeat case_match; reflexivity.
Qed.

Lemma count_LF_fmt_d (n : Z) : count_LF (fmt_d n) = 0%nat.
Proof.
  unfold fmt_d, pretty, pretty_Z.
  destruct n as [| p | p]; [reflexivity | |].
  - unfold pretty, pretty_positive, pretty, pretty_N.
    destruct (decide (N.pos p = 0%N)); [reflexivity |]. apply count_LF_pretty_N_go.
  - change ("-" +:+ ?s) with ("-" ++ s). rewrite count_LF_app.
    unfold pretty, pretty_positive, pretty, pretty_N.
    destruct (decide (N.pos p = 0%N)); [reflexivity |]. rewrite count_LF_pretty_N_go.
    reflexivity.
Qed.

Lemma count_LF_concat (sep : string) (l : list string) :
  count_LF sep = 0%nat -> Forall (fun s => count_LF s = 0%nat) l ->
  count_LF (String.concat sep l) = 0%nat.
Proof.
  intros Hsep. induction 1 as [| s rest Hs Hrest IH]; [reflexivity |].
  destruct rest as [| s' rest]; [exact Hs |].
  change (String.concat sep (s :: s' :: rest)) with (s ++ sep ++ String.concat sep (s' :: rest)).
  rewrite !count_LF_app, Hs, Hsep, IH. reflexivity.
Qed.

Section OutputFacts.
Context {P : Platform}.

Lemma tagList_no_LF (r : CollectionRecord) (labels : list string) :
  Forall (fun s => count_LF s = 0%nat) labels ->
  forall tagList,
    Forall (fun s => count_LF s = 0%nat) tagList ->
    Forall (fun s => count_LF s = 0%nat) (fold_left (tagList_step (P := P) r) labels tagList).
Proof.
  induction 1 as [| label rest Hlabel _ IH]; intros tagList Htags; [exact Htags |].
  cbn [fold_left]. apply IH. unfold tagList_step.
  destruct (0 <? Z.of_nat (String.length (tag_value r label))); [| exact Htags].
  apply Forall_app. split; [exact Htags |]. constructor; [| constructor].
  rewrite !count_LF_app, Hlabel, escape_value_passes.
  rewrite (count_LF_safe _ (escape_value_safe _)). reflexivity.
Qed.

Lemma tagStr_no_LF (r : CollectionRecord) :
  count_LF (String.concat "," (fold_left (tagList_step (P := P) r) transcieverFullLabels []))
  = 0%nat.
Proof.
  apply count_LF_concat; [reflexivity |]. apply tagList_no_LF; [| constructor].
  unfold transcieverFullLabels. repeat constructor.
Qed.

End OutputFacts.

Section PipelineFacts.
Context {P : Platform}.





End PipelineFacts.



(** The entry written for a record holds one line feed, at its end, when
    the record carries no error, and two when it carries one (the line
    of a failure ends in a line feed of its own); neither the tags nor
    the timestamp add any, provided the formatted numbers hold none. *)
Theorem influx_entry_line_feeds (P : Platform) (r : CollectionRecord) (nowi : Z) :
  (forall prec x, count_LF (fmt_f P prec x) = 0%nat) ->
  (rec_err r = None -> is_Some (rec_metrics r)) ->
  exists line,
    InfluxChan_Emit (P := P) [] r = Ok [line]
    /\ count_LF (influx_entry nowi line)
       = (match rec_err r with None => 1 | Some _ => 2 end)%nat
    /\ exists body, influx_entry nowi line = body ++ LF.
Proof.
  intros Hfmt Hm. unfold InfluxChan_Emit. pose proof (tagStr_no_LF (P := P) r) as Htags.
  destruct (rec_err r) as [err |].
  - eexists. split; [reflexivity |]. split.
    + unfold influx_entry. rewrite !count_LF_app, Htags, count_LF_fmt_d. reflexivity.
    + unfold influx_entry. eexists. rewrite <- !string_app_assoc. reflexivity.
  - destruct (Hm eq_refl) as [metrics ->]. cbn [or_panic res_bind].
    eexists. split; [reflexivity |]. split.
    + unfold influx_entry. rewrite !count_LF_app, Htags, !Hfmt, count_LF_fmt_d. reflexivity.
    + unfold influx_entry. eexists. rewrite <- !string_app_assoc. reflexivity.
Qed.

Lemma influx_entry_line_feeds_witness :
  (forall prec x, count_LF (fmt_f sample_platform prec x) = 0%nat) /\
  exists line,
    InfluxChan_Emit (P := sample_platform) []
      {| rec_iface := "eth0"; rec_err := Some (errorString "no such device");
         rec_tags := ∅; rec_metrics := None |} = Ok [line]
    /\ count_LF (influx_entry 1700000000 line) = 2%nat.
Proof.
  assert (Hfmt : forall prec x, count_LF (fmt_f sample_platform prec x) = 0%nat)
    by (intros prec x; reflexivity).
  split; [exact Hfmt |].
  destruct (influx_entry_line_feeds sample_platform
              {| rec_iface := "eth0"; rec_err := Some (errorString "no such device");
                 rec_tags := ∅; rec_metrics := None |} 1700000000 Hfmt)
    as (line & H1 & H2 & _); [discriminate |].
  exists line. split; [exact H1 | exact H2].
Defined.

(** ** The two emitters *)

Section EmitterFacts.
Context {P : Platform}.

Lemma tag_value_other (r : CollectionRecord) (key value label : string) :
  In label transcieverFullLabels -> ~ In key emitted_tags ->
  tag_value (P := P)
    {| rec_iface := rec_iface r; rec_err := rec_err r;
       rec_tags := <[key := value]> (rec_tags r); rec_metrics := rec_metrics r |} label
  = tag_value (P := P) r label.
Proof.
  intros Hlabel Hkey. unfold tag_value. cbn [rec_iface rec_err rec_tags].
  destruct (String.eqb_spec label "iface") as [-> | Hi]; [reflexivity |].
  destruct (String.eqb_spec label "error") as [-> | He]; [reflexivity |].
  rewrite lookup_insert_ne; [reflexivity |]. intros ->. apply Hkey.
  unfold emitted_tags, transcieverFullLabels in *. simpl in *. intuition congruence.
Qed.

Lemma fold_left_ext_in {A B} (f g : A -> B -> A) (l : list B) :
  (forall x a, In x l -> f a x = g a x) -> forall a, fold_left f l a = fold_left g l a.
Proof.
  induction l as [| x rest IH]; intros H a; [reflexivity |].
  cbn [fold_left]. rewrite (H x a (or_introl eq_refl)). apply IH.
  intros y b Hy. apply H. right. exact Hy.
Qed.

End EmitterFacts.

(** Neither emitter reads a field of the Tag Set other than "vendor",
    "revision", "product", "serial", "wavelen" and "mfgdate": the tag
    "oui", which [ModuleInfo] fetches, is in no output, and a Tag Set
    that differs under another key gives the same line and the same
    samples. *)
Theorem Emit_ignores_other_tags (P : Platform) (label_value_ok : string -> bool)
    (r : CollectionRecord) (key value : string) (lines : InfluxChan) (samples : MetricChan) :
  ~ In key emitted_tags ->
  let r' := {| rec_iface := rec_iface r; rec_err := rec_err r;
               rec_tags := <[key := value]> (rec_tags r); rec_metrics := rec_metrics r |} in
  InfluxChan_Emit (P := P) lines r' = InfluxChan_Emit (P := P) lines r
  /\ MetricChan_Emit (P := P) label_value_ok samples r'
     = MetricChan_Emit (P := P) label_value_ok samples r.
Proof.
  intros Hkey r'. split.
  - unfold InfluxChan_Emit.
    assert (Hfold : fold_left (tagList_step (P := P) r') transcieverFullLabels []
                    = fold_left (tagList_step (P := P) r) transcieverFullLabels []).
    { apply fold_left_ext_in. intros label tagList Hlabel. unfold tagList_step.
      subst r'. rewrite (tag_value_other r key value label Hlabel Hkey). reflexivity. }
    rewrite Hfold. reflexivity.
  - unfold MetricChan_Emit.
    assert (Hmap : map (tag_value (P := P) r') transcieverFullLabels
                   = map (tag_value (P := P) r) transcieverFullLabels).
    { apply map_ext_in. intros label Hlabel. subst r'.
      apply (tag_value_other r key value label Hlabel Hkey). }
    rewrite Hmap. reflexivity.
Qed.

Lemma Emit_ignores_other_tags_witness :
  ~ In "oui" emitted_tags /\
  InfluxChan_Emit (P := sample_platform) []
    {| rec_iface := "eth0"; rec_err := Some (errorString "no such device");
       rec_tags := <["oui" := "00:90:65"]> ∅; rec_metrics := None |}
  = InfluxChan_Emit (P := sample_platform) []
      {| rec_iface := "eth0"; rec_err := Some (errorString "no such device");
         rec_tags := ∅; rec_metrics := None |}.
Proof.
  assert (H : ~ In "oui" emitted_tags).
  { unfold emitted_tags. simpl. intuition discriminate. }
  split; [exact H |].
  exact (proj1 (Emit_ignores_other_tags sample_platform (fun _ => true)
                  {| rec_iface := "eth0"; rec_err := Some (errorString "no such device");
                     rec_tags := ∅; rec_metrics := None |} "oui" "00:90:65" [] [] H)).
Defined.

(** [MetricChan.Emit] hands [MustNewConstMetric] as many label values as
    the descriptor has labels, so that with label values the library
    accepts it does not panic: a record without error yields the six
    samples present (value 1), temp, volt, bias, txw and rxw, a record
    with an error the single sample present (value 0); every sample has
    the interface name as its first label value, and the second label
    value of the sample present is the text of the error, empty when
    there is none. *)
Theorem MetricChan_Emit_samples (P : Platform) (label_value_ok : string -> bool)
    (ch : MetricChan) (r : CollectionRecord) :
  forallb label_value_ok (map (tag_value (P := P) r) transcieverFullLabels) = true ->
  (rec_err r = None -> is_Some (rec_metrics r)) ->
  exists present rest,
    MetricChan_Emit (P := P) label_value_ok ch r = Ok (ch ++ present :: rest)%list
    /\ m_desc present = transciever_present
    /\ m_value present = (match rec_err r with None => 1 | Some _ => 0 end)%float
    /\ m_labels present !! 1%nat
       = Some (match rec_err r with None => "" | Some err => Error (P := P) err end)
    /\ map (fun m => fqName (m_desc m)) rest
       = match rec_err r with
         | None => ["ethtool_transciever_temp"; "ethtool_transciever_volt";
                    "ethtool_transciever_bias"; "ethtool_transciever_txw";
                    "ethtool_transciever_rxw"]
         | Some _ => []
         end
    /\ Forall (fun m => length (m_labels m) = length (variableLabels (m_desc m))
                        /\ m_labels m !! 0%nat = Some (rec_iface r))
         (present :: rest).
Proof.
  intros Hok Hm. unfold MetricChan_Emit.
  assert (Hiface : label_value_ok (rec_iface r) = true).
  { unfold transcieverFullLabels in Hok. cbn [map forallb] in Hok.
    apply andb_true_iff in Hok as [Hok _]. exact Hok. }
  assert (Hpresent : forall v,
             MustNewConstMetric label_value_ok transciever_present v
               (map (tag_value (P := P) r) transcieverFullLabels)
             = Ok {| m_desc := transciever_present; m_value := v;
                     m_labels := map (tag_value (P := P) r) transcieverFullLabels |}).
  { intros v. unfold MustNewConstMetric. rewrite Hok. reflexivity. }
  assert (Hone : forall desc v,
             variableLabels desc = transcieverLabels ->
             MustNewConstMetric label_value_ok desc v [rec_iface r]
             = Ok {| m_desc := desc; m_value := v; m_labels := [rec_iface r] |}).
  { intros desc v Hd. unfold MustNewConstMetric. rewrite Hd. cbn [forallb].
    rewrite Hiface. reflexivity. }
  destruct (rec_err r) as [err |] eqn:Herr.
  - rewrite Hpresent. cbn [res_bind]. eexists. exists []. split; [reflexivity |].
    cbn [m_desc m_value m_labels]. split; [reflexivity |]. split; [reflexivity |].
    split; [unfold tag_value; rewrite Herr; reflexivity |]. split; [reflexivity |].
    repeat constructor.
  - destruct (Hm eq_refl) as [metrics ->].
    rewrite Hpresent. cbn [res_bind or_panic]. rewrite !Hone by reflexivity.
    cbn [res_bind]. eexists. eexists. split; [reflexivity |].
    cbn [m_desc m_value m_labels]. split; [reflexivity |]. split; [reflexivity |].
    split; [unfold tag_value; rewrite Herr; reflexivity |]. split; [reflexivity |].
    repeat constructor.
Qed.

Lemma MetricChan_Emit_samples_witness :
  exists present rest,
    MetricChan_Emit (P := sample_platform) (fun _ => true) []
      {| rec_iface := "eth0"; rec_err := Some (errorString "no such device");
         rec_tags := ∅; rec_metrics := None |} = Ok ([] ++ present :: rest)%list
    /\ m_labels present !! 1%nat = Some "no such device".
Proof.
  destruct (MetricChan_Emit_samples sample_platform (fun _ => true) []
              {| rec_iface := "eth0"; rec_err := Some (errorString "no such device");
                 rec_tags := ∅; rec_metrics := None |} eq_refl)
    as (present & rest & H1 & _ & _ & H2 & _); [discriminate |].
  exists present, rest. split; [exact H1 | exact H2].
Defined.

(** ** The numbers of the Tag Set *)

Lemma wrap_int_small (z : Z) : - 2 ^ 63 <= z < 2 ^ 63 -> wrap_int z = z.
Proof.
  intros H. unfold wrap_int. rewrite Z.mod_small by lia. lia.
Qed.

Lemma bytes_at_lookup (rom : list byte) (offset : nat) (b : byte) (len : nat) :
  rom !! offset = Some b ->
  bytes_at rom (Z.of_nat offset) (Z.of_nat (S len))
  = b :: bytes_at rom (Z.of_nat (S offset)) (Z.of_nat len).
Proof.
  intros H. unfold bytes_at. rewrite !Nat2Z.id.
  rewrite (drop_S rom b offset H). reflexivity.
Qed.

(** The tags "wavelen" and "oui" of [moduleInfo]: the wavelength is the
    decimal numeral of the unsigned 16-bit number stored high byte first
    at 0x3c, and the OUI is the three bytes at 0x25 as two-digit
    lower-case hexadecimal numbers joined by colons. *)
Theorem moduleInfo_numbers (P : Platform) (e : EthToolModule) (rom : list byte)
    (w : World P) (o0 o1 o2 w0 w1 : byte) :
  tpe e = ETH_MODULE_SFF_8472 ->
  0x5c <= eeprom_len e < 2 ^ 32 ->
  0x5c <= Z.of_nat (length rom) ->
  fixed_eeprom P (ifname e) rom ->
  0 <= ethtool_socket w ->
  rom !! 0x25%nat = Some o0 -> rom !! 0x26%nat = Some o1 -> rom !! 0x27%nat = Some o2 ->
  rom !! 0x3c%nat = Some w0 -> rom !! 0x3d%nat = Some w1 ->
  exists tags w',
    moduleInfo e TXR_MI_ALL w = (Ok tags, w')
    /\ tags !! "wavelen" = Some (fmt_d (256 * byte_val w0 + byte_val w1))
    /\ tags !! "oui" = Some (fmt_02x o0 ++ ":" ++ fmt_02x o1 ++ ":" ++ fmt_02x o2).
Proof.
  intros Ht HL Hrom Hfix Hs Ho0 Ho1 Ho2 Hw0 Hw1.
  destruct (moduleInfo_values P e rom TXR_MI_ALL w Ht HL Hrom Hfix Hs) as [w' Hrun].
  eexists. exists w'. split; [exact Hrun |].
  let sel := eval vm_compute in (selected TXR_MI_ALL) in
    change (selected TXR_MI_ALL) with sel.
  unfold direct_tags. cbn [fold_left e_name].
  pose proof (byte_val_range w0) as R0. pose proof (byte_val_range w1) as R1.
  split.
  - rewrite lookup_insert_ne by discriminate. rewrite lookup_insert_ne by discriminate.
    rewrite lookup_insert_eq. f_equal. unfold field_text. cbn [e_offset e_length e_decoder].
    change 60 with (Z.of_nat 60). change 2 with (Z.of_nat 2) at 1.
    rewrite (bytes_at_lookup rom 60 w0 1 Hw0), (bytes_at_lookup rom 61 w1 0 Hw1).
    unfold decodeStatic.
    change (Z.of_nat 2 =? txr_DECODE_STRING) with false.
    change (1 =? txr_DECODE_STRING) with false. change (1 =? txr_DECODE_OUI) with false.
    change (1 =? txr_DECODE_INT) with true. cbv iota.
    unfold elems. cbn [sl_arr sl_len]. change (Z.to_nat 2) with 2%nat.
    cbn [take fold_left]. rewrite Z.mul_0_r, Z.add_0_l.
    rewrite (wrap_int_small (byte_val w0)) by lia.
    rewrite wrap_int_small by lia. reflexivity.
  - do 5 (rewrite lookup_insert_ne by discriminate).
    rewrite lookup_insert_eq. f_equal. unfold field_text. cbn [e_offset e_length e_decoder].
    change 37 with (Z.of_nat 37). change 3 with (Z.of_nat 3) at 1.
    rewrite (bytes_at_lookup rom 37 o0 2 Ho0), (bytes_at_lookup rom 38 o1 1 Ho1),
      (bytes_at_lookup rom 39 o2 0 Ho2).
    reflexivity.
Qed.

Lemma moduleInfo_numbers_witness :
  (tpe (sample_module 512) = ETH_MODULE_SFF_8472 /\ 0x5c <= 512 < 2 ^ 32
   /\ 0x5c <= Z.of_nat (length sample_rom) /\ 0 <= 3) /\
  exists tags w',
    moduleInfo (P := sample_platform) (sample_module 512) TXR_MI_ALL
      (running sample_platform tt ∅) = (Ok tags, w')
    /\ tags !! "wavelen" = Some "850"
    /\ tags !! "oui" = Some "00:90:65".
Proof.
  assert (Ht : tpe (sample_module 512) = ETH_MODULE_SFF_8472) by reflexivity.
  assert (HL : 0x5c <= eeprom_len (sample_module 512) < 2 ^ 32) by (simpl; lia).
  assert (Hrom : 0x5c <= Z.of_nat (length sample_rom)) by (vm_compute; discriminate).
  assert (Hs : 0 <= ethtool_socket (running sample_platform tt ∅)) by (simpl; lia).
  split; [split; [exact Ht |]; split; [exact HL |]; split; [exact Hrom | exact Hs] |].
  exact (moduleInfo_numbers sample_platform (sample_module 512) sample_rom
           (running sample_platform tt ∅) x00 x90 x65 x03 x52
           Ht HL Hrom sample_fixed_eeprom Hs eq_refl eq_refl eq_refl eq_refl eq_refl).
Defined.

(** When the read of the serial fails, [ModuleInfo] with
    [TXR_MI_ALLOW_CACHE] returns the error of that read: no other field
    is read, and the cache is as before. *)
Theorem ModuleInfo_serial_read_fails (P : Platform) (e : EthToolModule) (w w1 : World P)
    (err : error) :
  tpe e = ETH_MODULE_SFF_8472 ->
  Read e 0x44 16 w = (Err err, w1) ->
  ModuleInfo e TXR_MI_ALLOW_CACHE w = (Err err, w1)
  /\ moduleCache w1 = moduleCache w
  /\ (length (ioctls w1) <= S (length (ioctls w)))%nat.
Proof.
  intros Ht HR. split; [| split].
  - unfold ModuleInfo, ModuleInfo_probe. rewrite Z.eqb_refl. unfold bind.
    rewrite (moduleInfo_serial_eq e w Ht), HR. reflexivity.
  - exact (Read_frame _ _ _ _ _ _ HR).
  - revert HR. unfold Read.
    destruct (eeprom_len e <? 1); [intros H; inversion H; subst; lia |].
    destruct (eeprom_len e <? 68); [intros H; inversion H; subst; lia |].
    destruct (68 =? eeprom_len e); [discriminate |].
    unfold bind, ethtool.
    destruct (ethtool_socket w <? 0).
    + destruct (unix_Socket P (kern w)) as [[errno | fd] k].
      * intros H. inversion H; subst. simpl. lia.
      * destruct (ioctl_GMODULEEEPROM P _ _ _ _ _) as [[errno | written] k'];
          intros H; [inversion H; subst; simpl; rewrite length_app; simpl; lia |].
        unfold lift in H. destruct (array_prefix _ _); inversion H; subst.
        simpl. rewrite length_app. simpl. lia.
    + destruct (ioctl_GMODULEEEPROM P _ _ _ _ _) as [[errno | written] k'];
        intros H; [inversion H; subst; simpl; rewrite length_app; simpl; lia |].
      unfold lift in H. destruct (array_prefix _ _); inversion H; subst.
      simpl. rewrite length_app. simpl. lia.
Qed.

Lemma ModuleInfo_serial_read_fails_witness :
  tpe (sample_module 0x40) = ETH_MODULE_SFF_8472 /\
  ModuleInfo (P := sample_platform) (sample_module 0x40) TXR_MI_ALLOW_CACHE
    (running sample_platform tt primed_cache)
  = (Err (errorString "ethtool: Offset out of bounds."), running sample_platform tt primed_cache).
Proof.
  split; [reflexivity |].
  exact (proj1 (ModuleInfo_serial_read_fails sample_platform (sample_module 0x40)
                  (running sample_platform tt primed_cache)
                  (running sample_platform tt primed_cache)
                  (errorString "ethtool: Offset out of bounds.") eq_refl eq_refl)).
Defined.
